(** * PTDaemon server ([ptd_client_server/server.py]): model and properties

    A shallow embedding of the log analyser ([RE_PTD_LOG], [max_volts_amps],
    [read_log]), of the daemon supervisor (class [Ptd]), of the
    configuration ([get_host_port_from_listen_string], class
    [ServerConfig]) and of the session controller (class [Server]),
    followed by the properties proved about them.

    Conventions of the model.
    - A Python [str] is a [string]: a sequence of character codes below
      256. The content of a file is a [string] too, of its bytes. The two
      agree on ASCII text, which is what PTDaemon writes: the properties
      of reading a log as text are stated for ASCII content
      ([isascii]), on which decoding changes nothing.
    - The world outside the server (the operating system, the daemon, the
      client) is an explicit value of type [World]: it holds the answers
      the environment will give and the events the server has caused.
    - A Python call that can raise is a function into [Outcome]; state
      changes made before a raise persist, as in Python.
    - [logging] calls are not modelled. *)

From Stdlib Require Import ZArith QArith Ascii String List Lia Bool.
From Stdlib Require Import DecimalString Qpower.
From stdpp Require Import base option list strings gmap.

Local Open Scope Z_scope.

(* ===================================================================== *)
(** * Part I: the model                                                   *)
(* ===================================================================== *)

(** ** Python strings *)

Module PyStr.

Definition LF : ascii := "010"%char.
Definition CR : ascii := "013"%char.
Definition comma : ascii := ","%char.

Definition is_comma (c : ascii) : bool := Ascii.eqb c comma.
Definition is_LF (c : ascii) : bool := Ascii.eqb c LF.
Definition is_CR_or_LF (c : ascii) : bool := Ascii.eqb c CR || Ascii.eqb c LF.

(** [str.isspace] on the code points below 256: TAB, LF, VT, FF, CR,
    FS, GS, RS, US, SPACE, NEL (0x85) and NBSP (0xA0). *)
Definition isspace (c : ascii) : bool :=
  let n := nat_of_ascii c in
  ((9 <=? n)%nat && (n <=? 13)%nat) || ((28 <=? n)%nat && (n <=? 32)%nat)
  || (n =? 133)%nat || (n =? 160)%nat.

(** The blanks that [float(text)] and [int(text)] drop around a text, on
    the code points below 256: TAB, LF, VT, FF, CR and SPACE, and NEL and
    NBSP, which both functions first turn into SPACE. FS, GS, RS and US
    are not among them, although [str.isspace] holds of them. *)
Definition numeric_space (c : ascii) : bool :=
  let n := nat_of_ascii c in
  ((9 <=? n)%nat && (n <=? 13)%nat) || (n =? 32)%nat
  || (n =? 133)%nat || (n =? 160)%nat.

Definition isdigit (c : ascii) : bool :=
  let n := nat_of_ascii c in (48 <=? n)%nat && (n <=? 57)%nat.

(** [s.isascii()]: every code is below 128. *)
Fixpoint isascii (s : string) : bool :=
  match s with
  | EmptyString => true
  | String c s' => (nat_of_ascii c <? 128)%nat && isascii s'
  end.

(** ASCII lower-casing of one character, for case-insensitive keywords. *)
Definition lower (c : ascii) : ascii :=
  let n := nat_of_ascii c in
  if (65 <=? n)%nat && (n <=? 90)%nat then ascii_of_nat (n + 32) else c.

Fixpoint lower_str (s : string) : string :=
  match s with
  | EmptyString => EmptyString
  | String c s' => String (lower c) (lower_str s')
  end.

(** [s.lstrip(chars)], [s.rstrip(chars)] and [s.strip(chars)], the set of
    characters given as a predicate. *)
Fixpoint lstrip (chars : ascii -> bool) (s : string) : string :=
  match s with
  | EmptyString => EmptyString
  | String c s' => if chars c then lstrip chars s' else s
  end.

Fixpoint rstrip (chars : ascii -> bool) (s : string) : string :=
  match s with
  | EmptyString => EmptyString
  | String c s' =>
      match rstrip chars s' with
      | EmptyString => if chars c then EmptyString else String c EmptyString
      | r => String c r
      end
  end.

Definition strip (chars : ascii -> bool) (s : string) : string :=
  rstrip chars (lstrip chars s).

(** [s.replace(c, "")] for a single character [c]. *)
Fixpoint remove (chars : ascii -> bool) (s : string) : string :=
  match s with
  | EmptyString => EmptyString
  | String c s' => if chars c then remove chars s' else String c (remove chars s')
  end.

(** [s.split(sep)] for a one-character separator: never empty, the empty
    string splits into one empty field. *)
Fixpoint split (sep : ascii -> bool) (s : string) : list string :=
  match s with
  | EmptyString => [EmptyString]
  | String c s' =>
      if sep c then EmptyString :: split sep s'
      else match split sep s' with
           | [] => [String c EmptyString]
           | f :: fs => String c f :: fs
           end
  end.

(** [sep.join(fields)]. *)
Fixpoint join (sep : string) (fields : list string) : string :=
  match fields with
  | [] => EmptyString
  | [f] => f
  | f :: fs => f +:+ sep +:+ join sep fs
  end.

(** [s.startswith(p)], returning the rest of [s] after [p]. *)
Fixpoint strip_prefix (p s : string) : option string :=
  match p with
  | EmptyString => Some s
  | String a p' =>
      match s with
      | String b s' => if Ascii.eqb a b then strip_prefix p' s' else None
      | EmptyString => None
      end
  end.

(** Text-mode reading with universal newlines ([open(name, "r")], the
    default [newline=None]): a CR LF pair and a lone CR both arrive as
    LF. *)
Fixpoint universal_newlines (s : string) : string :=
  match s with
  | EmptyString => EmptyString
  | String c s' =>
      if Ascii.eqb c CR then
        match s' with
        | String c' s'' =>
            if Ascii.eqb c' LF then String LF (universal_newlines s'')
            else String LF (universal_newlines s')
        | EmptyString => String LF EmptyString
        end
      else String c (universal_newlines s')
  end.

(** Iterating over a text file ([for line in f]): the text is cut after
    every LF, which stays at the end of its line; a last line without LF
    is a line too. *)
Fixpoint readlines (text : string) : list string :=
  match text with
  | EmptyString => []
  | String c s' =>
      if is_LF c then String c EmptyString :: readlines s'
      else match readlines s' with
           | [] => [String c EmptyString]
           | l :: ls => String c l :: ls
           end
  end.

(** [str(x)] of an optional string, as an f-string formats it: the text
    [None] when the attribute holds [None]. *)
Definition str_opt (x : option string) : string :=
  match x with Some s => s | None => "None" end.

(** [x == text] for an attribute or result [x] that may be [None]. *)
Definition is_str (x : option string) (text : string) : bool :=
  match x with Some s => String.eqb s text | None => false end.

End PyStr.

(** ** Exceptions and results *)

(** The exceptions the modelled code can raise. [RuntimeError] carries the
    marker its message names rather than the formatted text. *)
Inductive Exn : Type :=
| SystemExit (code : option Z)
| KeyboardInterrupt
| RuntimeError (about : string)
| InvalidOperation
| FileNotFoundError
| KeyError (key : string)
| IndexError
| AttributeError (attr : string)
| ValueError
| OSError.

(** [except Exception] catches everything but the two [BaseException]s. *)
Definition is_Exception (e : Exn) : bool :=
  match e with
  | SystemExit _ | KeyboardInterrupt => false
  | _ => true
  end.

Inductive Outcome (A : Type) : Type :=
| Ret (a : A)
| Raise (e : Exn).
Arguments Ret {A} a.
Arguments Raise {A} e.

Definition obind {A B} (x : Outcome A) (f : A -> Outcome B) : Outcome B :=
  match x with
  | Ret a => f a
  | Raise e => Raise e
  end.

Notation "'try' x <- c1 ; c2" := (obind c1 (fun x => c2))
  (at level 10, x name, c1 at level 100, c2 at level 200).

(** ** Numeric literals shared by [Decimal] and [float] *)

Module Numeral.
Import PyStr.

(** The longest prefix of characters satisfying [p], and the rest. *)
Fixpoint span (p : ascii -> bool) (s : string) : string * string :=
  match s with
  | EmptyString => (EmptyString, EmptyString)
  | String c s' =>
      if p c then let '(a, b) := span p s' in (String c a, b)
      else (EmptyString, s)
  end.

(** [int(digits)] for a string of ASCII digits. *)
Fixpoint digits_value_acc (acc : N) (s : string) : N :=
  match s with
  | EmptyString => acc
  | String c s' =>
      digits_value_acc (acc * 10 + (N.of_nat (nat_of_ascii c) - 48))%N s'
  end.
Definition digits_value (s : string) : N := digits_value_acc 0%N s.

(** An optional sign: [true] for minus. *)
Definition take_sign (s : string) : bool * string :=
  match s with
  | String "-"%char r => (true, r)
  | String "+"%char r => (false, r)
  | _ => (false, s)
  end.

(** The shape both grammars share once blanks and underscores are dealt
    with: [digits [. digits] | . digits] then an optional exponent
    [(e|E) [sign] digits], up to the end of the text. The result is the
    coefficient and the power of ten: the text denotes [coeff * 10^exp]. *)
Definition exponent (s : string) : option Z :=
  match s with
  | EmptyString => Some 0
  | String e r =>
      if Ascii.eqb (lower e) "e"%char then
        let '(neg, r1) := take_sign r in
        let '(ds, r2) := span isdigit r1 in
        match ds, r2 with
        | String _ _, EmptyString =>
            Some (if neg then - Z.of_N (digits_value ds) else Z.of_N (digits_value ds))
        | _, _ => None
        end
      else None
  end.

Definition number (s : string) : option (N * Z) :=
  let '(ip, r1) := span isdigit s in
  let '(fp, r2) :=
    match r1 with
    | String "."%char r => span isdigit r
    | _ => (EmptyString, r1)
    end in
  match ip, fp with
  | EmptyString, EmptyString => None
  | _, _ =>
      match exponent r2 with
      | Some e => Some (digits_value (ip +:+ fp), e - Z.of_nat (String.length fp))
      | None => None
      end
  end.

(** The number of digits after the point in a text of that shape. *)
Definition fraction_digits (s : string) : nat :=
  match snd (span isdigit s) with
  | String "."%char r => String.length (fst (span isdigit r))
  | _ => O
  end.

End Numeral.

(** ** [decimal.Decimal] *)

Module PyDecimal.
Import PyStr Numeral.

(** A decimal is a sign, a coefficient and an exponent (the number
    [(-1)^sign * coeff * 10^exp], kept unnormalised: 3.5 and 3.50 differ),
    an infinity, or a NaN (whose sign and diagnostic digits, which no
    comparison reads, are not kept). *)
Inductive t : Type :=
| Finite (sign : bool) (coeff : N) (exp : Z)
| Infinity (sign : bool)
| NaN.

(** The decimal digits of a number. *)
Definition digits_of (n : N) : string := NilEmpty.string_of_uint (N.to_uint n).

(** The bounds of the library, those of its C implementation on a 64-bit
    machine: [decimal.MAX_PREC], [decimal.MAX_EMAX], and the least
    exponent of a subnormal, [MIN_EMIN - (MAX_PREC - 1)]. *)
Definition MAX_PREC : Z := 999999999999999999.
Definition MAX_EMAX : Z := 999999999999999999.
Definition MIN_ETINY : Z := -1999999999999999997.

(** A text is converted exactly or not at all: a numeral that the widest
    context would round or clamp is refused. It is kept when its
    fraction and its coefficient, leading zeros apart, have
    [MAX_PREC] digits at most, its exponent is [MIN_ETINY] at least, and
    the exponent of its first digit is [MAX_EMAX] at most. *)
Definition exact (coeff : N) (exp : Z) (fraction : nat) : bool :=
  let digits := Z.of_nat (String.length (digits_of coeff)) in
  (Z.of_nat fraction <=? MAX_PREC) && (digits <=? MAX_PREC)
  && (MIN_ETINY <=? exp) && (exp + digits - 1 <=? MAX_EMAX).

(** The infinities and the NaNs, quiet or signalling, the latter with
    diagnostic digits, of which [MAX_PREC] at most after leading
    zeros. *)
Definition special (body : string) : option (bool -> t) :=
  let b := lower_str body in
  if String.eqb b "inf" || String.eqb b "infinity" then Some Infinity
  else
    let b' := match b with String "s"%char r => r | _ => b end in
    match strip_prefix "nan" b' with
    | Some diag =>
        match snd (span isdigit diag) with
        | EmptyString =>
            if Z.of_nat (String.length (lstrip (Ascii.eqb "0"%char) diag)) <=? MAX_PREC
            then Some (fun _ => NaN) else None
        | _ => None
        end
    | None => None
    end.

(** [Decimal(value)] for a string: surrounding blanks are dropped and
    underscores removed, then the text must be a numeric string within
    the bounds. A text that is none raises [InvalidOperation]. *)
Definition Decimal (value : string) : Outcome t :=
  let s := remove (Ascii.eqb "_"%char) (strip isspace value) in
  let '(neg, body) := take_sign s in
  match number body with
  | Some (c, e) =>
      if exact c e (fraction_digits body) then Ret (Finite neg c e)
      else Raise InvalidOperation
  | None =>
      match special body with
      | Some mk => Ret (mk neg)
      | None => Raise InvalidOperation
      end
  end.

(** The exact value of a finite decimal, as a rational. *)
Definition value (sign : bool) (coeff : N) (exp : Z) : Q :=
  (inject_Z (if sign then - Z.of_N coeff else Z.of_N coeff) * Qpower (inject_Z 10) exp)%Q.

(** Numerical comparison: exact on finite values, the infinities below
    and above them; no answer when a NaN is involved. *)
Definition compare (a b : t) : option comparison :=
  match a, b with
  | NaN, _ | _, NaN => None
  | Infinity sa, Infinity sb => Some (if sa then (if sb then Eq else Lt) else (if sb then Gt else Eq))
  | Infinity sa, Finite _ _ _ => Some (if sa then Lt else Gt)
  | Finite _ _ _, Infinity sb => Some (if sb then Gt else Lt)
  | Finite sa ca ea, Finite sb cb eb => Some (Qcompare (value sa ca ea) (value sb cb eb))
  end.

(** [a > b] and [a <= b]: an ordering comparison with a NaN signals
    [InvalidOperation], which the default context traps. *)
Definition gt (a b : t) : Outcome bool :=
  match compare a b with
  | Some Gt => Ret true
  | Some _ => Ret false
  | None => Raise InvalidOperation
  end.

Definition le (a b : t) : Outcome bool :=
  match compare a b with
  | Some Gt => Ret false
  | Some _ => Ret true
  | None => Raise InvalidOperation
  end.

(** The builtin [max(a, b)]: [b] when [b > a], else [a]. *)
Definition max (a b : t) : Outcome t :=
  try g <- gt b a; Ret (if g then b else a).

Definition zero : t := Finite false 0 0.
Definition minus_one : t := Finite true 1 0.

(** [str(d)]: the scientific string of the decimal. *)

Fixpoint zeros (n : nat) : string :=
  match n with
  | O => EmptyString
  | S k => String "0"%char (zeros k)
  end.

Definition take (n : nat) (s : string) : string := String.substring 0 n s.
Definition drop (n : nat) (s : string) : string := String.substring n (String.length s - n) s.

Definition signed_int (z : Z) : string :=
  (if z <? 0 then "-" else "+") +:+ digits_of (Z.abs_N z).

Definition str (d : t) : string :=
  match d with
  | NaN => "NaN"
  | Infinity s => (if s then "-" else "") +:+ "Infinity"
  | Finite s c e =>
      let int := digits_of c in
      let len := Z.of_nat (String.length int) in
      let leftdigits := e + len in
      let dotplace := if (e <=? 0) && (-6 <? leftdigits) then leftdigits else 1 in
      let intpart :=
        if dotplace <=? 0 then "0"
        else if len <=? dotplace then int +:+ zeros (Z.to_nat (dotplace - len))
        else take (Z.to_nat dotplace) int in
      let fracpart :=
        if dotplace <=? 0 then "." +:+ zeros (Z.to_nat (- dotplace)) +:+ int
        else if len <=? dotplace then ""
        else "." +:+ drop (Z.to_nat dotplace) int in
      let exp :=
        if leftdigits =? dotplace then ""
        else "E" +:+ signed_int (leftdigits - dotplace) in
      (if s then "-" else "") +:+ intpart +:+ fracpart +:+ exp
  end.

End PyDecimal.

(** ** The regular expression [RE_PTD_LOG] *)

Module Re.
Import PyStr.

(** The constructs [RE_PTD_LOG] is written with. Under [re.X] the blanks
    and line breaks of the pattern are no part of it. *)
Inductive item : Type :=
| Bol                                         (* ^ *)
| Eol                                         (* $ *)
| Lit (text : string)                         (* literal text *)
| Star (cls : ascii -> bool)                  (* cls*, greedy *)
| Group (name : string) (cls : ascii -> bool) (* (?P<name> cls* ) *).

Definition pattern : Type := list item.

(** The groups of a match, by name. *)
Definition captures : Type := list (string * string).

(** [[^,]] and [.] (without [re.S], every character but a line feed). *)
Definition not_comma (c : ascii) : bool := negb (is_comma c).
Definition dot (c : ascii) : bool := negb (is_LF c).

(** [$] without [re.M]: at the end of the text, or before a line feed that
    ends it. *)
Definition at_end (s : string) : bool :=
  match s with
  | EmptyString => true
  | String c EmptyString => is_LF c
  | _ => false
  end.

(** A greedy repetition followed by the rest of the pattern [k]: the
    longest run is tried first, and one character is given back at a time
    while the rest fails. The result is the text of the run and what the
    rest captured. *)
Fixpoint greedy (cls : ascii -> bool) (k : nat -> string -> option captures)
    (pos : nat) (s : string) : option (string * captures) :=
  let stop := match k pos s with Some m => Some (EmptyString, m) | None => None end in
  match s with
  | String c s' =>
      if cls c then
        match greedy cls k (S pos) s' with
        | Some (g, m) => Some (String c g, m)
        | None => stop
        end
      else stop
  | EmptyString => stop
  end.

(** The backtracking matcher, from position [pos] where the text [s] is
    left. The end of the pattern is a success wherever it is reached. *)
Fixpoint exec (r : pattern) (pos : nat) (s : string) {struct r} : option captures :=
  match r with
  | [] => Some []
  | Bol :: r' => if (pos =? 0)%nat then exec r' pos s else None
  | Eol :: r' => if at_end s then exec r' pos s else None
  | Lit l :: r' =>
      match strip_prefix l s with
      | Some s' => exec r' (pos + String.length l) s'
      | None => None
      end
  | Star cls :: r' =>
      match greedy cls (exec r') pos s with
      | Some (_, m) => Some m
      | None => None
      end
  | Group name cls :: r' =>
      match greedy cls (exec r') pos s with
      | Some (g, m) => Some ((name, g) :: m)
      | None => None
      end
  end.

(** [pattern.match(s)]: a match anchored at the start of [s]. *)
Definition match_ (r : pattern) (s : string) : option captures := exec r 0 s.

(** [m[name]]. Every group of [RE_PTD_LOG] takes part in each of its
    matches, so the lookup finds it. *)
Fixpoint group (m : captures) (name : string) : string :=
  match m with
  | [] => EmptyString
  | (n, g) :: m' => if String.eqb n name then g else group m' name
  end.

End Re.

(** ** The log analyser *)

Import PyStr.

(** [RE_PTD_LOG], lines 37-47. *)
Definition RE_PTD_LOG : Re.pattern :=
  [ Re.Bol;
    Re.Lit "Time,";  Re.Star Re.not_comma; Re.Lit ",";
    Re.Lit "Watts,"; Re.Star Re.not_comma; Re.Lit ",";
    Re.Lit "Volts,"; Re.Group "v" Re.not_comma; Re.Lit ",";
    Re.Lit "Amps,";  Re.Group "a" Re.not_comma; Re.Lit ",";
    Re.Star Re.dot; Re.Lit ",";
    Re.Lit "Mark,";  Re.Group "mark" Re.not_comma;
    Re.Eol ].

(** A file on disk: [None] when it does not exist, else its content,
    byte for byte. [open(name, "r")] raises [FileNotFoundError] on a
    missing file and otherwise yields the content decoded, with universal
    newlines. The decoding is that of the locale, which this model does
    not hold; every encoding a locale can have leaves ASCII content as it
    is, so [open_r] is the text mode reading of an ASCII file, and says
    nothing of another. *)
Definition open_r (file : option string) : Outcome string :=
  match file with
  | Some content => Ret (universal_newlines content)
  | None => Raise FileNotFoundError
  end.

(** The test both functions apply to a line:
    [m = RE_PTD_LOG.match(line.rstrip("\r\n"))], then
    [m and m["mark"] == mark]. *)
Definition match_line (line : string) : option Re.captures :=
  Re.match_ RE_PTD_LOG (rstrip is_CR_or_LF line).

Definition selected (mark : string) (line : string) : option Re.captures :=
  match match_line line with
  | Some m => if String.eqb (Re.group m "mark") mark then Some m else None
  | None => None
  end.

(** One turn of the loop of [max_volts_amps] (lines 55-58). *)
Definition max_step (mark : string) (acc : PyDecimal.t * PyDecimal.t) (line : string)
    : Outcome (PyDecimal.t * PyDecimal.t) :=
  let '(maxVolts, maxAmps) := acc in
  match selected mark line with
  | Some m =>
      try v <- PyDecimal.Decimal (Re.group m "v");
      try maxVolts' <- PyDecimal.max maxVolts v;
      try a <- PyDecimal.Decimal (Re.group m "a");
      try maxAmps' <- PyDecimal.max maxAmps a;
      Ret (maxVolts', maxAmps')
  | None => Ret acc
  end.

Fixpoint max_loop (mark : string) (acc : PyDecimal.t * PyDecimal.t) (lines : list string)
    : Outcome (PyDecimal.t * PyDecimal.t) :=
  match lines with
  | [] => Ret acc
  | line :: rest =>
      try acc' <- max_step mark acc line;
      max_loop mark acc' rest
  end.

(** [max_volts_amps(log_fname, mark)], lines 50-61; [file] is the state of
    the file named [log_fname]. *)
Definition max_volts_amps (file : option string) (mark : string) : Outcome (string * string) :=
  try text <- open_r file;
  try maxima <- max_loop mark (PyDecimal.minus_one, PyDecimal.minus_one) (readlines text);
  let '(maxVolts, maxAmps) := maxima in
  try volts_le <- PyDecimal.le maxVolts PyDecimal.zero;
  try not_found <- (if volts_le then Ret true else PyDecimal.le maxAmps PyDecimal.zero);
  if not_found then Raise (RuntimeError mark)
  else Ret (PyDecimal.str maxVolts, PyDecimal.str maxAmps).

(** [read_log(log_fname, mark)], lines 64-71. *)
Fixpoint read_log_loop (mark : string) (lines : list string) : list string :=
  match lines with
  | [] => []
  | line :: rest =>
      match selected mark line with
      | Some _ => line :: read_log_loop mark rest
      | None => read_log_loop mark rest
      end
  end.

Definition read_log (file : option string) (mark : string) : Outcome string :=
  try text <- open_r file;
  Ret (join "" (read_log_loop mark (readlines text))).

(** ** [float(text) > 0] *)

Module PyFloat.
Import Numeral.

(** What [float(text)] is the rounding of: a decimal numeral, an infinity
    or a NaN. The double itself is not built; the only use the server
    makes of it is the test [float(text) > 0]. *)
Inductive t : Type :=
| Numeral (sign : bool) (coeff : N) (exp : Z)
| Inf (sign : bool)
| NaN.

(** An underscore may stand only between two digits. *)
Fixpoint underscores_ok (prev : option ascii) (s : string) : bool :=
  let after_digit := match prev with Some p => isdigit p | None => false end in
  match s with
  | EmptyString => negb (match prev with Some p => Ascii.eqb p "_"%char | None => false end)
  | String c s' =>
      if Ascii.eqb c "_"%char then after_digit && underscores_ok (Some c) s'
      else
        (match prev with
         | Some p => if Ascii.eqb p "_"%char then isdigit c else true
         | None => true
         end) && underscores_ok (Some c) s'
  end.

(** [float(text)]: blanks around the text are dropped; [ValueError] when
    what is left is no floating-point literal. *)
Definition float (text : string) : Outcome t :=
  let s := strip numeric_space text in
  if negb (underscores_ok None s) then Raise ValueError
  else
    let '(neg, body) := take_sign (remove (Ascii.eqb "_"%char) s) in
    match number body with
    | Some (c, e) => Ret (Numeral neg c e)
    | None =>
        let b := lower_str body in
        if String.eqb b "inf" || String.eqb b "infinity" then Ret (Inf neg)
        else if String.eqb b "nan" then Ret NaN
        else Raise ValueError
    end.

(** [x > 0] for the double nearest to the numeral: a positive numeral
    rounds to a positive double unless it is at most half the smallest
    subnormal, 2^-1075, which rounds to zero; one too large rounds to
    [inf]. *)
Definition gt_zero (x : t) : bool :=
  match x with
  | NaN => false
  | Inf sign => negb sign
  | Numeral sign c e =>
      negb sign &&
      match Qcompare (inject_Z (Z.of_N c) * Qpower (inject_Z 10) e)
                     (Qpower (inject_Z 2) (-1075)) with
      | Gt => true
      | _ => false
      end
  end.

End PyFloat.

(** ** Base64 *)

Module Base64.

Definition alphabet : string :=
  "ABCDEFGHIJKLMNOPQRSTUVWXYZabcdefghijklmnopqrstuvwxyz0123456789+/".

Definition digit (n : N) : ascii :=
  match String.get (N.to_nat n) alphabet with
  | Some c => c
  | None => "="%char
  end.

Definition byte (c : ascii) : N := N.of_nat (nat_of_ascii c).

(** [base64.b64encode(data)]: three bytes give four digits; one or two
    bytes left over are padded with [=]. *)
Fixpoint b64encode (data : string) : string :=
  match data with
  | EmptyString => EmptyString
  | String a EmptyString =>
      let n := (byte a * 65536)%N in
      String (digit (n / 262144)) (String (digit ((n / 4096) mod 64)) "==")
  | String a (String b EmptyString) =>
      let n := (byte a * 65536 + byte b * 256)%N in
      String (digit (n / 262144)) (String (digit ((n / 4096) mod 64))
        (String (digit ((n / 64) mod 64)) "="))
  | String a (String b (String c rest)) =>
      let n := (byte a * 65536 + byte b * 256 + byte c)%N in
      String (digit (n / 262144)) (String (digit ((n / 4096) mod 64))
        (String (digit ((n / 64) mod 64)) (String (digit (n mod 64))
          (b64encode rest))))
  end.

(** [text.encode()]: UTF-8, one byte for a code below 128 and two for the
    codes from 128 to 255. *)
Fixpoint encode (text : string) : string :=
  match text with
  | EmptyString => EmptyString
  | String c s' =>
      let n := byte c in
      if (n <? 128)%N then String c (encode s')
      else String (ascii_of_N (192 + n / 64)) (String (ascii_of_N (128 + n mod 64)) (encode s'))
  end.

End Base64.

(** ** The world outside the server *)

(** The answer to one [connect()] of the retry loop: the connection is
    made, or it is refused and [lib.sig.stopped] reads as given. *)
Inductive ConnectResult : Type :=
| Connected
| Refused (sig_stopped : bool).

(** The daemon's answer to one line sent to it: the reply [recv()] gives
    ([None] when the connection is closed), and the text the daemon has
    appended to its log file by then ([None]: it has not written). *)
Record Exchange : Type := {
  reply : option string;
  logged : option string;
}.

(** The outcome of one archive transfer of [push-log]. *)
Inductive Upload : Type :=
| UploadOk
| RecvFails (e : Exn)
| ExtractFails (e : Exn).

(** What the server does to the world, in the order it does it. *)
Inductive Event : Type :=
| Popen (command : string) (shell : bool)
| Connect (port : Z) (ok : bool)
| Sleep (tenths_of_second : Z)
| ToDaemon (line : string)
| FromDaemon (answer : option string)
| SocketClose
| Terminate
| Wait (timed_out : bool)
| Kill
| WaitForever
| NtpSync (server : option string)
| RemoveLog
| ToClient (line : string)
| RecvFile (out_dir name : string)
| Extract (out_dir name : string)
| RemoveArchive (out_dir name : string).

Record World : Type := {
  connects : list ConnectResult;  (* answers to the coming connect() calls *)
  daemon : list Exchange;         (* answers to the coming lines to the daemon *)
  waits : list bool;              (* does the coming wait(timeout=10) time out *)
  clock : list string;            (* the coming readings of str(time.time()) *)
  stamps : list string;           (* the coming strftime timestamps *)
  uploads : list Upload;          (* outcomes of the coming archive transfers *)
  win32 : bool;                   (* sys.platform == "win32" *)
  logfile : option string;        (* the daemon's log file, None when absent *)
  events : list Event;            (* what has been done, oldest first *)
}.

(** ** Stateful code that can raise *)

Definition M (S A : Type) : Type := S -> Outcome A * S.

Definition ret {S A} (a : A) : M S A := fun s => (Ret a, s).
Definition raise {S A} (e : Exn) : M S A := fun s => (Raise e, s).

Definition bind {S A B} (c : M S A) (k : A -> M S B) : M S B :=
  fun s =>
    match c s with
    | (Ret a, s') => k a s'
    | (Raise e, s') => (Raise e, s')
    end.

Notation "'do' x <- c1 ; c2" := (bind c1 (fun x => c2))
  (at level 10, x name, c1 at level 100, c2 at level 200).
Notation "'do_' c1 ; c2" := (bind c1 (fun _ => c2))
  (at level 10, c1 at level 100, c2 at level 200).

Definition get {S} : M S S := fun s => (Ret s, s).
Definition modify {S} (f : S -> S) : M S unit := fun s => (Ret tt, f s).

(** [try: body finally: cleanup]. *)
Definition finally {S A} (body : M S A) (cleanup : M S unit) : M S A :=
  fun s =>
    let '(r, s') := body s in
    match cleanup s' with
    | (Ret _, s'') => (r, s'')
    | (Raise e, s'') => (Raise e, s'')
    end.

(** Setters of the world's fields. *)
Definition set_connects (x : list ConnectResult) (w : World) : World :=
  {| connects := x; daemon := daemon w; waits := waits w; clock := clock w;
     stamps := stamps w; uploads := uploads w; win32 := win32 w;
     logfile := logfile w; events := events w |}.
Definition set_daemon (x : list Exchange) (w : World) : World :=
  {| connects := connects w; daemon := x; waits := waits w; clock := clock w;
     stamps := stamps w; uploads := uploads w; win32 := win32 w;
     logfile := logfile w; events := events w |}.
Definition set_waits (x : list bool) (w : World) : World :=
  {| connects := connects w; daemon := daemon w; waits := x; clock := clock w;
     stamps := stamps w; uploads := uploads w; win32 := win32 w;
     logfile := logfile w; events := events w |}.
Definition set_clock (x : list string) (w : World) : World :=
  {| connects := connects w; daemon := daemon w; waits := waits w; clock := x;
     stamps := stamps w; uploads := uploads w; win32 := win32 w;
     logfile := logfile w; events := events w |}.
Definition set_stamps (x : list string) (w : World) : World :=
  {| connects := connects w; daemon := daemon w; waits := waits w; clock := clock w;
     stamps := x; uploads := uploads w; win32 := win32 w;
     logfile := logfile w; events := events w |}.
Definition set_uploads (x : list Upload) (w : World) : World :=
  {| connects := connects w; daemon := daemon w; waits := waits w; clock := clock w;
     stamps := stamps w; uploads := x; win32 := win32 w;
     logfile := logfile w; events := events w |}.
Definition set_logfile (x : option string) (w : World) : World :=
  {| connects := connects w; daemon := daemon w; waits := waits w; clock := clock w;
     stamps := stamps w; uploads := uploads w; win32 := win32 w;
     logfile := x; events := events w |}.
Definition set_events (x : list Event) (w : World) : World :=
  {| connects := connects w; daemon := daemon w; waits := waits w; clock := clock w;
     stamps := stamps w; uploads := uploads w; win32 := win32 w;
     logfile := logfile w; events := x |}.

(** Operations on the world, usable in any state that contains one. *)
Section WorldOps.
Context {S : Type} (world : S -> World) (set_world : World -> S -> S).

Definition with_world (f : World -> World) : M S unit :=
  modify (fun s => set_world (f (world s)) s).

Definition read_world : M S World := fun s => (Ret (world s), s).

Definition emit (e : Event) : M S unit :=
  with_world (fun w => set_events (events w ++ [e]) w).

End WorldOps.

Definition lift {S A} (x : Outcome A) : M S A := fun s => (x, s).

(** The daemon appends to its log file, creating it when absent. *)
Definition append_log (text : option string) (file : option string) : option string :=
  match text with
  | None => file
  | Some t => Some (match file with Some old => old +:+ t | None => t end)
  end.

(** ** The daemon supervisor: class [Ptd] *)

Module Ptd.

(** The attributes of a [Ptd] object. A process, socket or protocol
    handle is a number; [None] is Python's [None]. *)
Record t : Type := {
  _process : option nat;
  _socket : option nat;
  _proto : option nat;
  _command : string;
  _port : Z;
  _init_Amps : option string;
  _init_Volts : option string;
}.

(** [Ptd.__init__], lines 158-165. *)
Definition __init__ (command : string) (port : Z) : t :=
  {| _process := None; _socket := None; _proto := None;
     _command := command; _port := port;
     _init_Amps := None; _init_Volts := None |}.

Definition set_process (x : option nat) (p : t) : t :=
  {| _process := x; _socket := _socket p; _proto := _proto p;
     _command := _command p; _port := _port p;
     _init_Amps := _init_Amps p; _init_Volts := _init_Volts p |}.
Definition set_socket (x : option nat) (p : t) : t :=
  {| _process := _process p; _socket := x; _proto := _proto p;
     _command := _command p; _port := _port p;
     _init_Amps := _init_Amps p; _init_Volts := _init_Volts p |}.
Definition set_proto (x : option nat) (p : t) : t :=
  {| _process := _process p; _socket := _socket p; _proto := x;
     _command := _command p; _port := _port p;
     _init_Amps := _init_Amps p; _init_Volts := _init_Volts p |}.
Definition set_init_Amps (x : option string) (p : t) : t :=
  {| _process := _process p; _socket := _socket p; _proto := _proto p;
     _command := _command p; _port := _port p;
     _init_Amps := x; _init_Volts := _init_Volts p |}.
Definition set_init_Volts (x : option string) (p : t) : t :=
  {| _process := _process p; _socket := _socket p; _proto := _proto p;
     _command := _command p; _port := _port p;
     _init_Amps := _init_Amps p; _init_Volts := x |}.

(** The methods run on the object and the world. *)
Definition State : Type := t * World.

Definition self : M State t := fun s => (Ret (fst s), s).
Definition update (f : t -> t) : M State unit := modify (fun s => (f (fst s), snd s)).
Definition world : State -> World := snd.
Definition set_world (w : World) (s : State) : State := (fst s, w).
Definition event (e : Event) : M State unit := emit world set_world e.

(** A handle nothing else holds. *)
Definition fresh : M State nat := fun s => (Ret (length (events (snd s))), s).

(** [self._proto.recv()]: the daemon's next answer; the log file has
    grown by what the daemon wrote meanwhile. *)
Definition recv : M State (option string) :=
  do w <- read_world world;
  match daemon w with
  | [] => do_ event (FromDaemon None); ret None
  | x :: rest =>
      do_ with_world world set_world
            (fun w => set_logfile (append_log (logged x) (logfile w)) (set_daemon rest w));
      do_ event (FromDaemon (reply x));
      ret (reply x)
  end.

(** [Ptd.cmd], lines 244-251. *)
Definition cmd (line : string) : M State (option string) :=
  do p <- self;
  match _proto p with
  | None => ret None
  | Some _ =>
      do_ event (ToDaemon line);
      do answer <- recv;
      ret answer
  end.

(** [self._process.wait(timeout=10)]: does it time out. *)
Definition wait10 : M State bool :=
  do w <- read_world world;
  let timed_out := match waits w with [] => false | b :: _ => b end in
  do_ with_world world set_world (fun w => set_waits (tl (waits w)) w);
  do_ event (Wait timed_out);
  ret timed_out.

(** [Ptd.stop], lines 217-239, in its three parts: the control
    connection (lines 218-225), the socket (lines 227-229) and the process
    (lines 231-239). *)
Definition restore_and_disconnect : M State unit :=
  do p <- self;
  match _proto p with
  | Some _ =>
      do_ cmd "Stop";
      do_ cmd ("SR,V," +:+ str_opt (_init_Volts p));
      do_ cmd ("SR,A," +:+ str_opt (_init_Amps p));
      update (set_proto None)
  | None => ret tt
  end.

Definition close_socket : M State unit :=
  do p <- self;
  match _socket p with
  | Some _ => do_ event SocketClose; update (set_socket None)
  | None => ret tt
  end.

Definition terminate_process : M State unit :=
  do p <- self;
  match _process p with
  | Some _ =>
      do_ event Terminate;
      do timed_out <- wait10;
      do_ (if timed_out then do_ event Kill; event WaitForever else ret tt);
      update (set_process None)
  | None => ret tt
  end.

Definition stop : M State unit :=
  do_ restore_and_disconnect;
  do_ close_socket;
  terminate_process.

(** [Ptd.running], lines 241-242. *)
Definition running (p : t) : bool :=
  match _process p with Some _ => true | None => false end.

(** [get_range_from_ranges_list], lines 264-274: [response_list[i]] raises
    [IndexError] past the end of the list; only [ValueError] is caught. *)
Definition item (l : list string) (i : nat) : Outcome string :=
  match l !! i with
  | Some x => Ret x
  | None => Raise IndexError
  end.

Definition get_range_from_ranges_list (response_list : list string) (param_num : nat)
    : Outcome string :=
  try flag <- item response_list param_num;
  if String.eqb flag "0" then
    try value <- item response_list (param_num + 1);
    match PyFloat.float value with
    | Ret x =>
        if PyFloat.gt_zero x then item response_list (param_num + 1)
        else Ret "Auto"
    | Raise ValueError => Ret "Auto"
    | Raise e => Raise e
    end
  else Ret "Auto".

(** [Ptd._get_initial_range], lines 253-280. *)
Definition _get_initial_range : M State unit :=
  do response <- cmd "RR";
  match response with
  | None | Some EmptyString => raise (SystemExit (Some 1))
  | Some response =>
      let response_list := split is_comma response in
      do amps <- lift (get_range_from_ranges_list response_list 1);
      do_ update (set_init_Amps (Some amps));
      do volts <- lift (get_range_from_ranges_list response_list 3);
      update (set_init_Volts (Some volts))
  end.

(** The retry loop of [start], lines 187-198. *)
Definition connect : M State ConnectResult :=
  do w <- read_world world;
  let r := match connects w with [] => Refused false | r :: _ => r end in
  do_ with_world world set_world (fun w => set_connects (tl (connects w)) w);
  do p <- self;
  do_ event (Connect (_port p) (match r with Connected => true | Refused _ => false end));
  ret r.

Fixpoint connect_loop (retries : nat) : M State (option nat) :=
  match retries with
  | O => ret None
  | S retries' =>
      do s <- fresh;
      do r <- connect;
      match r with
      | Connected => ret (Some s)
      | Refused sig_stopped =>
          if sig_stopped then raise (SystemExit None)
          else do_ event (Sleep 1); connect_loop retries'
      end
  end.

(** [Ptd.start], lines 167-215. *)
Definition start : M State bool :=
  do p <- self;
  match _process p with
  | Some _ => ret false
  | None =>
      do w <- read_world world;
      do pid <- fresh;
      do_ event (Popen (_command p) (negb (win32 w)));
      do_ update (set_process (Some pid));
      do s <- connect_loop 100;
      match s with
      | None => do_ stop; ret false
      | Some s =>
          do_ update (set_socket (Some s));
          do_ update (set_proto (Some s));
          do hello <- cmd "Hello";
          if is_str hello "Hello, PTDaemon here!" then
            do_ cmd "Identify";
            do_ _get_initial_range;
            ret true
          else ret false
      end
  end.

End Ptd.

(** ** The configuration: class [ServerConfig] *)

(** The options of [ServerConfig] the modelled code reads. The log file
    of the world is the file [ptd_logfile] names. *)
Record ServerConfig : Type := {
  ntp_server : option string;
  out_dir : string;
  ptd_command : string;
  ptd_logfile : string;
  ptd_port : Z;
}.

(** *** [int(text)] *)

Module PyInt.
Import Numeral.

(** [sys.int_max_str_digits] as the interpreter starts with, from
    Python 3.11 on. *)
Definition max_str_digits : nat := 4300.

(** [int(text)] in base ten: blanks around the text are dropped; what is
    left must be an optional sign and digits, where single underscores may
    stand between digits, and no more digits than the interpreter
    converts; [ValueError] otherwise. *)
Definition int (text : string) : Outcome Z :=
  let s := strip numeric_space text in
  if negb (PyFloat.underscores_ok None s) then Raise ValueError
  else
    let '(neg, body) := take_sign (remove (Ascii.eqb "_"%char) s) in
    let '(ds, rest) := span isdigit body in
    match ds, rest with
    | String _ _, EmptyString =>
        if (max_str_digits <? String.length ds)%nat then Raise ValueError
        else Ret (if neg then - Z.of_N (digits_value ds) else Z.of_N (digits_value ds))
    | _, _ => Raise ValueError
    end.

End PyInt.

(** *** Reading the configuration *)

(** [exit_with_error_msg], lines 74-76: the message is logged, then
    [exit(1)]. *)
Definition exit_with_error_msg {A} : Outcome A := Raise (SystemExit (Some 1)).

Definition is_space (c : ascii) : bool := Ascii.eqb c " "%char.

Section Listen.

(** [ipaddress.ip_address(host)] returns: the text is an IPv4 or IPv6
    address. Otherwise it raises [ValueError]. *)
Variable ip_address : string -> bool.

(** [get_host_port_from_listen_string], lines 79-92. Each of the three
    [ValueError]s is raised again as a [ValueError] with a message of its
    own. *)
Definition get_host_port_from_listen_string (listen_str : string) : Outcome (string * Z) :=
  match split is_space listen_str with
  | [host; port] =>
      if ip_address host then
        match PyInt.int port with
        | Ret int_port => Ret (host, int_port)
        | Raise ValueError => Raise ValueError
        | Raise e => Raise e
        end
      else Raise ValueError
  | _ => Raise ValueError
  end.

End Listen.

Module ServerConfig.

(** The attributes [host] and [port] of a [ServerConfig] object, which
    the listener reads. *)
Record Listen : Type := {
  host : string;
  port : Z;
}.

(** A section of the configuration file as [ConfigParser.read_file]
    leaves it: the options it holds, those of the default section
    included, by lower-cased name, each with its value as the file
    writes it. *)
Definition Section_ : Type := gmap string string.

(** [serv_conf[key]] and [serv_conf.get(key)]: the name is lower-cased
    before the lookup. The parser interpolates a value when it is read:
    a value without percent sign comes back as it is, which is the case
    modelled here; one with a percent sign is expanded or refused with
    an error of the parser, and is outside this model. The properties of
    the configuration are stated for sections whose known options hold
    no percent sign ([plain_options]). *)
Definition getitem (serv_conf : Section_) (key : string) : Outcome string :=
  match serv_conf !! lower_str key with
  | Some v => Ret v
  | None => Raise (KeyError key)
  end.

Definition get (serv_conf : Section_) (key : string) : option string :=
  serv_conf !! lower_str key.

Section Init.

Variable ip_address : string -> bool.

(** [lib.DEFAULT_IP_ADDR] and [lib.DEFAULT_PORT], of the [lib] module. *)
Variable DEFAULT_IP_ADDR : string.
Variable DEFAULT_PORT : Z.

(** The four options that must be there, lines 119-125. *)
Definition required (serv_conf : Section_) : Outcome (string * string * string * string) :=
  match
    (try ptd_port <- getitem serv_conf "ptdPort";
     try ptd_logfile <- getitem serv_conf "ptdLogfile";
     try out_dir <- getitem serv_conf "outDir";
     try ptd_command <- getitem serv_conf "ptdCommand";
     Ret (ptd_port, ptd_logfile, out_dir, ptd_command))
  with
  | Raise (KeyError _) => exit_with_error_msg
  | r => r
  end.

(** The [listen] option, lines 127-137. *)
Definition listen (serv_conf : Section_) : Outcome Listen :=
  match getitem serv_conf "listen" with
  | Ret listen_str =>
      match get_host_port_from_listen_string ip_address listen_str with
      | Ret (h, p) => Ret {| host := h; port := p |}
      | Raise ValueError => exit_with_error_msg
      | Raise e => Raise e
      end
  | Raise (KeyError _) => Ret {| host := DEFAULT_IP_ADDR; port := DEFAULT_PORT |}
  | Raise e => Raise e
  end.

(** [ServerConfig.__init__], lines 96-154, from the parsed file on:
    [conf] holds the sections of the file by name. The warnings about
    unknown options and sections are logged only. *)
Definition __init__ (conf : gmap string Section_) : Outcome (ServerConfig * Listen) :=
  match conf !! "server" with
  | None => exit_with_error_msg
  | Some serv_conf =>
      let ntp_server := get serv_conf "ntpServer" in
      try options <- required serv_conf;
      let '(ptd_port, ptd_logfile, out_dir, ptd_command) := options in
      try l <- listen serv_conf;
      match PyInt.int ptd_port with
      | Ret n =>
          Ret ({| ntp_server := ntp_server; out_dir := out_dir;
                  ptd_command := ptd_command; ptd_logfile := ptd_logfile;
                  ptd_port := n |}, l)
      | Raise ValueError => exit_with_error_msg
      | Raise e => Raise e
      end
  end.

End Init.

End ServerConfig.

(** ** The session controller: class [Server] *)

Module Server.

(** The attributes of a [Server] object. [_last_log] is [None] while the
    attribute does not exist: [__init__] does not create it. *)
Record t : Type := {
  _ptd : Ptd.t;
  _mode : option string;
  _mark : option string;
  _ranging_table : gmap string (string * string);
  _last_log : option string;
  _config : ServerConfig;
}.

(** [Server.__init__], lines 284-289. *)
Definition __init__ (config : ServerConfig) : t :=
  {| _ptd := Ptd.__init__ (ptd_command config) (ptd_port config);
     _mode := None; _mark := None; _ranging_table := ∅;
     _last_log := None; _config := config |}.

Definition set_ptd (x : Ptd.t) (s : t) : t :=
  {| _ptd := x; _mode := _mode s; _mark := _mark s;
     _ranging_table := _ranging_table s; _last_log := _last_log s;
     _config := _config s |}.
Definition set_mode (x : option string) (s : t) : t :=
  {| _ptd := _ptd s; _mode := x; _mark := _mark s;
     _ranging_table := _ranging_table s; _last_log := _last_log s;
     _config := _config s |}.
Definition set_mark (x : option string) (s : t) : t :=
  {| _ptd := _ptd s; _mode := _mode s; _mark := x;
     _ranging_table := _ranging_table s; _last_log := _last_log s;
     _config := _config s |}.
Definition set_ranging_table (x : gmap string (string * string)) (s : t) : t :=
  {| _ptd := _ptd s; _mode := _mode s; _mark := _mark s;
     _ranging_table := x; _last_log := _last_log s;
     _config := _config s |}.
Definition set_last_log (x : option string) (s : t) : t :=
  {| _ptd := _ptd s; _mode := _mode s; _mark := _mark s;
     _ranging_table := _ranging_table s; _last_log := x;
     _config := _config s |}.

Definition State : Type := t * World.

Definition self : M State t := fun s => (Ret (fst s), s).
Definition update (f : t -> t) : M State unit := modify (fun s => (f (fst s), snd s)).
Definition world : State -> World := snd.
Definition set_world (w : World) (s : State) : State := (fst s, w).
Definition event (e : Event) : M State unit := emit world set_world e.

(** A method of [self._ptd], run on the server's state. *)
Definition on_ptd {A} (c : M Ptd.State A) : M State A :=
  fun s =>
    let '(r, (p, w)) := c (_ptd (fst s), snd s) in
    (r, (set_ptd p (fst s), w)).

(** [Server.close], lines 291-292. *)
Definition close : M State unit := on_ptd Ptd.stop.

(** [Server._set_range], lines 330-335. *)
Definition _set_range (volts_value amps_value : string) : M State unit :=
  do_ on_ptd (Ptd.cmd ("SR,V," +:+ volts_value));
  do_ on_ptd (Ptd.cmd ("SR,A," +:+ amps_value));
  event (Sleep 100).

(** [str(time.time())] and [datetime.now().strftime(...)]. *)
Definition time_now : M State string :=
  do w <- read_world world;
  do_ with_world world set_world (fun w => set_clock (tl (clock w)) w);
  ret (hd "0.0" (clock w)).

Definition timestamp_now : M State string :=
  do w <- read_world world;
  do_ with_world world set_world (fun w => set_stamps (tl (stamps w)) w);
  ret (hd "1970-01-01_00-00-00" (stamps w)).

(** The archive transfer of [push-log], lines 391-399: the archive is
    removed whatever happens, and a failure is raised after that. *)
Definition receive_archive (dir name : string) : M State unit :=
  do w <- read_world world;
  let outcome := hd UploadOk (uploads w) in
  do_ with_world world set_world (fun w => set_uploads (tl (uploads w)) w);
  do_ event (RecvFile dir name);
  match outcome with
  | RecvFails e => do_ event (RemoveArchive dir name); raise e
  | ExtractFails e =>
      do_ event (Extract dir name); do_ event (RemoveArchive dir name); raise e
  | UploadOk =>
      do_ event (Extract dir name); event (RemoveArchive dir name)
  end.

Section Commands.

(** [lib.check_label], of the [lib] module. *)
Variable check_label : string -> bool.

(** [Server._handle_cmd], lines 337-402. *)
Definition _handle_cmd (cmd : string) : M State string :=
  let cmd := split is_comma cmd in
  let cmd0 := hd EmptyString cmd in
  let cmd1 := nth 1 cmd EmptyString in
  let two := (length cmd =? 2)%nat in
  if (length cmd =? 0)%nat then ret "..."
  else if String.eqb cmd0 "hello" then ret "Hello from server!"
  else if String.eqb cmd0 "time" then time_now
  else if String.eqb cmd0 "init" then
    do s <- self;
    do_ event (NtpSync (ntp_server (_config s)));
    do started <- on_ptd Ptd.start;
    if negb started then ret "Error" else ret "OK"
  else if String.eqb cmd0 "start-ranging" && two then
    do_ _set_range "Auto" "Auto";
    do_ on_ptd (Ptd.cmd ("Go,1000,0,ranging-" +:+ cmd1));
    do_ update (set_mode (Some "ranging"));
    do_ update (set_mark (Some cmd1));
    ret "OK"
  else if String.eqb cmd0 "start-testing" && two then
    do s <- self;
    match _ranging_table s !! cmd1 with
    | None => raise (KeyError cmd1)
    | Some (maxVolts, maxAmps) =>
        do_ _set_range maxVolts maxAmps;
        do_ on_ptd (Ptd.cmd ("Go,1000,0,testing-" +:+ cmd1));
        do_ update (set_mode (Some "testing"));
        do_ update (set_mark (Some cmd1));
        ret "OK"
    end
  else if String.eqb cmd0 "stop" then
    do s <- self;
    match _mark s with
    | None => ret "Error"
    | Some mark =>
        do_ on_ptd (Ptd.cmd "Stop");
        do_ (if is_str (_mode s) "ranging" then
               do w <- read_world world;
               do item <- lift (max_volts_amps (logfile w) ("ranging-" +:+ mark));
               update (fun s => set_ranging_table (<[mark := item]> (_ranging_table s)) s)
             else ret tt);
        do w <- read_world world;
        do text <- lift (read_log (logfile w) (str_opt (_mode s) +:+ "-" +:+ mark));
        do_ update (set_last_log (Some text));
        do_ update (set_mode None);
        do_ update (set_mark None);
        ret "OK"
    end
  else if String.eqb cmd0 "get-last-log" then
    do s <- self;
    match _last_log s with
    | None => raise (AttributeError "_last_log")
    | Some text => ret ("base64 " +:+ Base64.b64encode (Base64.encode text))
    end
  else if String.eqb cmd0 "get-log" then
    do w <- read_world world;
    match logfile w with
    | None => raise FileNotFoundError
    | Some data => ret ("base64 " +:+ Base64.b64encode data)
    end
  else if String.eqb cmd0 "push-log" && two then
    let label := cmd1 in
    if negb (check_label label) then ret "Error: invalid label"
    else
      do s <- self;
      do timestamp <- timestamp_now;
      do_ receive_archive (out_dir (_config s)) (timestamp +:+ "_" +:+ label);
      ret "OK"
  else ret "Error: unknown command".

(** The body of the loop of [handle_connection] for one command, lines
    312-326: what is sent to the client, or the loop is left. *)
Inductive Turn : Type :=
| Replied (reply : string)
| Break.

Definition turn (cmd : string) : M State Turn :=
  fun s =>
    match _handle_cmd cmd s with
    | (Ret reply, s') => (do_ event (ToClient reply); ret (Replied reply)) s'
    | (Raise KeyboardInterrupt, s') => (Ret Break, s')
    | (Raise e, s') =>
        if is_Exception e then
          (do_ event (ToClient "Error: exception"); ret (Replied "Error: exception")) s'
        else (Raise e, s')
    end.

(** The loop: [incoming] is what the client sends before it closes the
    connection, at which [p.recv()] returns [None]. *)
Fixpoint command_loop (incoming : list string) : M State unit :=
  match incoming with
  | [] => ret tt
  | cmd :: rest =>
      do t <- turn cmd;
      match t with
      | Replied _ => command_loop rest
      | Break => ret tt
      end
  end.

(** What [handle_connection] does before the loop, lines 295-300. *)
Definition reset_session : M State unit :=
  do_ update (set_ranging_table ∅);
  do_ update (set_mode None);
  do_ update (set_mark None);
  do w <- read_world world;
  match logfile w with
  | Some _ =>
      do_ event RemoveLog;
      with_world world set_world (set_logfile None)
  | None => ret tt
  end.

(** [Server.handle_connection], lines 294-328. *)
Definition handle_connection (incoming : list string) : M State unit :=
  do_ reset_session;
  finally (command_loop incoming) (on_ptd Ptd.stop).

(** Modelled from the spec: [lib.run_server], the listener of the [lib]
    module, which invokes the session handler once per accepted
    connection, one connection after the other. *)
Fixpoint run_server (connections : list (list string)) : M State unit :=
  match connections with
  | [] => ret tt
  | incoming :: rest => do_ handle_connection incoming; run_server rest
  end.

(** The end of the script, lines 427-433: the server is built, serves, and
    is closed whatever ended the serving; a [KeyboardInterrupt] is
    passed over. *)
Definition serve (connections : list (list string)) : M State unit :=
  fun s =>
    match run_server connections s with
    | (Raise KeyboardInterrupt, s') => (Ret tt, s')
    | r => r
    end.

Definition main (config : ServerConfig) (connections : list (list string)) (w : World)
    : Outcome unit * State :=
  finally (serve connections) close (__init__ config, w).

End Commands.

End Server.

(** ** Vocabulary of the properties *)

(** Every character of [s] satisfies [p]. *)
Fixpoint all_chars (p : ascii -> bool) (s : string) : bool :=
  match s with
  | EmptyString => true
  | String c s' => p c && all_chars p s'
  end.

(** The record grammar of the daemon's log, stated on the text itself:
    [Time,<ts>,Watts,<w>,Volts,<v>,Amps,<a>,<rest>,Mark,<m>], where no
    field but [rest] holds a comma and [rest] holds no line feed. *)
Definition is_ptd_record (s v a m : string) : Prop :=
  exists ts w rest,
    s = "Time," +:+ ts +:+ "," +:+ "Watts," +:+ w +:+ "," +:+ "Volts," +:+ v +:+ ","
        +:+ "Amps," +:+ a +:+ "," +:+ rest +:+ "," +:+ "Mark," +:+ m
    /\ all_chars Re.not_comma ts = true
    /\ all_chars Re.not_comma w = true
    /\ all_chars Re.not_comma v = true
    /\ all_chars Re.not_comma a = true
    /\ all_chars Re.dot rest = true
    /\ all_chars Re.not_comma m = true.

(** The pattern [r] matches the text [s] wherever it starts. *)
Definition Accepts (r : Re.pattern) (s : string) : Prop :=
  forall pos, exists m, Re.exec r pos s = Some m.

(** The lines of a log as text-mode reading yields them. *)
Definition log_lines (content : string) : list string :=
  readlines (universal_newlines content).

(** A line, as read, is a record of marker [mark] with these two fields:
    its text without the terminator follows the grammar and its Mark
    field is [mark]. *)
Definition record_line (mark line v a : string) : Prop :=
  is_ptd_record (rstrip is_CR_or_LF line) v a mark.

(** A line of the log is a record of marker [mark] with voltage field [v]
    and current field [a]: its text without the line terminator follows
    the grammar, and its Mark field is [mark]. *)
Definition record_of (content mark line v a : string) : Prop :=
  In line (log_lines content) /\ is_ptd_record (rstrip is_CR_or_LF line) v a mark.

(** [sel] is [lines] without the lines that do not satisfy [P], in the
    same order. *)
Inductive Selects (P : string -> Prop) : list string -> list string -> Prop :=
| Selects_nil : Selects P [] []
| Selects_keep l ls sel : P l -> Selects P ls sel -> Selects P (l :: ls) (l :: sel)
| Selects_skip l ls sel : ~ P l -> Selects P ls sel -> Selects P (l :: ls) sel.

(** A decimal that is a number, and the order of numbers. *)
Definition is_number (d : PyDecimal.t) : Prop := d <> PyDecimal.NaN.
Definition Dle (a b : PyDecimal.t) : Prop := PyDecimal.le a b = Ret true.
Definition Dpos (a : PyDecimal.t) : Prop := PyDecimal.le a PyDecimal.zero = Ret false.

(** [text] is the decimal numeral of the number [d]. *)
Definition numeral_of (text : string) (d : PyDecimal.t) : Prop :=
  PyDecimal.Decimal text = Ret d /\ is_number d.

(** Every record of marker [mark] in the log carries two numerals. *)
Definition well_formed (content mark : string) : Prop :=
  forall line v a, record_of content mark line v a ->
    (exists d, numeral_of v d) /\ (exists d, numeral_of a d).

(** Three small logs: two records of marker [m] with voltages 9.09 and
    9.10, the second line ended by CR LF; one record whose voltage is
    zero; and one record ended by CR LF. *)
Definition log_two_records : string :=
  "Time,t0,Watts,4.5,Volts,9.09,Amps,0.5,PF,1,Mark,m" +:+ String LF
  ("Time,t1,Watts,2.2,Volts,9.10,Amps,0.25,PF,1,Mark,m" +:+ String CR (String LF
  ("Time,t2,Watts,9.9,Volts,99,Amps,9,PF,1,Mark,other" +:+ String LF ""))).

Definition log_zero_volts : string :=
  "Time,t0,Watts,0,Volts,0.0,Amps,1.5,PF,1,Mark,m" +:+ String LF "".

Definition log_crlf : string :=
  "Time,t0,Watts,1,Volts,1,Amps,1,PF,1,Mark,m" +:+ String CR (String LF "").

(** The daemon's answer to the next line sent to it, and the world after
    one line has been sent and answered. *)
Definition next_reply (w : World) : option string :=
  match daemon w with
  | [] => None
  | x :: _ => reply x
  end.

(** The daemon's answer to the [i]-th coming line, counted from 0; [None]
    when the connection is closed by then. *)
Definition reply_at (i : nat) (w : World) : option string :=
  match daemon w !! i with
  | Some x => reply x
  | None => None
  end.

Definition exchange (line : string) (w : World) : World :=
  match daemon w with
  | [] => set_events (events w ++ [ToDaemon line; FromDaemon None]) w
  | x :: rest =>
      set_events (events w ++ [ToDaemon line; FromDaemon (reply x)])
        (set_logfile (append_log (logged x) (logfile w)) (set_daemon rest w))
  end.

(** Of the coming answers to [connect()], one of the first [n] makes the
    connection, and [lib.sig.stopped] is not set at a refusal before it. A
    script that has run out refuses. *)
Fixpoint connects_within (n : nat) (cs : list ConnectResult) : bool :=
  match n, cs with
  | S n', Connected :: _ => true
  | S n', Refused false :: cs' => connects_within n' cs'
  | _, _ => false
  end.

(** The first [n] coming answers to [connect()] are refusals at which
    [lib.sig.stopped] is not set. *)
Fixpoint all_refused (n : nat) (cs : list ConnectResult) : bool :=
  match n, cs with
  | O, _ => true
  | S _, [] => true
  | S n', Refused false :: cs' => all_refused n' cs'
  | S _, _ => false
  end.

(** The state in which [start] enters its retry loop. *)
Definition launching (p : Ptd.t) (w : World) : Ptd.State :=
  (Ptd.set_process (Some (length (events w))) p,
   set_events (events w ++ [Popen (Ptd._command p) (negb (win32 w))]) w).

(** [float(text) > 0], false when [text] is no literal. *)
Definition positive (text : string) : bool :=
  match PyFloat.float text with
  | Ret x => PyFloat.gt_zero x
  | Raise _ => false
  end.

(** The first field of a command is [name]: [cmd[0] == name]. *)
Definition is_command (name cmd : string) : Prop :=
  hd EmptyString (split is_comma cmd) = name.

(** Two states of the server that differ in the supervisor at most. *)
Definition same_session (a b : Server.t) : Prop :=
  Server._mode b = Server._mode a /\ Server._mark b = Server._mark a
  /\ Server._ranging_table b = Server._ranging_table a
  /\ Server._last_log b = Server._last_log a
  /\ Server._config b = Server._config a.

(** The commands served from a state on, each with its reply, and the
    state reached. *)
Inductive steps (check_label : string -> bool) (st0 : Server.State)
    : list (string * string) -> Server.State -> Prop :=
| steps_nil : steps check_label st0 [] st0
| steps_snoc hist st cmd reply st' :
    steps check_label st0 hist st ->
    Server.turn check_label cmd st = (Ret (Server.Replied reply), st') ->
    steps check_label st0 (hist ++ [(cmd, reply)]) st'.

(** The states of a server in its life: built by [__init__], then
    connections begin, commands are served and connections end. The
    history is that of the commands served so far with their replies. *)
Inductive lifetime (check_label : string -> bool) (config : ServerConfig) (w0 : World)
    : list (string * string) -> Server.State -> Prop :=
| life_init : lifetime check_label config w0 [] (Server.__init__ config, w0)
| life_connect hist st :
    lifetime check_label config w0 hist st ->
    lifetime check_label config w0 hist (snd (Server.reset_session st))
| life_turn hist st cmd reply st' :
    lifetime check_label config w0 hist st ->
    Server.turn check_label cmd st = (Ret (Server.Replied reply), st') ->
    lifetime check_label config w0 (hist ++ [(cmd, reply)]) st'
| life_close hist st :
    lifetime check_label config w0 hist st ->
    lifetime check_label config w0 hist (snd (Server.on_ptd Ptd.stop st)).

(** In a history, the marker [X] was ranged: [start-ranging,X] was
    answered [OK], and later a [stop] command was. *)
Definition ranged (hist : list (string * string)) (X : string) : Prop :=
  exists h1 h2 h3 stop_cmd,
    hist = h1 ++ [("start-ranging," +:+ X, "OK")] ++ h2 ++ [(stop_cmd, "OK")] ++ h3
    /\ is_command "stop" stop_cmd.

(** In a history, [start-ranging,X] was answered [OK]. *)
Definition ranging_started (hist : list (string * string)) (X : string) : Prop :=
  exists h1 h2, hist = h1 ++ [("start-ranging," +:+ X, "OK")] ++ h2.

(** What holds of the table, the mode and the marker all along a
    connection. *)
Definition session_invariant (hist : list (string * string)) (srv : Server.t) : Prop :=
  (forall X, is_Some (Server._ranging_table srv !! X) -> ranged hist X)
  /\ (is_str (Server._mode srv) "ranging" = true ->
      exists X, Server._mark srv = Some X /\ ranging_started hist X)
  /\ (Server._mode srv = Some "testing" ->
      exists X, Server._mark srv = Some X /\ is_Some (Server._ranging_table srv !! X)).

(** No [stop] command of the history was answered [OK]. *)
Definition no_stop_served (hist : list (string * string)) : Prop :=
  forall cmd, In (cmd, "OK") hist -> ~ is_command "stop" cmd.

(** The lines sent to the daemon among some events, oldest first. *)
Fixpoint sent_to_daemon (evs : list Event) : list string :=
  match evs with
  | [] => []
  | ToDaemon line :: rest => line :: sent_to_daemon rest
  | _ :: rest => sent_to_daemon rest
  end.

(** The processes launched among some events. *)
Fixpoint launched (evs : list Event) : list string :=
  match evs with
  | [] => []
  | Popen command _ :: rest => command :: launched rest
  | _ :: rest => launched rest
  end.

(** The replies sent to the client among some events, oldest first. *)
Fixpoint sent_to_client (evs : list Event) : list string :=
  match evs with
  | [] => []
  | ToClient line :: rest => line :: sent_to_client rest
  | _ :: rest => sent_to_client rest
  end.

(** Calls of [Ptd.cmd] one after the other, as the session makes them
    between a [start] and a [stop]. *)
Fixpoint cmds (lines : list string) (s : Ptd.State) : Ptd.State :=
  match lines with
  | [] => s
  | line :: rest => cmds rest (snd (Ptd.cmd line s))
  end.

(** A world for the examples: the daemon is reached at the second
    attempt, greets as PTDaemon, identifies itself and answers the range
    query with the given text; nothing else is scripted. *)
Definition said (text : string) : Exchange := {| reply := Some text; logged := None |}.

Definition world_with_ranges (ranges : string) : World :=
  {| connects := [Refused false; Connected];
     daemon := [said "Hello, PTDaemon here!"; said "PTDaemon"; said ranges];
     waits := []; clock := []; stamps := []; uploads := []; win32 := false;
     logfile := None; events := [] |}.

(** A world for a whole session: the daemon is reached at once, answers
    [init], acknowledges the three lines of [start-ranging], and by the
    time it acknowledges [Stop] has logged two records of marker
    [ranging-run1], 3.3 V 1.0 A and 3.5 V 1.2 A, ended by CR LF. *)
Definition ranging_lines : string :=
  "Time,t0,Watts,3.3,Volts,3.3,Amps,1.0,PF,1,Mark,ranging-run1" +:+ String CR (String LF
  ("Time,t1,Watts,4.2,Volts,3.5,Amps,1.2,PF,1,Mark,ranging-run1" +:+ String CR (String LF ""))).

Definition world_session : World :=
  {| connects := [Connected];
     daemon := [said "Hello, PTDaemon here!"; said "PTDaemon"; said "0,0,5.5,0,120.0";
                said "OK"; said "OK"; said "OK";
                {| reply := Some "OK"; logged := Some ranging_lines |}];
     waits := []; clock := []; stamps := []; uploads := []; win32 := false;
     logfile := None; events := [] |}.

Definition example_config : ServerConfig :=
  {| ntp_server := None; out_dir := "out"; ptd_command := "ptd";
     ptd_logfile := "ptd.log"; ptd_port := 8888 |}.

(** No carriage return in a text. *)
Definition no_CR (s : string) : bool := all_chars (fun c => negb (Ascii.eqb c CR)) s.

(** Lines as the iteration over a file yields them: each ends with its
    only line feed, but the last, which may have none and is not empty
    then. *)
Fixpoint file_lines (ls : list string) : Prop :=
  match ls with
  | [] => True
  | l :: rest =>
      ((exists body, all_chars Re.dot body = true /\ l = body +:+ String LF "")
       \/ (all_chars Re.dot l = true /\ l <> "" /\ rest = []))
      /\ file_lines rest
  end.

(** The attempts to connect among some events, and the time slept, in
    tenths of a second. *)
Fixpoint attempts (evs : list Event) : nat :=
  match evs with
  | [] => 0
  | Connect _ _ :: rest => S (attempts rest)
  | _ :: rest => attempts rest
  end.

Fixpoint slept (evs : list Event) : Z :=
  match evs with
  | [] => 0
  | Sleep t :: rest => t + slept rest
  | _ :: rest => slept rest
  end.

(** What [stop] does to the world, by the handles the object holds: the
    three lines to the daemon with its answers, the closing of the socket,
    the end of the process. *)
Definition stop_events (p : Ptd.t) (w : World) : list Event :=
  (match Ptd._proto p with
   | Some _ =>
       [ToDaemon "Stop"; FromDaemon (reply_at 0 w);
        ToDaemon ("SR,V," +:+ str_opt (Ptd._init_Volts p)); FromDaemon (reply_at 1 w);
        ToDaemon ("SR,A," +:+ str_opt (Ptd._init_Amps p)); FromDaemon (reply_at 2 w)]
   | None => []
   end)
  ++ (match Ptd._socket p with Some _ => [SocketClose] | None => [] end)
  ++ (match Ptd._process p with
      | Some _ =>
          match waits w with
          | true :: _ => [Terminate; Wait true; Kill; WaitForever]
          | _ => [Terminate; Wait false]
          end
      | None => []
      end).

(** Of the coming answers to [connect()], one of the first [n] is a
    refusal at which [lib.sig.stopped] is set, after refusals at which it
    is not. *)
Fixpoint stopped_within (n : nat) (cs : list ConnectResult) : bool :=
  match n, cs with
  | S _, Refused true :: _ => true
  | S n', Refused false :: cs' => stopped_within n' cs'
  | _, _ => false
  end.

(** The world after [self._ptd.cmd(line)] of the server, and the lines
    that reach the daemon of those the server means to send: all with a
    control connection, none without. *)
Definition after_line (line : string) (srv : Server.t) (w : World) : World :=
  match Ptd._proto (Server._ptd srv) with
  | Some _ => exchange line w
  | None => w
  end.

Definition daemon_lines (srv : Server.t) (lines : list string) : list string :=
  match Ptd._proto (Server._ptd srv) with
  | Some _ => lines
  | None => []
  end.

(** The session of [world_session] after [init] and [start-ranging,run1]. *)
Definition ranging_run1 (w : World) : Server.State :=
  snd (Server.turn (fun _ => true) "start-ranging,run1"
         (snd (Server.turn (fun _ => true) "init" (Server.__init__ example_config, w)))).

(** A world like [world_session] in which the daemon logs nothing. *)
Definition world_silent : World :=
  set_daemon [said "Hello, PTDaemon here!"; said "PTDaemon"; said "0,0,5.5,0,120.0";
              said "OK"; said "OK"; said "OK"; said "OK"] world_session.

(** The place of a character in an alphabet, the length of the alphabet
    when it has none. *)
Fixpoint place (c : ascii) (alphabet : string) : N :=
  match alphabet with
  | EmptyString => 0
  | String a rest => if Ascii.eqb a c then 0 else N.succ (place c rest)
  end.

(** The numbers below [n], downwards. *)
Fixpoint below (n : nat) : list N :=
  match n with
  | O => []
  | S k => N.of_nat k :: below k
  end.

(** No measurement is under way, or one is, in mode [ranging] or
    [testing], with a marker that holds no comma. *)
Definition measuring (srv : Server.t) : Prop :=
  (Server._mode srv = None /\ Server._mark srv = None)
  \/ exists X, Server._mark srv = Some X /\ all_chars Re.not_comma X = true
               /\ (Server._mode srv = Some "ranging" \/ Server._mode srv = Some "testing").

(** Every entry of the ranging table is a pair of texts of positive
    numbers. *)
Definition positive_ranges (srv : Server.t) : Prop :=
  forall X v a, Server._ranging_table srv !! X = Some (v, a) ->
    exists dv da, v = PyDecimal.str dv /\ a = PyDecimal.str da /\ Dpos dv /\ Dpos da.

(** A log with one record of marker [m], whose voltage is -5 and whose
    current field is no number. *)
Definition log_bad_amps : string :=
  "Time,t0,Watts,1,Volts,-5,Amps,abc,PF,1,Mark,m" +:+ String LF "".

(** A world in which the daemon is reached and answers [Hello] with
    [Goodbye]. *)
Definition world_wrong_greeting : World :=
  set_daemon [said "Goodbye"] (world_with_ranges "").

(** Neither CR nor LF in a text. *)
Definition no_terminator (s : string) : bool :=
  all_chars (fun c => negb (is_CR_or_LF c)) s.

(** The state in which [handle_connection] enters its loop, by the state
    it is called in: the table is empty, there is no mode and no marker,
    and the log file is removed when there was one; the supervisor, the
    configuration and the last-log buffer are those of the call. *)
Definition connection_start (st : Server.State) : Server.State :=
  ({| Server._ptd := Server._ptd (fst st);
      Server._mode := None;
      Server._mark := None;
      Server._ranging_table := ∅;
      Server._last_log := Server._last_log (fst st);
      Server._config := Server._config (fst st) |},
   match logfile (snd st) with
   | Some _ => set_logfile None (set_events (events (snd st) ++ [RemoveLog]) (snd st))
   | None => snd st
   end).

(** A decimal above zero: a finite one with the plus sign and a
    coefficient that is not zero, or the positive infinity. *)
Definition above_zero (d : PyDecimal.t) : Prop :=
  d = PyDecimal.Infinity false
  \/ exists c e, d = PyDecimal.Finite false c e /\ (0 < c)%N.

(** No percent sign in a text: the parser's interpolation leaves it as
    it is. *)
Definition plain (value : string) : bool :=
  all_chars (fun c => negb (Ascii.eqb c "%"%char)) value.

(** The options the server reads from the section [server], when there
    is one, hold no percent sign. *)
Definition plain_options (conf : gmap string ServerConfig.Section_) : Prop :=
  forall serv_conf k v,
    conf !! "server" = Some serv_conf ->
    In k ["ntpserver"; "ptdport"; "ptdlogfile"; "outdir"; "ptdcommand"; "listen"] ->
    serv_conf !! k = Some v -> plain v = true.

(** A world like [world_session] in which the one record the daemon has
    logged by the time it acknowledges [Stop] carries [Inf] as its
    current. *)
Definition world_infinite_amps : World :=
  set_daemon [said "Hello, PTDaemon here!"; said "PTDaemon"; said "0,0,5.5,0,120.0";
              said "OK"; said "OK"; said "OK";
              {| reply := Some "OK";
                 logged := Some ("Time,t0,Watts,1,Volts,3.3,Amps,Inf,PF,1,Mark,ranging-run1"
                                 +:+ String LF "") |}]
    world_session.

(* ===================================================================== *)
(** * Part II: properties                                                 *)
(* ===================================================================== *)

(** ** Strings *)

(** [String.append] is opaque to [simpl]; these are its equations. *)
Lemma append_cons (c : ascii) (a b : string) : String c a +:+ b = String c (a +:+ b).
Proof. reflexivity. Qed.

Lemma append_nil_l (b : string) : "" +:+ b = b.
Proof. reflexivity. Qed.

Ltac sapp := rewrite ?append_cons, ?append_nil_l in *.

Lemma append_nil_r (s : string) : s +:+ "" = s.
Proof. induction s as [|c s IH]; sapp; [reflexivity | f_equal; exact IH]. Qed.

Lemma append_assoc (a b c : string) : (a +:+ b) +:+ c = a +:+ (b +:+ c).
Proof. induction a as [|x a IH]; sapp; [reflexivity | f_equal; exact IH]. Qed.

Lemma append_inv_head (p x y : string) : p +:+ x = p +:+ y -> x = y.
Proof. induction p as [|c p IH]; sapp; intros H; [exact H | injection H; auto]. Qed.

Lemma append_length (a b : string) :
  String.length (a +:+ b) = (String.length a + String.length b)%nat.
Proof. induction a as [|x a IH]; sapp; simpl; [reflexivity | now rewrite IH]. Qed.

Lemma strip_prefix_spec (p s r : string) : strip_prefix p s = Some r <-> s = p +:+ r.
Proof.
  revert s. induction p as [|c p IH]; intros s; sapp; simpl.
  - split; [intros [= ->] | intros ->]; reflexivity.
  - destruct s as [|d s].
    + split; discriminate.
    + destruct (Ascii.eqb_spec c d) as [->|Hne].
      * rewrite IH. split; [intros -> | intros [= ->]]; reflexivity.
      * split; [discriminate | intros [= E _]; congruence].
Qed.

Lemma all_chars_app (p : ascii -> bool) (a b : string) :
  all_chars p (a +:+ b) = all_chars p a && all_chars p b.
Proof.
  induction a as [|c a IH]; sapp; simpl; [reflexivity|].
  rewrite IH. now rewrite andb_assoc.
Qed.

(** A field without comma ends at the first comma of the text. *)
Lemma first_comma_unique (a a' x x' : string) :
  all_chars Re.not_comma a = true -> all_chars Re.not_comma a' = true ->
  a +:+ "," +:+ x = a' +:+ "," +:+ x' -> a = a' /\ x = x'.
Proof.
  revert a'. induction a as [|c a IH]; intros [|c' a'] Ha Ha' E; sapp; simpl in *.
  - injection E; auto.
  - injection E as <- _. discriminate.
  - injection E as -> _. discriminate.
  - injection E as -> E.
    apply andb_prop in Ha as [_ Ha]. apply andb_prop in Ha' as [_ Ha'].
    destruct (IH a' Ha Ha' E) as [-> ->]. auto.
Qed.

(** A field without comma that ends the text starts after the last
    comma. *)
Lemma last_comma_unique (x x' m m' : string) :
  all_chars Re.not_comma m = true -> all_chars Re.not_comma m' = true ->
  x +:+ "," +:+ m = x' +:+ "," +:+ m' -> x = x' /\ m = m'.
Proof.
  intros Hm Hm'. revert x'. induction x as [|c x IH]; intros [|c' x'] E; sapp; simpl in *.
  - injection E; auto.
  - injection E as <- E. subst m. rewrite all_chars_app in Hm. simpl in Hm.
    apply andb_prop in Hm as [_ Hm]. discriminate.
  - injection E as -> E. subst m'. rewrite all_chars_app in Hm'. simpl in Hm'.
    apply andb_prop in Hm' as [_ Hm']. discriminate.
  - injection E as -> E. destruct (IH x' E) as [-> ->]. auto.
Qed.

(** ** The matcher *)

(** What a greedy repetition returns is a cut of the text: a run of the
    class, then a rest on which the remaining pattern succeeds. *)
Lemma greedy_sound cls k (s : string) : forall pos g m,
  Re.greedy cls k pos s = Some (g, m) ->
  exists rest, s = g +:+ rest /\ all_chars cls g = true
               /\ k (pos + String.length g)%nat rest = Some m.
Proof.
  assert (Hstop : forall pos s g m,
    match k pos s with Some m => Some (EmptyString, m) | None => None end = Some (g, m) ->
    exists rest, s = g +:+ rest /\ all_chars cls g = true
                 /\ k (pos + String.length g)%nat rest = Some m).
  { intros pos s0 g m H. destruct (k pos s0) as [m0|] eqn:E; [|discriminate].
    injection H as <- <-. exists s0. simpl. rewrite Nat.add_0_r. auto. }
  induction s as [|c s IH]; intros pos g m H; simpl in H.
  - now apply Hstop.
  - destruct (cls c) eqn:Hc; [|now apply Hstop].
    destruct (Re.greedy cls k (S pos) s) as [[g' m']|] eqn:E; [|now apply Hstop].
    injection H as <- <-.
    destruct (IH _ _ _ E) as (rest & -> & Hall & Hk).
    exists rest. sapp. simpl. rewrite Hc, Hall.
    rewrite Nat.add_succ_r. auto.
Qed.

(** If some cut of the text lets the remaining pattern succeed, the
    greedy repetition finds one. *)
Lemma greedy_complete cls k (g : string) : forall pos rest m,
  all_chars cls g = true -> k (pos + String.length g)%nat rest = Some m ->
  exists g' m', Re.greedy cls k pos (g +:+ rest) = Some (g', m').
Proof.
  induction g as [|c g IH]; intros pos rest m Hall Hk; sapp; simpl in *.
  - rewrite Nat.add_0_r in Hk.
    destruct rest as [|c r]; simpl; rewrite Hk.
    + eauto.
    + destruct (cls c); [|eauto].
      destruct (Re.greedy cls k (S pos) r) as [[g' m']|]; eauto.
  - apply andb_prop in Hall as [Hc Hall]. rewrite Hc.
    rewrite Nat.add_succ_r in Hk.
    destruct (IH (S pos) rest m Hall Hk) as (g' & m' & ->). eauto.
Qed.

Lemma greedy_cons cls k pos (c : ascii) (s : string) :
  Re.greedy cls k pos (String c s) =
  let stop := match k pos (String c s) with Some m => Some (EmptyString, m) | None => None end in
  if cls c then
    match Re.greedy cls k (S pos) s with
    | Some (g, m) => Some (String c g, m)
    | None => stop
    end
  else stop.
Proof. reflexivity. Qed.

Lemma exec_Eol pos (s : string) :
  Re.exec [Re.Eol] pos s = if Re.at_end s then Some [] else None.
Proof. reflexivity. Qed.

(** Before the end of the text, a repetition of [[^,]] takes all that is
    left: a line feed that ends the text is part of the run. *)
Lemma greedy_to_end (s : string) : forall pos g m,
  Re.greedy Re.not_comma (Re.exec [Re.Eol]) pos s = Some (g, m) ->
  g = s /\ m = [] /\ all_chars Re.not_comma s = true.
Proof.
  induction s as [|c s IH]; intros pos g m H.
  - cbn in H. inversion H; subst; auto.
  - rewrite greedy_cons in H. cbv zeta in H. rewrite exec_Eol in H.
    destruct (Re.not_comma c) eqn:Hc.
    + destruct (Re.greedy Re.not_comma (Re.exec [Re.Eol]) (S pos) s) as [[g' m']|] eqn:E.
      * inversion H; subst. destruct (IH _ _ _ E) as (-> & -> & Hall).
        simpl. rewrite Hc, Hall. auto.
      * exfalso. destruct s as [|d s]; [cbn in E; discriminate|].
        cbn in H. discriminate.
    + exfalso. destruct s as [|d s]; [|cbn in H; discriminate].
      cbn [Re.at_end] in H.
      unfold Re.not_comma, is_comma, is_LF in *.
      destruct (Ascii.eqb_spec c LF) as [->|]; [|discriminate]. discriminate.
Qed.

Lemma greedy_to_end_complete (s : string) : forall pos,
  all_chars Re.not_comma s = true ->
  Re.greedy Re.not_comma (Re.exec [Re.Eol]) pos s = Some (s, []).
Proof.
  induction s as [|c s IH]; intros pos Hall; simpl in *; [reflexivity|].
  apply andb_prop in Hall as [Hc Hall]. rewrite Hc, (IH _ Hall). reflexivity.
Qed.

Lemma accepts_lit r (l s : string) : Accepts r s -> Accepts (Re.Lit l :: r) (l +:+ s).
Proof.
  intros H pos. cbn [Re.exec].
  assert (E : strip_prefix l (l +:+ s) = Some s) by now apply strip_prefix_spec.
  rewrite E. apply H.
Qed.

Lemma accepts_star r cls (g rest : string) :
  all_chars cls g = true -> Accepts r rest -> Accepts (Re.Star cls :: r) (g +:+ rest).
Proof.
  intros Hall H pos. cbn [Re.exec].
  destruct (H (pos + String.length g)%nat) as [m Hm].
  destruct (greedy_complete cls (Re.exec r) g pos rest m Hall Hm) as (g' & m' & ->).
  eauto.
Qed.

Lemma accepts_group r name cls (g rest : string) :
  all_chars cls g = true -> Accepts r rest -> Accepts (Re.Group name cls :: r) (g +:+ rest).
Proof.
  intros Hall H pos. cbn [Re.exec].
  destruct (H (pos + String.length g)%nat) as [m Hm].
  destruct (greedy_complete cls (Re.exec r) g pos rest m Hall Hm) as (g' & m' & ->).
  eauto.
Qed.

Lemma accepts_last_group name (m : string) :
  all_chars Re.not_comma m = true -> Accepts [Re.Group name Re.not_comma; Re.Eol] m.
Proof.
  intros Hall pos. exists [(name, m)].
  change (Re.exec [Re.Group name Re.not_comma; Re.Eol] pos m)
    with (match Re.greedy Re.not_comma (Re.exec [Re.Eol]) pos m with
          | Some (g, c) => Some ((name, g) :: c)
          | None => None
          end).
  now rewrite (greedy_to_end_complete m pos Hall).
Qed.

(** ** [RE_PTD_LOG] and the record grammar *)

(** A text has at most one reading as a record. *)
Lemma is_ptd_record_unique (s v a m v' a' m' : string) :
  is_ptd_record s v a m -> is_ptd_record s v' a' m' -> v = v' /\ a = a' /\ m = m'.
Proof.
  intros (ts & w & rest & -> & Hts & Hw & Hv & Ha & _ & Hm)
         (ts' & w' & rest' & E & Hts' & Hw' & Hv' & Ha' & _ & Hm').
  apply append_inv_head in E.
  apply first_comma_unique in E as [-> E]; [|assumption..].
  apply append_inv_head in E.
  apply first_comma_unique in E as [-> E]; [|assumption..].
  apply append_inv_head in E.
  apply first_comma_unique in E as [-> E]; [|assumption..].
  apply append_inv_head in E.
  apply first_comma_unique in E as [-> E]; [|assumption..].
  assert (R : forall r x : string,
             r +:+ "," +:+ "Mark," +:+ x = (r +:+ ",Mark") +:+ "," +:+ x).
  { intros r x. rewrite append_assoc. reflexivity. }
  rewrite !R in E.
  apply last_comma_unique in E as [_ ->]; auto.
Qed.

(** A match of [RE_PTD_LOG] reads the text as a record, and its groups
    are the fields of that reading. *)
Lemma RE_PTD_LOG_sound (s : string) (caps : Re.captures) :
  Re.match_ RE_PTD_LOG s = Some caps ->
  exists v a m, caps = [("v", v); ("a", a); ("mark", m)] /\ is_ptd_record s v a m.
Proof.
  unfold Re.match_, RE_PTD_LOG. cbn [Re.exec Nat.eqb]. intros H.
  destruct (strip_prefix "Time," s) as [s1|] eqn:E1; [|discriminate].
  apply strip_prefix_spec in E1. subst s.
  destruct (Re.greedy _ _ _ s1) as [[ts m1]|] eqn:G1; [|discriminate].
  apply greedy_sound in G1 as (s2 & -> & Hts & K). cbn [Re.exec] in K.
  destruct (strip_prefix "," s2) as [s3|] eqn:E2; [|discriminate].
  apply strip_prefix_spec in E2. subst s2.
  destruct (strip_prefix "Watts," s3) as [s4|] eqn:E3; [|discriminate].
  apply strip_prefix_spec in E3. subst s3.
  destruct (Re.greedy _ _ _ s4) as [[w m2]|] eqn:G2; [|discriminate].
  apply greedy_sound in G2 as (s5 & -> & Hw & K2). cbn [Re.exec] in K2.
  destruct (strip_prefix "," s5) as [s6|] eqn:E4; [|discriminate].
  apply strip_prefix_spec in E4. subst s5.
  destruct (strip_prefix "Volts," s6) as [s7|] eqn:E5; [|discriminate].
  apply strip_prefix_spec in E5. subst s6.
  destruct (Re.greedy _ _ _ s7) as [[v m3]|] eqn:G3; [|discriminate].
  apply greedy_sound in G3 as (s8 & -> & Hv & K3). cbn [Re.exec] in K3.
  destruct (strip_prefix "," s8) as [s9|] eqn:E6; [|discriminate].
  apply strip_prefix_spec in E6. subst s8.
  destruct (strip_prefix "Amps," s9) as [s10|] eqn:E7; [|discriminate].
  apply strip_prefix_spec in E7. subst s9.
  destruct (Re.greedy _ _ _ s10) as [[a m4]|] eqn:G4; [|discriminate].
  apply greedy_sound in G4 as (s11 & -> & Ha & K4). cbn [Re.exec] in K4.
  destruct (strip_prefix "," s11) as [s12|] eqn:E8; [|discriminate].
  apply strip_prefix_spec in E8. subst s11.
  destruct (Re.greedy _ _ _ s12) as [[rest m5]|] eqn:G5; [|discriminate].
  apply greedy_sound in G5 as (s13 & -> & Hrest & K5). cbn [Re.exec] in K5.
  destruct (strip_prefix "," s13) as [s14|] eqn:E9; [|discriminate].
  apply strip_prefix_spec in E9. subst s13.
  destruct (strip_prefix "Mark," s14) as [s15|] eqn:E10; [|discriminate].
  apply strip_prefix_spec in E10. subst s14.
  destruct (Re.greedy _ _ _ s15) as [[mk m6]|] eqn:G6; [|discriminate].
  apply greedy_to_end in G6 as (-> & -> & Hmk).
  inversion K5; subst m5. inversion K4; subst m4. inversion K3; subst m3.
  inversion K2; subst m2. inversion K; subst m1. inversion H; subst caps.
  exists v, a, s15. split; [reflexivity|].
  exists ts, w, rest. repeat split; assumption.
Qed.

(** A text that reads as a record is matched by [RE_PTD_LOG]. *)
Lemma RE_PTD_LOG_complete (s v a m : string) :
  is_ptd_record s v a m -> exists caps, Re.match_ RE_PTD_LOG s = Some caps.
Proof.
  intros (ts & w & rest & -> & Hts & Hw & Hv & Ha & Hrest & Hm).
  unfold Re.match_, RE_PTD_LOG.
  match goal with
  | |- exists caps, Re.exec (Re.Bol :: ?r) _ ?s = Some caps =>
      enough (A : Accepts r s) by exact (A 0%nat)
  end.
  apply (accepts_lit _ "Time,"), accepts_star; [assumption|].
  apply (accepts_lit _ ","), (accepts_lit _ "Watts,"), accepts_star; [assumption|].
  apply (accepts_lit _ ","), (accepts_lit _ "Volts,"), accepts_group; [assumption|].
  apply (accepts_lit _ ","), (accepts_lit _ "Amps,"), accepts_group; [assumption|].
  apply (accepts_lit _ ","), accepts_star; [assumption|].
  apply (accepts_lit _ ","), (accepts_lit _ "Mark,"), accepts_last_group. assumption.
Qed.

(** [RE_PTD_LOG.match] decides the record grammar, and its groups [v], [a]
    and [mark] are the fields of the record. *)
Lemma RE_PTD_LOG_spec (s v a m : string) :
  Re.match_ RE_PTD_LOG s = Some [("v", v); ("a", a); ("mark", m)] <-> is_ptd_record s v a m.
Proof.
  split.
  - intros H. apply RE_PTD_LOG_sound in H as (v' & a' & m' & E & R).
    now inversion E; subst.
  - intros R. destruct (RE_PTD_LOG_complete _ _ _ _ R) as [caps H].
    destruct (RE_PTD_LOG_sound _ _ H) as (v' & a' & m' & -> & R').
    destruct (is_ptd_record_unique _ _ _ _ _ _ _ R R') as (-> & -> & ->). exact H.
Qed.

(** The test of both loops: a line is kept exactly when its text without
    the terminator is a record whose Mark field is the marker asked for,
    and the groups are then the record's fields. *)
Lemma selected_spec (mark line : string) (m : Re.captures) :
  selected mark line = Some m <->
  exists v a, m = [("v", v); ("a", a); ("mark", mark)]
              /\ is_ptd_record (rstrip is_CR_or_LF line) v a mark.
Proof.
  unfold selected, match_line. split.
  - destruct (Re.match_ RE_PTD_LOG _) as [caps|] eqn:E; [|discriminate].
    destruct (RE_PTD_LOG_sound _ _ E) as (v & a & m' & -> & R).
    simpl. destruct (String.eqb_spec m' mark) as [->|]; [|discriminate].
    intros [= <-]. eauto.
  - intros (v & a & -> & R). apply RE_PTD_LOG_spec in R. rewrite R.
    simpl. now rewrite String.eqb_refl.
Qed.

Lemma selected_None (mark line : string) :
  selected mark line = None <->
  ~ exists v a, is_ptd_record (rstrip is_CR_or_LF line) v a mark.
Proof.
  split.
  - intros H (v & a & R).
    assert (S : selected mark line = Some [("v", v); ("a", a); ("mark", mark)])
      by (apply selected_spec; eauto).
    congruence.
  - intros H. destruct (selected mark line) as [m|] eqn:E; [|reflexivity].
    apply selected_spec in E as (v & a & _ & R). exfalso. eauto.
Qed.

(** ** The order of decimals *)

Lemma le_Finite s c e s' c' e' :
  PyDecimal.le (PyDecimal.Finite s c e) (PyDecimal.Finite s' c' e') = Ret true
  <-> (PyDecimal.value s c e <= PyDecimal.value s' c' e')%Q.
Proof.
  unfold PyDecimal.le, PyDecimal.compare. rewrite Qle_alt.
  destruct (PyDecimal.value s c e ?= PyDecimal.value s' c' e')%Q;
    split; intros H; try reflexivity; try discriminate; congruence.
Qed.

Lemma gt_Finite s c e s' c' e' :
  PyDecimal.gt (PyDecimal.Finite s c e) (PyDecimal.Finite s' c' e') = Ret true
  <-> (PyDecimal.value s' c' e' < PyDecimal.value s c e)%Q.
Proof.
  unfold PyDecimal.gt, PyDecimal.compare. rewrite Qgt_alt.
  destruct (PyDecimal.value s c e ?= PyDecimal.value s' c' e')%Q;
    split; intros H; try reflexivity; try discriminate.
Qed.

Lemma Dle_number (a b : PyDecimal.t) : Dle a b -> is_number a /\ is_number b.
Proof.
  unfold Dle, is_number. destruct a, b; cbn; intros H; split; congruence.
Qed.

Lemma Dle_refl (a : PyDecimal.t) : is_number a -> Dle a a.
Proof.
  unfold is_number. destruct a as [s c e|[]|]; intros H; try reflexivity; [|congruence].
  apply le_Finite, Qle_refl.
Qed.

Lemma Dle_trans (a b c : PyDecimal.t) : Dle a b -> Dle b c -> Dle a c.
Proof.
  unfold Dle.
  destruct a as [sa ca ea|[]|], b as [sb cb eb|[]|], c as [sc cc ec|[]|];
    try (cbn; intros; (reflexivity || discriminate)).
  rewrite !le_Finite. apply Qle_trans.
Qed.

(** The two answers of [b > a]. *)
Lemma gt_true (a b : PyDecimal.t) : PyDecimal.gt b a = Ret true -> Dle a b /\ ~ Dle b a.
Proof.
  unfold Dle.
  destruct a as [sa ca ea|[]|], b as [sb cb eb|[]|];
    try (cbn; intros; (split; [reflexivity | discriminate]) || discriminate).
  rewrite gt_Finite, !le_Finite. intros H. split.
  - now apply Qlt_le_weak.
  - now apply Qlt_not_le.
Qed.

Lemma gt_false (a b : PyDecimal.t) : PyDecimal.gt b a = Ret false -> Dle b a.
Proof.
  unfold Dle, PyDecimal.gt, PyDecimal.le.
  destruct (PyDecimal.compare b a) as [[]|]; intros; congruence.
Qed.

Lemma gt_number (a b : PyDecimal.t) :
  is_number a -> is_number b -> exists r, PyDecimal.gt b a = Ret r.
Proof.
  unfold is_number, PyDecimal.gt.
  destruct a, b; intros Ha Hb; try congruence; cbn;
    match goal with |- context [match ?x with _ => _ end] => destruct x end; eauto.
Qed.

Lemma gt_Raise (a b : PyDecimal.t) e :
  PyDecimal.gt b a = Raise e -> ~ (is_number a /\ is_number b).
Proof.
  intros H [Ha Hb]. destruct (gt_number a b Ha Hb) as [r E]. congruence.
Qed.

(** [max(a, b)] is one of its arguments and an upper bound of both. *)
Lemma max_spec (a b r : PyDecimal.t) :
  PyDecimal.max a b = Ret r ->
  is_number a /\ is_number b /\ Dle a r /\ Dle b r
  /\ ((r = a /\ Dle b a) \/ (r = b /\ ~ Dle b a)).
Proof.
  unfold PyDecimal.max. destruct (PyDecimal.gt b a) as [[]|] eqn:E; cbn; intros [= <-].
  - destruct (gt_true _ _ E) as [H1 H2].
    destruct (Dle_number _ _ H1) as [Ha Hb].
    repeat split; auto using Dle_refl.
  - pose proof (gt_false _ _ E) as H1.
    destruct (Dle_number _ _ H1) as [Hb Ha].
    repeat split; auto using Dle_refl.
Qed.

Lemma max_total (a b : PyDecimal.t) :
  is_number a -> is_number b -> exists r, PyDecimal.max a b = Ret r.
Proof.
  intros Ha Hb. unfold PyDecimal.max.
  destruct (gt_number a b Ha Hb) as [g ->]. cbn. eauto.
Qed.

Lemma max_Raise (a b : PyDecimal.t) e :
  PyDecimal.max a b = Raise e -> ~ (is_number a /\ is_number b).
Proof.
  unfold PyDecimal.max. destruct (PyDecimal.gt b a) eqn:E; cbn; [discriminate|].
  intros _. eapply gt_Raise, E.
Qed.

(** A number is positive or at most zero. *)
Lemma Dpos_not_le (a : PyDecimal.t) : Dpos a <-> is_number a /\ ~ Dle a PyDecimal.zero.
Proof.
  unfold Dpos, Dle, is_number, PyDecimal.le.
  destruct a as [s c e|[]|]; cbn;
    try (split; [intros; split; congruence | intros [? H]; try congruence;
                 exfalso; apply H; reflexivity]).
  destruct (Qcompare _ _); split; try (intros; split; congruence);
    intros [? H]; try reflexivity; exfalso; apply H; reflexivity.
Qed.

Lemma le_zero_cases (a : PyDecimal.t) :
  is_number a -> Dle a PyDecimal.zero \/ Dpos a.
Proof.
  unfold Dpos, Dle, is_number, PyDecimal.le.
  destruct a as [s c e|[]|]; cbn; intros H; try congruence; auto.
  destruct (Qcompare _ _); auto.
Qed.

Lemma Qpower_10_pos (e : Z) : (0 < Qpower (inject_Z 10) e)%Q.
Proof. apply Qpower_0_lt. reflexivity. Qed.

Lemma Dpos_above_zero (d : PyDecimal.t) : Dpos d <-> above_zero d.
Proof.
  unfold Dpos, above_zero, PyDecimal.le, PyDecimal.zero.
  destruct d as [s c e|[]|]; cbn [PyDecimal.compare].
  - assert (Z0 : (PyDecimal.value false 0 0 == 0)%Q) by reflexivity.
    pose proof (Qpower_10_pos e) as P.
    destruct (Qcompare_spec (PyDecimal.value s c e) (PyDecimal.value false 0 0)) as [H|H|H].
    + split; [discriminate|]. intros [[=]|(c' & e' & [= -> -> ->] & Hc)]. exfalso.
      rewrite Z0 in H. unfold PyDecimal.value in H.
      apply Qmult_integral in H as [H|H].
      * unfold Qeq in H. cbn in H. lia.
      * rewrite H in P. now apply Qlt_irrefl in P.
    + split; [discriminate|]. intros [[=]|(c' & e' & [= -> -> ->] & Hc)]. exfalso.
      rewrite Z0 in H. unfold PyDecimal.value in H.
      assert (0 < inject_Z (Z.of_N c'))%Q by (unfold Qlt; cbn; lia).
      pose proof (Qmult_lt_0_compat _ _ H0 P) as M.
      apply (Qlt_irrefl 0). eapply Qlt_trans; eauto.
    + split; [|reflexivity]. intros _. right. rewrite Z0 in H. unfold PyDecimal.value in H.
      destruct s.
      * exfalso. assert (L : (inject_Z (- Z.of_N c) <= 0)%Q) by (unfold Qle; cbn; lia).
        pose proof (Qmult_le_compat_r _ _ _ L (Qlt_le_weak _ _ P)) as M.
        rewrite Qmult_0_l in M. apply (Qlt_irrefl 0). eapply Qlt_le_trans; eauto.
      * exists c, e. split; [reflexivity|].
        destruct c; [|lia]. exfalso. cbn in H. rewrite Qmult_0_l in H.
        now apply Qlt_irrefl in H.
  - split; [discriminate|]. intros [[=]|(c & e & [=] & _)].
  - split; [intros _; now left | reflexivity].
  - split; [discriminate|]. intros [[=]|(c & e & [=] & _)].
Qed.

(** ** The loop of [max_volts_amps] *)

Section MaxLoop.
Variable mark : string.

Lemma max_step_skip acc line :
  selected mark line = None -> max_step mark acc line = Ret acc.
Proof. intros H. unfold max_step. destruct acc. now rewrite H. Qed.

Lemma max_step_record mv ma line v a :
  record_line mark line v a ->
  max_step mark (mv, ma) line =
    (try dv <- PyDecimal.Decimal v;
     try mv' <- PyDecimal.max mv dv;
     try da <- PyDecimal.Decimal a;
     try ma' <- PyDecimal.max ma da;
     Ret (mv', ma')).
Proof.
  intros R. unfold max_step.
  assert (S : selected mark line = Some [("v", v); ("a", a); ("mark", mark)])
    by (apply selected_spec; eauto).
  rewrite S. reflexivity.
Qed.

Lemma rec_fields line v a v' a' : record_line mark line v a -> record_line mark line v' a' -> v = v' /\ a = a'.
Proof.
  intros R R'. destruct (is_ptd_record_unique _ _ _ _ _ _ _ R R') as (-> & -> & _). auto.
Qed.

Lemma rec_or_not line : (exists v a, record_line mark line v a) \/ selected mark line = None.
Proof.
  destruct (selected mark line) as [m|] eqn:E; [left | now right].
  apply selected_spec in E as (v & a & _ & R). eauto.
Qed.

(** What the loop returns: on each channel the result is the starting
    value or the number of a record, it is at least the starting value,
    and the field of every record is a numeral at most the result. *)
Lemma max_loop_sound lines : forall mv0 ma0 mv ma,
  is_number mv0 -> is_number ma0 ->
  max_loop mark (mv0, ma0) lines = Ret (mv, ma) ->
  (Dle mv0 mv /\ Dle ma0 ma)
  /\ (mv = mv0 \/ exists line v a, In line lines /\ record_line mark line v a /\ numeral_of v mv)
  /\ (ma = ma0 \/ exists line v a, In line lines /\ record_line mark line v a /\ numeral_of a ma)
  /\ (forall line v a, In line lines -> record_line mark line v a ->
        (exists d, numeral_of v d /\ Dle d mv) /\ (exists d, numeral_of a d /\ Dle d ma)).
Proof.
  induction lines as [|line rest IH]; intros mv0 ma0 mv ma Hv0 Ha0 H; cbn [max_loop] in H.
  - injection H as <- <-.
    split; [split; now apply Dle_refl|]. split; [now left|]. split; [now left|].
    intros ? ? ? [].
  - destruct (rec_or_not line) as [(v & a & R)|Hskip].
    + rewrite (max_step_record _ _ _ _ _ R) in H.
      destruct (PyDecimal.Decimal v) as [dv|] eqn:Ev; [|discriminate]. cbn [obind] in H.
      destruct (PyDecimal.max mv0 dv) as [mv1|] eqn:Mv; [|discriminate]. cbn [obind] in H.
      destruct (PyDecimal.Decimal a) as [da|] eqn:Ea; [|discriminate]. cbn [obind] in H.
      destruct (PyDecimal.max ma0 da) as [ma1|] eqn:Ma; [|discriminate]. cbn [obind] in H.
      destruct (max_spec _ _ _ Mv) as (_ & Ndv & Lv0 & Ldv & Cv).
      destruct (max_spec _ _ _ Ma) as (_ & Nda & La0 & Lda & Ca).
      assert (Nv1 : is_number mv1) by (eapply Dle_number, Lv0).
      assert (Na1 : is_number ma1) by (eapply Dle_number, La0).
      destruct (IH _ _ _ _ Nv1 Na1 H) as ((Lv & La) & Sv & Sa & All).
      split; [split; eapply Dle_trans; eauto|].
      split; [|split].
      * destruct Sv as [->|(l & v' & a' & I & R' & N)].
        -- destruct Cv as [[-> _]|[-> _]]; [now left|].
           right. exists line, v, a. repeat split; auto. now left.
        -- right. exists l, v', a'. repeat split; auto; try apply N. now right.
      * destruct Sa as [->|(l & v' & a' & I & R' & N)].
        -- destruct Ca as [[-> _]|[-> _]]; [now left|].
           right. exists line, v, a. repeat split; auto. now left.
        -- right. exists l, v', a'. repeat split; auto; try apply N. now right.
      * intros l v' a' [<-|I] R'.
        -- destruct (rec_fields _ _ _ _ _ R R') as [<- <-].
           split; [exists dv | exists da]; (split; [split; assumption|]);
             eapply Dle_trans; eauto.
        -- now apply (All l).
    + rewrite (max_step_skip _ _ Hskip) in H. cbn [obind] in H.
      destruct (IH _ _ _ _ Hv0 Ha0 H) as (L & Sv & Sa & All).
      split; [exact L|]. split; [|split].
      * destruct Sv as [->|(l & v' & a' & I & R' & N)]; [now left|].
        right. exists l, v', a'. repeat split; auto; try apply N. now right.
      * destruct Sa as [->|(l & v' & a' & I & R' & N)]; [now left|].
        right. exists l, v', a'. repeat split; auto; try apply N. now right.
      * intros l v' a' [<-|I] R'; [|now apply (All l)].
        apply selected_None in Hskip. exfalso. apply Hskip. eauto.
Qed.

(** The loop runs to its end when the two fields of every record are
    numerals. *)
Lemma max_loop_total lines : forall mv0 ma0,
  is_number mv0 -> is_number ma0 ->
  (forall line v a, In line lines -> record_line mark line v a ->
     (exists d, numeral_of v d) /\ (exists d, numeral_of a d)) ->
  exists mv ma, max_loop mark (mv0, ma0) lines = Ret (mv, ma).
Proof.
  induction lines as [|line rest IH]; intros mv0 ma0 Hv0 Ha0 WF; cbn [max_loop].
  - eauto.
  - destruct (rec_or_not line) as [(v & a & R)|Hskip].
    + rewrite (max_step_record _ _ _ _ _ R).
      destruct (WF line v a (or_introl eq_refl) R) as [(dv & Ev & Ndv) (da & Ea & Nda)].
      rewrite Ev. cbn [obind].
      destruct (max_total mv0 dv Hv0 Ndv) as [mv1 Mv]. rewrite Mv. cbn [obind].
      rewrite Ea. cbn [obind].
      destruct (max_total ma0 da Ha0 Nda) as [ma1 Ma]. rewrite Ma. cbn [obind].
      destruct (max_spec _ _ _ Mv) as (_ & _ & Lv0 & _).
      destruct (max_spec _ _ _ Ma) as (_ & _ & La0 & _).
      apply IH.
      * eapply Dle_number, Lv0.
      * eapply Dle_number, La0.
      * intros l v' a' I. apply WF. now right.
    + rewrite (max_step_skip _ _ Hskip). cbn [obind].
      apply IH; auto. intros l v' a' I. apply WF. now right.
Qed.

(** The loop does not run to its end when a field of a record is no
    numeral. *)
Lemma max_loop_returns lines mv0 ma0 r :
  is_number mv0 -> is_number ma0 ->
  max_loop mark (mv0, ma0) lines = Ret r ->
  forall line v a, In line lines -> record_line mark line v a ->
    (exists d, numeral_of v d) /\ (exists d, numeral_of a d).
Proof.
  intros Hv0 Ha0 H line v a I R. destruct r as [mv ma].
  destruct (max_loop_sound _ _ _ _ _ Hv0 Ha0 H) as (_ & _ & _ & All).
  destruct (All line v a I R) as [(d & N & _) (d' & N' & _)]. eauto.
Qed.

End MaxLoop.

(** The loop raises nothing but [InvalidOperation]. *)
Lemma max_loop_exception (mark : string) (lines : list string) : forall acc e,
  max_loop mark acc lines = Raise e -> e = InvalidOperation.
Proof.
  induction lines as [|l ls IH]; intros acc e; cbn [max_loop]; [discriminate|].
  destruct (max_step mark acc l) as [acc'|e'] eqn:S; cbn [obind]; [apply IH|].
  intros [= ->]. revert S. unfold max_step. destruct acc as [mv ma].
  destruct (selected mark l); [|discriminate].
  unfold PyDecimal.Decimal, PyDecimal.max, PyDecimal.gt.
  repeat match goal with
         | |- context [match ?x with _ => _ end] => destruct x; cbn [obind]
         end; congruence.
Qed.

(** ** [max_volts_amps] *)

Lemma minus_one_number : is_number PyDecimal.minus_one.
Proof. discriminate. Qed.

Lemma minus_one_le_zero : Dle PyDecimal.minus_one PyDecimal.zero.
Proof. reflexivity. Qed.

Lemma Dpos_Dle_absurd (d : PyDecimal.t) : Dpos d -> Dle d PyDecimal.zero -> False.
Proof. unfold Dpos, Dle. congruence. Qed.

Lemma Dpos_mono (d d' : PyDecimal.t) : Dpos d -> Dle d d' -> Dpos d'.
Proof.
  intros P L. destruct (Dle_number _ _ L) as [_ N].
  destruct (le_zero_cases d' N) as [L'|]; [|assumption].
  exfalso. eapply Dpos_Dle_absurd; [exact P|]. eapply Dle_trans; eauto.
Qed.

Lemma numeral_of_fun (text : string) (d d' : PyDecimal.t) :
  numeral_of text d -> numeral_of text d' -> d = d'.
Proof. intros [E _] [E' _]. congruence. Qed.

(** The function is its loop followed by the test of line 59. *)
Lemma max_volts_amps_eq (content mark : string) :
  max_volts_amps (Some content) mark =
  match max_loop mark (PyDecimal.minus_one, PyDecimal.minus_one) (log_lines content) with
  | Ret (mv, ma) =>
      try volts_le <- PyDecimal.le mv PyDecimal.zero;
      try not_found <- (if volts_le then Ret true else PyDecimal.le ma PyDecimal.zero);
      if not_found then Raise (RuntimeError mark)
      else Ret (PyDecimal.str mv, PyDecimal.str ma)
  | Raise e => Raise e
  end.
Proof.
  unfold max_volts_amps, open_r, log_lines. cbn [obind].
  destruct (max_loop _ _ _) as [[mv ma]|]; reflexivity.
Qed.

(** The test of line 59 on two numbers. *)
Lemma final_test (mark : string) (mv ma : PyDecimal.t) :
  is_number mv -> is_number ma ->
  let result :=
    try volts_le <- PyDecimal.le mv PyDecimal.zero;
    try not_found <- (if volts_le then Ret true else PyDecimal.le ma PyDecimal.zero);
    if not_found then Raise (RuntimeError mark)
    else Ret (PyDecimal.str mv, PyDecimal.str ma) in
  ((Dle mv PyDecimal.zero \/ Dle ma PyDecimal.zero) /\ result = Raise (RuntimeError mark))
  \/ (Dpos mv /\ Dpos ma /\ result = Ret (PyDecimal.str mv, PyDecimal.str ma)).
Proof.
  intros Nv Na result. subst result.
  destruct (le_zero_cases mv Nv) as [Lv|Pv].
  - left. split; [now left|]. unfold Dle in Lv. now rewrite Lv.
  - unfold Dpos in Pv. rewrite Pv. cbn [obind].
    destruct (le_zero_cases ma Na) as [La|Pa].
    + left. split; [now right|]. unfold Dle in La. now rewrite La.
    + right. unfold Dpos in Pa. rewrite Pa. auto.
Qed.

(** The loop and the test together, for the proofs below. *)
Lemma max_volts_amps_cases (content mark : string) :
  (exists e, max_volts_amps (Some content) mark = Raise e /\ e <> RuntimeError mark
             /\ ~ (forall line v a, record_of content mark line v a ->
                     (exists d, numeral_of v d) /\ (exists d, numeral_of a d)))
  \/ exists mv ma,
       max_loop mark (PyDecimal.minus_one, PyDecimal.minus_one) (log_lines content)
         = Ret (mv, ma)
       /\ (((Dle mv PyDecimal.zero \/ Dle ma PyDecimal.zero)
            /\ max_volts_amps (Some content) mark = Raise (RuntimeError mark))
           \/ (Dpos mv /\ Dpos ma
               /\ max_volts_amps (Some content) mark
                  = Ret (PyDecimal.str mv, PyDecimal.str ma))).
Proof.
  rewrite max_volts_amps_eq.
  destruct (max_loop mark _ (log_lines content)) as [[mv ma]|e] eqn:E.
  - right. exists mv, ma. split; [reflexivity|].
    destruct (max_loop_sound _ _ _ _ _ _ minus_one_number minus_one_number E)
      as ((Lv & La) & _).
    apply final_test; [eapply Dle_number, Lv | eapply Dle_number, La].
  - left. exists e. split; [reflexivity|]. split.
    + intros ->. revert E. generalize (PyDecimal.minus_one, PyDecimal.minus_one).
      induction (log_lines content) as [|l ls IH]; intros acc; cbn [max_loop]; [discriminate|].
      destruct (max_step mark acc l) as [acc'|e'] eqn:S; cbn [obind]; [apply IH|].
      intros [= ->]. revert S. unfold max_step. destruct acc as [mv ma].
      destruct (selected mark l); [|discriminate].
      unfold PyDecimal.Decimal, PyDecimal.max, PyDecimal.gt.
      repeat match goal with
             | |- context [match ?x with _ => _ end] => destruct x; cbn [obind]
             end; discriminate.
    + intros WF.
      destruct (max_loop_total mark (log_lines content) _ _ minus_one_number minus_one_number)
        as (mv & ma & E').
      * intros line v a I R. apply (WF line v a). now split.
      * congruence.
Qed.

(** The fields of a record can be read off the match of its line. *)
Lemma record_fields_by_match (line mark v a : string) :
  is_ptd_record (rstrip is_CR_or_LF line) v a mark ->
  exists caps, match_line line = Some caps
               /\ v = Re.group caps "v" /\ a = Re.group caps "a" /\ mark = Re.group caps "mark".
Proof.
  intros R. apply RE_PTD_LOG_spec in R. unfold match_line. rewrite R.
  eexists. split; [reflexivity|]. cbn. auto.
Qed.

(** Settles, on a log given in full, what the records of a marker are. *)
Ltac concrete_records I R :=
  vm_compute in I;
  repeat (destruct I as [<-|I]; [
    apply record_fields_by_match in R;
    let caps := fresh "caps" in
    let E := fresh "E" in
    destruct R as (caps & E & -> & -> & R);
    vm_compute in E; first [discriminate E | injection E as <-; vm_compute in R] |]);
  try contradiction.

(** C1. On an ASCII log, whenever [max_volts_amps] returns, it returns
    the texts of two numbers: the first is the voltage of a record of the
    marker and no record of the marker has a greater voltage, and the
    same holds of the second and the currents; the records of the marker
    being exactly the lines that follow the grammar
    [Time,..,Watts,..,Volts,v,Amps,a,..,Mark,m] with [m] equal to the
    marker. It does return when every such record carries two numerals
    and one voltage and one current are positive. The order is that of
    the exact rational values of the decimals. *)
Theorem max_volts_amps_maximum (content mark : string) :
  isascii content = true ->
  (forall sv sa, max_volts_amps (Some content) mark = Ret (sv, sa) ->
     exists dv da, sv = PyDecimal.str dv /\ sa = PyDecimal.str da
       /\ (exists line v a, record_of content mark line v a /\ numeral_of v dv)
       /\ (exists line v a, record_of content mark line v a /\ numeral_of a da)
       /\ (forall line v a, record_of content mark line v a ->
             (exists d, numeral_of v d /\ Dle d dv) /\ (exists d, numeral_of a d /\ Dle d da)))
  /\ (well_formed content mark ->
      (exists line v a d, record_of content mark line v a /\ numeral_of v d /\ Dpos d) ->
      (exists line v a d, record_of content mark line v a /\ numeral_of a d /\ Dpos d) ->
      exists sv sa, max_volts_amps (Some content) mark = Ret (sv, sa))
  /\ (forall s c e s' c' e',
        Dle (PyDecimal.Finite s c e) (PyDecimal.Finite s' c' e')
        <-> (PyDecimal.value s c e <= PyDecimal.value s' c' e')%Q).
Proof.
  intros _. split; [|split].
  - intros sv sa H.
    destruct (max_volts_amps_cases content mark)
      as [(e & E & _)|(mv & ma & L & [[_ E]|(Pv & Pa & E)])]; try congruence.
    rewrite E in H. injection H as <- <-.
    destruct (max_loop_sound _ _ _ _ _ _ minus_one_number minus_one_number L)
      as (_ & Sv & Sa & All).
    exists mv, ma. split; [reflexivity|]. split; [reflexivity|].
    split; [|split].
    + destruct Sv as [->|(l & v & a & I & R & N)].
      * exfalso. eapply Dpos_Dle_absurd; [exact Pv | exact minus_one_le_zero].
      * exists l, v, a. split; [split|]; assumption.
    + destruct Sa as [->|(l & v & a & I & R & N)].
      * exfalso. eapply Dpos_Dle_absurd; [exact Pa | exact minus_one_le_zero].
      * exists l, v, a. split; [split|]; assumption.
    + intros l v a [I R]. now apply (All l).
  - intros WF (lv & vv & av & dv & [Iv Rv] & Nv & Pv) (la & va & aa & da & [Ia Ra] & Na & Pa).
    destruct (max_volts_amps_cases content mark)
      as [(e & _ & _ & NWF)|(mv & ma & L & [[Neg E]|(_ & _ & E)])];
      [contradiction | | eauto].
    exfalso.
    destruct (max_loop_sound _ _ _ _ _ _ minus_one_number minus_one_number L)
      as (_ & _ & _ & All).
    destruct (All lv vv av Iv Rv) as [(d & N & Le) _].
    destruct (All la va aa Ia Ra) as [_ (d' & N' & Le')].
    rewrite (numeral_of_fun _ _ _ N Nv) in Le.
    rewrite (numeral_of_fun _ _ _ N' Na) in Le'.
    destruct Neg as [Z|Z].
    + eapply Dpos_Dle_absurd; [exact (Dpos_mono _ _ Pv Le) | exact Z].
    + eapply Dpos_Dle_absurd; [exact (Dpos_mono _ _ Pa Le') | exact Z].
  - intros. apply le_Finite.
Qed.

(** On [log_two_records] the answer for marker [m] is 9.10 volts, from the
    second record, and 0.5 amperes, from the first. *)
Lemma max_volts_amps_maximum_witness :
  isascii log_two_records = true
  /\ max_volts_amps (Some log_two_records) "m" = Ret ("9.10", "0.5")
  /\ exists dv da, "9.10" = PyDecimal.str dv /\ "0.5" = PyDecimal.str da
       /\ (exists line v a, record_of log_two_records "m" line v a /\ numeral_of v dv)
       /\ (exists line v a, record_of log_two_records "m" line v a /\ numeral_of a da)
       /\ (forall line v a, record_of log_two_records "m" line v a ->
             (exists d, numeral_of v d /\ Dle d dv) /\ (exists d, numeral_of a d /\ Dle d da)).
Proof.
  split; [reflexivity|]. split; [vm_compute; reflexivity|].
  apply (proj1 (max_volts_amps_maximum log_two_records "m" eq_refl)).
  vm_compute; reflexivity.
Defined.

(** Two voltages that the nearest doubles do not tell apart are told
    apart: the greater is returned, digit for digit. *)
Example max_volts_amps_beyond_double :
  max_volts_amps
    (Some ("Time,t0,Watts,1,Volts,0.1,Amps,1,PF,1,Mark,m" +:+ String LF
           ("Time,t1,Watts,1,Volts,0.1000000000000000000001,Amps,1,PF,1,Mark,m"
            +:+ String LF ""))) "m"
  = Ret ("0.1000000000000000000001", "1").
Proof. vm_compute. reflexivity. Qed.

(** C2, as amended. On an ASCII log, [max_volts_amps] raises its
    [RuntimeError] exactly when every record of the marker carries two
    numerals and either no line is a record of the marker, or no voltage
    of such a record is positive, or no current is; it raises
    [InvalidOperation], not [RuntimeError], exactly when a field of a
    record of the marker is no numeral; and what it returns are the texts
    of two decimals above zero, never that of the starting value -1. *)
Theorem max_volts_amps_not_found (content mark : string) :
  isascii content = true ->
  (max_volts_amps (Some content) mark = Raise (RuntimeError mark) <->
     well_formed content mark
     /\ ((~ exists line v a, record_of content mark line v a)
         \/ (forall line v a d, record_of content mark line v a ->
               numeral_of v d -> Dle d PyDecimal.zero)
         \/ (forall line v a d, record_of content mark line v a ->
               numeral_of a d -> Dle d PyDecimal.zero)))
  /\ (max_volts_amps (Some content) mark = Raise InvalidOperation <->
        ~ well_formed content mark)
  /\ (forall sv sa, max_volts_amps (Some content) mark = Ret (sv, sa) ->
        exists dv da, sv = PyDecimal.str dv /\ sa = PyDecimal.str da
                      /\ above_zero dv /\ above_zero da).
Proof.
  intros _.
  destruct (max_volts_amps_cases content mark)
    as [(e & E & NE & NWF)|(mv & ma & L & Cases)].
  - assert (I : e = InvalidOperation).
    { rewrite max_volts_amps_eq in E.
      destruct (max_loop mark _ (log_lines content)) as [[mv ma]|e'] eqn:L.
      - exfalso. apply NWF. intros line v a [In_ R].
        eapply max_loop_returns; eauto using minus_one_number.
      - apply max_loop_exception in L. congruence. }
    subst e. split; [|split].
    + split; [congruence | intros [WF _]; contradiction].
    + split; [intros _; exact NWF | intros _; exact E].
    + intros sv sa H. congruence.
  - assert (WF : well_formed content mark).
    { intros line v a [In_ R].
      eapply max_loop_returns; eauto using minus_one_number. }
    destruct (max_loop_sound _ _ _ _ _ _ minus_one_number minus_one_number L)
      as (_ & Sv & Sa & All).
    split; [|split].
    + split.
      * intros H. split; [exact WF|].
        destruct Cases as [[Neg _]|(_ & _ & E)]; [|congruence].
        right. destruct Neg as [Z|Z]; [left | right]; intros l v a d [I R] N.
        -- destruct (All l v a I R) as [(d' & N' & Le) _].
           rewrite (numeral_of_fun _ _ _ N N'). eapply Dle_trans; eauto.
        -- destruct (All l v a I R) as [_ (d' & N' & Le)].
           rewrite (numeral_of_fun _ _ _ N N'). eapply Dle_trans; eauto.
      * intros [_ H]. destruct Cases as [[_ E]|(Pv & Pa & _)]; [exact E|]. exfalso.
        destruct Sv as [->|(l & v & a & I & R & N)];
          [eapply Dpos_Dle_absurd; [exact Pv | exact minus_one_le_zero]|].
        destruct Sa as [->|(l' & v' & a' & I' & R' & N')];
          [eapply Dpos_Dle_absurd; [exact Pa | exact minus_one_le_zero]|].
        destruct H as [H|[H|H]].
        -- apply H. exists l, v, a. now split.
        -- eapply Dpos_Dle_absurd; [exact Pv|]. eapply (H l v a); [now split | exact N].
        -- eapply Dpos_Dle_absurd; [exact Pa|]. eapply (H l' v' a'); [now split | exact N'].
    + split; [|intros NWF; contradiction].
      destruct Cases as [[_ E]|(_ & _ & E)]; rewrite E; discriminate.
    + intros sv sa H. destruct Cases as [[_ E]|(Pv & Pa & E)]; [congruence|].
      rewrite E in H. injection H as <- <-. apply Dpos_above_zero in Pv, Pa. eauto 6.
Qed.

(** On [log_zero_volts], whose one record has voltage 0.0, the function
    raises although a line matches. *)
Lemma max_volts_amps_not_found_witness :
  isascii log_zero_volts = true
  /\ max_volts_amps (Some log_zero_volts) "m" = Raise (RuntimeError "m").
Proof.
  split; [reflexivity|].
  apply (proj1 (max_volts_amps_not_found log_zero_volts "m" eq_refl)).
  split.
  - intros line v a [I R]. concrete_records I R.
    split; eexists; (split; [vm_compute; reflexivity | discriminate]).
  - right; left. intros line v a d [I R]. concrete_records I R.
    intros [E _]. vm_compute in E. injection E as <-. reflexivity.
Defined.

(** C2, as stated, fails on [log_bad_amps]: its one line is a record of
    the marker, so the greatest voltage among the records, -5, is not
    positive, and yet [max_volts_amps] does not raise its [RuntimeError]:
    the current field is no numeral, and [InvalidOperation] is raised. *)
Lemma max_volts_amps_not_found_counterexample :
  isascii log_bad_amps = true
  /\ (exists line, record_of log_bad_amps "m" line "-5" "abc")
  /\ (forall line v a d, record_of log_bad_amps "m" line v a ->
        numeral_of v d -> Dle d PyDecimal.zero)
  /\ PyDecimal.Decimal "abc" = Raise InvalidOperation
  /\ max_volts_amps (Some log_bad_amps) "m" = Raise InvalidOperation
  /\ max_volts_amps (Some log_bad_amps) "m" <> Raise (RuntimeError "m").
Proof.
  split; [reflexivity|]. split.
  { exists ("Time,t0,Watts,1,Volts,-5,Amps,abc,PF,1,Mark,m" +:+ String LF "").
    split; [vm_compute; auto|]. exists "t0", "1", "PF,1". vm_compute. auto 10. }
  split.
  { intros line v a d [I R]. concrete_records I R.
    intros [E _]. vm_compute in E. injection E as <-. reflexivity. }
  split; [vm_compute; reflexivity|].
  split; [vm_compute; reflexivity | vm_compute; discriminate].
Qed.

(** ** [read_log] *)

Lemma join_empty_cons (f : string) (fs : list string) : join "" (f :: fs) = f +:+ join "" fs.
Proof. destruct fs; cbn [join]; sapp; [now rewrite append_nil_r | reflexivity]. Qed.

(** The lines of a text, put end to end, are the text. *)
Lemma readlines_join (text : string) : join "" (readlines text) = text.
Proof.
  induction text as [|c s IH]; [reflexivity|]. cbn [readlines].
  destruct (is_LF c).
  - rewrite join_empty_cons, IH. reflexivity.
  - destruct (readlines s) as [|l ls].
    + cbn in IH. subst s. reflexivity.
    + rewrite join_empty_cons in *. sapp. now rewrite IH.
Qed.

(** Every line holds one line feed at most, at its end, and only the
    last line can lack it. *)
Lemma readlines_shape (text : string) :
  Forall (fun line => exists body, all_chars Re.dot body = true
            /\ (line = body +:+ String LF "" \/ (line = body /\ body <> "")))
         (readlines text).
Proof.
  induction text as [|c s IH]; cbn [readlines]; [constructor|].
  destruct (is_LF c) eqn:Hc.
  - constructor; [|exact IH]. exists "". split; [reflexivity|]. left. sapp.
    unfold is_LF in Hc. now destruct (Ascii.eqb_spec c LF) as [->|].
  - destruct (readlines s) as [|l ls].
    + constructor; [|constructor]. exists (String c ""). cbn. unfold Re.dot. rewrite Hc.
      split; [reflexivity|]. right. split; [reflexivity | discriminate].
    + inversion IH as [|? ? (body & Hb & Hl) Hls]; subst. constructor; [|exact Hls].
      exists (String c body). cbn. unfold Re.dot at 1. rewrite Hc, Hb.
      split; [reflexivity|]. sapp.
      destruct Hl as [->|[-> _]]; [now left | right; split; [reflexivity | discriminate]].
Qed.

(** A text without carriage return is read as it is. *)
Lemma universal_newlines_id (content : string) :
  all_chars (fun c => negb (Ascii.eqb c CR)) content = true ->
  universal_newlines content = content.
Proof.
  induction content as [|c s IH]; [reflexivity|]. cbn [all_chars universal_newlines].
  intros H. apply andb_prop in H as [Hc Hs].
  destruct (Ascii.eqb c CR); [discriminate|]. now rewrite IH.
Qed.

Lemma read_log_loop_selects (mark : string) (lines : list string) :
  Selects (fun line => exists v a, is_ptd_record (rstrip is_CR_or_LF line) v a mark)
          lines (read_log_loop mark lines).
Proof.
  induction lines as [|l ls IH]; cbn [read_log_loop]; [constructor|].
  destruct (selected mark l) as [m|] eqn:E.
  - apply Selects_keep; [|exact IH].
    apply selected_spec in E as (v & a & _ & R). eauto.
  - apply Selects_skip; [|exact IH]. now apply selected_None.
Qed.

Lemma Selects_none (P : string -> Prop) (lines sel : list string) :
  Selects P lines sel -> (forall l, In l lines -> ~ P l) -> sel = [].
Proof.
  induction 1 as [|l ls sel Hl _ IH|l ls sel Hl _ IH]; intros H; [reflexivity| |].
  - exfalso. apply (H l); [now left | exact Hl].
  - apply IH. intros l' I. apply H. now right.
Qed.

Lemma universal_newlines_no_CR_le (n : nat) : forall s,
  (String.length s <= n)%nat -> no_CR (universal_newlines s) = true.
Proof.
  induction n as [|n IH]; intros s L.
  - destruct s; [reflexivity | cbn in L; lia].
  - destruct s as [|c s]; [reflexivity|]. cbn [universal_newlines]. cbn in L.
    destruct (Ascii.eqb c CR) eqn:Hc.
    + destruct s as [|c' s'']; [reflexivity|]. cbn in L.
      destruct (Ascii.eqb c' LF); unfold no_CR in *; cbn [all_chars];
        (rewrite IH; [reflexivity | cbn; lia]).
    + unfold no_CR in *. cbn [all_chars]. rewrite Hc. cbn. apply IH. lia.
Qed.

Lemma universal_newlines_no_CR (s : string) : no_CR (universal_newlines s) = true.
Proof. now apply (universal_newlines_no_CR_le (String.length s)). Qed.

Lemma readlines_all (p : ascii -> bool) (t : string) :
  all_chars p t = true -> Forall (fun l => all_chars p l = true) (readlines t).
Proof.
  induction t as [|c s IH]; [constructor|]. cbn [all_chars readlines]. intros H.
  apply andb_prop in H as [Hc Hs]. specialize (IH Hs).
  destruct (is_LF c).
  - constructor; [cbn; now rewrite Hc | exact IH].
  - destruct (readlines s) as [|l ls].
    + constructor; [cbn; now rewrite Hc | constructor].
    + inversion IH; subst. constructor; [cbn; now rewrite Hc | assumption].
Qed.

Lemma all_chars_no_terminator_cons c s :
  no_terminator (String c s) = true ->
  Ascii.eqb c CR = false /\ is_LF c = false /\ no_terminator s = true.
Proof.
  unfold no_terminator. cbn [all_chars]. intros H. apply andb_prop in H as [Hc Hs].
  apply negb_true_iff in Hc. unfold is_CR_or_LF in Hc. apply orb_false_elim in Hc as [H1 H2].
  auto.
Qed.

(** How text-mode reading cuts a content into lines. *)
Lemma log_lines_LF (body rest : string) :
  no_terminator body = true ->
  log_lines (body +:+ String LF rest) = (body +:+ String LF "") :: log_lines rest.
Proof.
  unfold log_lines. induction body as [|c b IH]; sapp; intros H.
  - reflexivity.
  - apply all_chars_no_terminator_cons in H as (H1 & H2 & Hb).
    cbn [universal_newlines]. rewrite H1. cbn [readlines]. rewrite H2, (IH Hb). reflexivity.
Qed.

Lemma log_lines_CRLF (body rest : string) :
  no_terminator body = true ->
  log_lines (body +:+ String CR (String LF rest)) = (body +:+ String LF "") :: log_lines rest.
Proof.
  unfold log_lines. induction body as [|c b IH]; sapp; intros H.
  - reflexivity.
  - apply all_chars_no_terminator_cons in H as (H1 & H2 & Hb).
    cbn [universal_newlines]. rewrite H1. cbn [readlines]. rewrite H2, (IH Hb). reflexivity.
Qed.

Lemma log_lines_CR (body rest : string) :
  no_terminator body = true ->
  (forall r, rest <> String LF r) ->
  log_lines (body +:+ String CR rest) = (body +:+ String LF "") :: log_lines rest.
Proof.
  unfold log_lines. intros H N. induction body as [|c b IH]; sapp.
  - cbn [universal_newlines]. change (Ascii.eqb CR CR) with true. cbv iota.
    destruct rest as [|c' r]; [reflexivity|].
    destruct (Ascii.eqb_spec c' LF) as [->|_]; [exfalso; now apply (N r)|].
    reflexivity.
  - apply all_chars_no_terminator_cons in H as (H1 & H2 & Hb).
    cbn [universal_newlines]. rewrite H1. cbn [readlines]. rewrite H2, (IH Hb). reflexivity.
Qed.

Lemma log_lines_last (body : string) :
  no_terminator body = true -> body <> "" -> log_lines body = [body].
Proof.
  unfold log_lines. induction body as [|c b IH]; [contradiction|]. intros H _.
  apply all_chars_no_terminator_cons in H as (H1 & H2 & Hb).
  cbn [universal_newlines]. rewrite H1. cbn [readlines]. rewrite H2.
  destruct b as [|d b]; [reflexivity|]. rewrite (IH Hb); [reflexivity | discriminate].
Qed.

Lemma rstrip_none (p : ascii -> bool) (s : string) :
  all_chars (fun c => negb (p c)) s = true -> rstrip p s = s.
Proof.
  induction s as [|c s IH]; [reflexivity|]. cbn [all_chars rstrip]. intros H.
  apply andb_prop in H as [Hc Hs]. apply negb_true_iff in Hc.
  rewrite (IH Hs), Hc. destruct s; reflexivity.
Qed.

Lemma rstrip_one (p : ascii -> bool) (body : string) (c : ascii) :
  all_chars (fun c => negb (p c)) body = true -> p c = true ->
  rstrip p (body +:+ String c "") = body.
Proof.
  intros H Hc. induction body as [|d b IH]; sapp.
  - cbn. now rewrite Hc.
  - cbn [all_chars] in H. apply andb_prop in H as [Hd Hb]. apply negb_true_iff in Hd.
    cbn [rstrip]. rewrite (IH Hb), Hd. destruct b; reflexivity.
Qed.

(** A line, as read, is a text without CR or LF, followed by LF or, at
    the end of the file, by nothing; the test of the loop is applied to
    that text. *)
Lemma log_lines_shape (content line : string) :
  In line (log_lines content) ->
  exists body, no_terminator body = true
               /\ (line = body +:+ String LF "" \/ (line = body /\ body <> ""))
               /\ rstrip is_CR_or_LF line = body.
Proof.
  intros I. unfold log_lines in I.
  pose proof (readlines_shape (universal_newlines content)) as Sh.
  pose proof (readlines_all _ _ (universal_newlines_no_CR content)) as NC.
  rewrite List.Forall_forall in Sh, NC. specialize (Sh _ I) as (body & Hb & Hl).
  specialize (NC _ I). cbn beta in NC.
  assert (T : no_terminator body = true).
  { assert (Hcr : all_chars (fun c => negb (Ascii.eqb c CR)) body = true).
    { destruct Hl as [->|[-> _]]; [|exact NC].
      rewrite all_chars_app in NC. now apply andb_prop in NC as [? _]. }
    clear - Hb Hcr. unfold no_terminator. induction body as [|c b IH]; [reflexivity|].
    cbn [all_chars] in *. apply andb_prop in Hb as [H1 H2]. apply andb_prop in Hcr as [H3 H4].
    rewrite (IH H2 H4), andb_true_r. unfold is_CR_or_LF, Re.dot, is_LF in *.
    apply negb_true_iff in H1, H3. now rewrite H1, H3. }
  exists body. split; [exact T|]. split; [exact Hl|].
  destruct Hl as [->|[-> _]].
  - now apply rstrip_one.
  - now apply rstrip_none.
Qed.

(** C8, as amended. On an ASCII log, [read_log] returns the lines of the
    log that are records of the marker, put end to end in the order of
    the file, and the empty text when there is none. The lines are those
    text-mode reading yields: a line runs up to the first LF, CR LF or
    CR, and arrives with its characters as they are and LF as its
    terminator, whichever of the three the file has; what follows the
    last terminator is a line without terminator, unless it is empty.
    The grammar is tested on the line without its terminator. A file
    without carriage return is read as it is. *)
Theorem read_log_spec (content mark : string) :
  isascii content = true ->
  (exists sel,
     read_log (Some content) mark = Ret (join "" sel)
     /\ Selects (fun line => exists v a, is_ptd_record (rstrip is_CR_or_LF line) v a mark)
                (log_lines content) sel)
  /\ ((~ exists line v a, record_of content mark line v a) ->
      read_log (Some content) mark = Ret "")
  /\ (forall body rest, no_terminator body = true ->
        (content = body +:+ String LF rest ->
         log_lines content = (body +:+ String LF "") :: log_lines rest)
        /\ (content = body +:+ String CR (String LF rest) ->
            log_lines content = (body +:+ String LF "") :: log_lines rest)
        /\ (content = body +:+ String CR rest -> (forall r, rest <> String LF r) ->
            log_lines content = (body +:+ String LF "") :: log_lines rest)
        /\ (content = body -> body <> "" -> log_lines content = [body]))
  /\ (content = "" -> log_lines content = [])
  /\ (forall line, In line (log_lines content) ->
        exists body, no_terminator body = true
                     /\ (line = body +:+ String LF "" \/ (line = body /\ body <> ""))
                     /\ rstrip is_CR_or_LF line = body)
  /\ (no_CR content = true -> join "" (log_lines content) = content).
Proof.
  intros _. split; [|split; [|split; [|split; [|split]]]].
  - exists (read_log_loop mark (log_lines content)).
    split; [reflexivity | apply read_log_loop_selects].
  - intros H. unfold read_log, open_r. cbn [obind]. fold (log_lines content).
    rewrite (Selects_none _ _ _ (read_log_loop_selects mark (log_lines content))); [reflexivity|].
    intros l I (v & a & R). apply H. exists l, v, a. now split.
  - intros body rest T. split; [|split; [|split]].
    + intros ->. now apply log_lines_LF.
    + intros ->. now apply log_lines_CRLF.
    + intros -> N. now apply log_lines_CR.
    + intros -> N. now apply log_lines_last.
  - intros ->. reflexivity.
  - apply log_lines_shape.
  - intros H. unfold log_lines. rewrite readlines_join. now apply universal_newlines_id.
Qed.

(** The one line of [log_crlf], which the file ends with CR LF, is read
    ended with LF. *)
Lemma read_log_spec_witness :
  isascii log_crlf = true
  /\ log_lines log_crlf
     = ("Time,t0,Watts,1,Volts,1,Amps,1,PF,1,Mark,m" +:+ String LF "") :: log_lines "".
Proof.
  split; [reflexivity|].
  apply (proj1 (proj2 (proj1 (proj2 (proj2 (read_log_spec log_crlf "m" eq_refl)))
                         "Time,t0,Watts,1,Volts,1,Amps,1,PF,1,Mark,m" "" eq_refl))).
  reflexivity.
Defined.

(** C8, as stated, fails on [log_crlf]: its one line is a record of
    marker [m] and ends with CR LF, and [read_log] returns it ended with
    LF alone, which is not the line of the file. *)
Lemma read_log_crlf_counterexample :
  log_crlf = "Time,t0,Watts,1,Volts,1,Amps,1,PF,1,Mark,m" +:+ String CR (String LF "")
  /\ read_log (Some log_crlf) "m"
     = Ret ("Time,t0,Watts,1,Volts,1,Amps,1,PF,1,Mark,m" +:+ String LF "")
  /\ read_log (Some log_crlf) "m" <> Ret log_crlf.
Proof.
  split; [reflexivity|]. split; [vm_compute; reflexivity|].
  vm_compute. discriminate.
Qed.

(** ** The daemon supervisor *)

Lemma sent_to_daemon_app (a b : list Event) :
  sent_to_daemon (a ++ b) = sent_to_daemon a ++ sent_to_daemon b.
Proof.
  induction a as [|e a IH]; [reflexivity|].
  destruct e; cbn; rewrite ?IH; reflexivity.
Qed.

Lemma launched_app (a b : list Event) : launched (a ++ b) = launched a ++ launched b.
Proof.
  induction a as [|e a IH]; [reflexivity|].
  destruct e; cbn; rewrite ?IH; reflexivity.
Qed.

Lemma sent_to_client_app (a b : list Event) :
  sent_to_client (a ++ b) = sent_to_client a ++ sent_to_client b.
Proof.
  induction a as [|e a IH]; [reflexivity|].
  destruct e; cbn; rewrite ?IH; reflexivity.
Qed.

(** [cmd] on an open and on a missing control connection. *)
Lemma cmd_connected (line : string) (p : Ptd.t) (w : World) (h : nat) :
  Ptd._proto p = Some h ->
  Ptd.cmd line (p, w) = (Ret (next_reply w), (p, exchange line w)).
Proof.
  intros H. unfold Ptd.cmd, bind. cbn [Ptd.self fst snd]. rewrite H.
  unfold next_reply, exchange. destruct w as [cs ds ws cl st up win lf evs].
  destruct ds as [|x ds]; cbn; rewrite <- app_assoc; reflexivity.
Qed.

Lemma cmd_disconnected (line : string) (p : Ptd.t) (w : World) :
  Ptd._proto p = None -> Ptd.cmd line (p, w) = (Ret None, (p, w)).
Proof. intros H. unfold Ptd.cmd, bind. cbn [Ptd.self fst snd]. now rewrite H. Qed.

Lemma cmd_self (line : string) (s : Ptd.State) :
  fst (snd (Ptd.cmd line s)) = fst s /\ exists r, fst (Ptd.cmd line s) = Ret r.
Proof.
  destruct s as [p w]. destruct (Ptd._proto p) as [h|] eqn:E.
  - rewrite (cmd_connected _ _ _ _ E). eauto.
  - rewrite (cmd_disconnected _ _ _ E). eauto.
Qed.

Lemma cmds_self (lines : list string) (s : Ptd.State) : fst (cmds lines s) = fst s.
Proof.
  revert s. induction lines as [|l ls IH]; intros s; cbn [cmds]; [reflexivity|].
  rewrite IH. apply cmd_self.
Qed.

Lemma start_eq (p : Ptd.t) (w : World) :
  Ptd.start (p, w) =
  match Ptd._process p with
  | Some _ => (Ret false, (p, w))
  | None =>
      let p1 := Ptd.set_process (Some (length (events w))) p in
      let w1 := set_events (events w ++ [Popen (Ptd._command p) (negb (win32 w))]) w in
      match Ptd.connect_loop 100 (p1, w1) with
      | (Raise e, s) => (Raise e, s)
      | (Ret None, s) =>
          match Ptd.stop s with
          | (Ret _, s') => (Ret false, s')
          | (Raise e, s') => (Raise e, s')
          end
      | (Ret (Some sock), s) =>
          let s3 := (Ptd.set_proto (Some sock) (Ptd.set_socket (Some sock) (fst s)), snd s) in
          match Ptd.cmd "Hello" s3 with
          | (Raise e, s4) => (Raise e, s4)
          | (Ret hello, s4) =>
              if is_str hello "Hello, PTDaemon here!" then
                match Ptd.cmd "Identify" s4 with
                | (Raise e, s5) => (Raise e, s5)
                | (Ret _, s5) =>
                    match Ptd._get_initial_range s5 with
                    | (Raise e, s6) => (Raise e, s6)
                    | (Ret _, s6) => (Ret true, s6)
                    end
                end
              else (Ret false, s4)
          end
      end
  end.
Proof.
  unfold Ptd.start, bind. cbn [Ptd.self fst snd].
  destruct (Ptd._process p); [reflexivity|].
  cbn -[Ptd.connect_loop Ptd.stop Ptd.cmd Ptd._get_initial_range is_str].
  destruct (Ptd.connect_loop 100 _) as [[[sock|]|e] s]; try reflexivity.
  cbn -[Ptd.connect_loop Ptd.stop Ptd.cmd Ptd._get_initial_range is_str].
  destruct (Ptd.cmd "Hello" _) as [[hello|e] s4]; [|reflexivity].
  destruct (is_str hello _); reflexivity.
Qed.


Lemma get_initial_range_eq (p : Ptd.t) (w : World) (h : nat) :
  Ptd._proto p = Some h ->
  Ptd._get_initial_range (p, w) =
  match next_reply w with
  | None | Some EmptyString => (Raise (SystemExit (Some 1)), (p, exchange "RR" w))
  | Some rr =>
      match Ptd.get_range_from_ranges_list (split is_comma rr) 1 with
      | Raise e => (Raise e, (p, exchange "RR" w))
      | Ret amps =>
          match Ptd.get_range_from_ranges_list (split is_comma rr) 3 with
          | Raise e => (Raise e, (Ptd.set_init_Amps (Some amps) p, exchange "RR" w))
          | Ret volts =>
              (Ret tt, (Ptd.set_init_Volts (Some volts) (Ptd.set_init_Amps (Some amps) p),
                        exchange "RR" w))
          end
      end
  end.
Proof.
  intros H. unfold Ptd._get_initial_range, bind. rewrite (cmd_connected _ _ _ _ H).
  destruct (next_reply w) as [[|c rr]|]; reflexivity.
Qed.

(** The three parts of [stop]. *)
Lemma restore_and_disconnect_eq (p : Ptd.t) (w : World) :
  Ptd.restore_and_disconnect (p, w) =
  (Ret tt,
   match Ptd._proto p with
   | Some _ =>
       (Ptd.set_proto None p,
        exchange ("SR,A," +:+ str_opt (Ptd._init_Amps p))
          (exchange ("SR,V," +:+ str_opt (Ptd._init_Volts p)) (exchange "Stop" w)))
   | None => (p, w)
   end).
Proof.
  unfold Ptd.restore_and_disconnect, bind. cbn [Ptd.self fst snd].
  destruct (Ptd._proto p) as [h|] eqn:E; [|reflexivity].
  rewrite (cmd_connected _ _ _ _ E). rewrite (cmd_connected _ _ _ _ E).
  rewrite (cmd_connected _ _ _ _ E). reflexivity.
Qed.

Lemma close_socket_eq (p : Ptd.t) (w : World) :
  Ptd.close_socket (p, w) =
  (Ret tt,
   match Ptd._socket p with
   | Some _ => (Ptd.set_socket None p, set_events (events w ++ [SocketClose]) w)
   | None => (p, w)
   end).
Proof.
  unfold Ptd.close_socket, bind. cbn [Ptd.self fst snd].
  destruct (Ptd._socket p); reflexivity.
Qed.

Lemma terminate_process_eq (p : Ptd.t) (w : World) :
  Ptd.terminate_process (p, w) =
  (Ret tt,
   match Ptd._process p with
   | Some _ =>
       let timed_out := match waits w with [] => false | b :: _ => b end in
       (Ptd.set_process None p,
        set_events (events w ++ Terminate :: Wait timed_out ::
                      (if timed_out then [Kill; WaitForever] else []))
                   (set_waits (tl (waits w)) w))
   | None => (p, w)
   end).
Proof.
  unfold Ptd.terminate_process, bind. cbn [Ptd.self fst snd].
  destruct (Ptd._process p); [|reflexivity].
  destruct w as [cs ds ws cl st up win lf evs].
  destruct ws as [|[] ws]; cbn; rewrite <- ?app_assoc; reflexivity.
Qed.

Lemma exchange_events (line : string) (w : World) :
  events (exchange line w) = events w ++ [ToDaemon line; FromDaemon (next_reply w)].
Proof. unfold exchange, next_reply. destruct (daemon w); reflexivity. Qed.

Lemma stop_eq (s : Ptd.State) :
  Ptd.stop s =
  (Ret tt, snd (Ptd.terminate_process (snd (Ptd.close_socket (snd (Ptd.restore_and_disconnect s)))))).
Proof.
  destruct s as [p w]. unfold Ptd.stop, bind. rewrite restore_and_disconnect_eq.
  cbn [snd].
  match goal with |- context [Ptd.close_socket ?x] => destruct x as [p1 w1] end.
  rewrite close_socket_eq. cbn [snd].
  match goal with |- context [Ptd.terminate_process ?x] => destruct x as [p2 w2] end.
  rewrite terminate_process_eq. reflexivity.
Qed.

(** [stop] always returns; afterwards the object holds no handle and its
    other attributes are as before; it sends the three lines when there
    was a control connection and nothing otherwise; it launches nothing
    and sends nothing to the client. *)
Lemma stop_spec (p : Ptd.t) (w : World) :
  exists w',
    Ptd.stop (p, w)
    = (Ret tt, (Ptd.set_process None (Ptd.set_socket None (Ptd.set_proto None p)), w'))
    /\ sent_to_daemon (events w') =
       sent_to_daemon (events w) ++
       match Ptd._proto p with
       | Some _ => ["Stop"; "SR,V," +:+ str_opt (Ptd._init_Volts p);
                    "SR,A," +:+ str_opt (Ptd._init_Amps p)]
       | None => []
       end
    /\ launched (events w') = launched (events w)
    /\ sent_to_client (events w') = sent_to_client (events w).
Proof.
  rewrite stop_eq, restore_and_disconnect_eq. cbn [snd].
  set (w1 := match Ptd._proto p with
             | Some _ => exchange ("SR,A," +:+ str_opt (Ptd._init_Amps p))
                           (exchange ("SR,V," +:+ str_opt (Ptd._init_Volts p))
                              (exchange "Stop" w))
             | None => w
             end).
  assert (E1 : match Ptd._proto p with
               | Some _ => (Ptd.set_proto None p,
                            exchange ("SR,A," +:+ str_opt (Ptd._init_Amps p))
                              (exchange ("SR,V," +:+ str_opt (Ptd._init_Volts p))
                                 (exchange "Stop" w)))
               | None => (p, w)
               end = (Ptd.set_proto None p, w1)).
  { subst w1. destruct p as [pr so [h|] c pt ia iv]; reflexivity. }
  rewrite E1. clear E1. rewrite close_socket_eq. cbn [snd].
  set (w2 := match Ptd._socket p with
             | Some _ => set_events (events w1 ++ [SocketClose]) w1
             | None => w1
             end).
  assert (E2 : match Ptd._socket (Ptd.set_proto None p) with
               | Some _ => (Ptd.set_socket None (Ptd.set_proto None p),
                            set_events (events w1 ++ [SocketClose]) w1)
               | None => (Ptd.set_proto None p, w1)
               end = (Ptd.set_socket None (Ptd.set_proto None p), w2)).
  { subst w2. destruct p as [pr [so|] po c pt ia iv]; reflexivity. }
  rewrite E2. clear E2. rewrite terminate_process_eq. cbn [snd].
  set (p2 := Ptd.set_socket None (Ptd.set_proto None p)).
  set (b := match waits w2 with [] => false | b :: _ => b end).
  set (w3 := match Ptd._process p with
             | Some _ => set_events (events w2 ++ Terminate :: Wait b ::
                                       (if b then [Kill; WaitForever] else []))
                                    (set_waits (tl (waits w2)) w2)
             | None => w2
             end).
  exists w3. split; [|split; [|split]].
  - f_equal. subst w3 p2 b. destruct p as [[pr|] so po c pt ia iv]; reflexivity.
  - assert (S3 : sent_to_daemon (events w3) = sent_to_daemon (events w2)).
    { subst w3. destruct (Ptd._process p); [|reflexivity]. cbn.
      rewrite sent_to_daemon_app. destruct b; cbn; now rewrite app_nil_r. }
    assert (S2 : sent_to_daemon (events w2) = sent_to_daemon (events w1)).
    { subst w2. destruct (Ptd._socket p); [|reflexivity]. cbn.
      rewrite sent_to_daemon_app. cbn. now rewrite app_nil_r. }
    rewrite S3, S2. subst w1. destruct (Ptd._proto p); [|now rewrite app_nil_r].
    rewrite !exchange_events, !sent_to_daemon_app. cbn. now rewrite <- !app_assoc.
  - assert (S3 : launched (events w3) = launched (events w2)).
    { subst w3. destruct (Ptd._process p); [|reflexivity]. cbn.
      rewrite launched_app. destruct b; cbn; now rewrite app_nil_r. }
    assert (S2 : launched (events w2) = launched (events w1)).
    { subst w2. destruct (Ptd._socket p); [|reflexivity]. cbn.
      rewrite launched_app. cbn. now rewrite app_nil_r. }
    rewrite S3, S2. subst w1. destruct (Ptd._proto p); [|reflexivity].
    rewrite !exchange_events, !launched_app. cbn. now rewrite !app_nil_r.
  - assert (S3 : sent_to_client (events w3) = sent_to_client (events w2)).
    { subst w3. destruct (Ptd._process p); [|reflexivity]. cbn.
      rewrite sent_to_client_app. destruct b; cbn; now rewrite app_nil_r. }
    assert (S2 : sent_to_client (events w2) = sent_to_client (events w1)).
    { subst w2. destruct (Ptd._socket p); [|reflexivity]. cbn.
      rewrite sent_to_client_app. cbn. now rewrite app_nil_r. }
    rewrite S3, S2. subst w1. destruct (Ptd._proto p); [|reflexivity].
    rewrite !exchange_events, !sent_to_client_app. cbn. now rewrite !app_nil_r.
Qed.

(** [stop] on an object that holds no handle changes nothing. *)
Lemma stop_idle (p : Ptd.t) (w : World) :
  Ptd._proto p = None -> Ptd._socket p = None -> Ptd._process p = None ->
  Ptd.stop (p, w) = (Ret tt, (p, w)).
Proof.
  intros H1 H2 H3. rewrite stop_eq, restore_and_disconnect_eq, H1. cbn [snd].
  rewrite close_socket_eq, H2. cbn [snd]. rewrite terminate_process_eq, H3. reflexivity.
Qed.

(** ** The retry loop of [start] *)

Lemma connect_loop_S (n : nat) (p : Ptd.t) (w : World) :
  Ptd.connect_loop (S n) (p, w) =
  let r := match connects w with [] => Refused false | r :: _ => r end in
  let w1 := set_events
              (events w ++ [Connect (Ptd._port p)
                              (match r with Connected => true | Refused _ => false end)])
              (set_connects (tl (connects w)) w) in
  match r with
  | Connected => (Ret (Some (length (events w))), (p, w1))
  | Refused true => (Raise (SystemExit None), (p, w1))
  | Refused false => Ptd.connect_loop n (p, set_events (events w1 ++ [Sleep 1]) w1)
  end.
Proof.
  destruct w as [cs ds ws cl st up win lf evs].
  destruct cs as [|[|[]] cs]; reflexivity.
Qed.

(** The retry loop touches neither the object nor the daemon: it only
    consumes answers to [connect()] and waits. *)
Lemma connect_loop_frame (n : nat) : forall p w r s',
  Ptd.connect_loop n (p, w) = (r, s') ->
  fst s' = p
  /\ daemon (snd s') = daemon w /\ waits (snd s') = waits w
  /\ logfile (snd s') = logfile w /\ win32 (snd s') = win32 w
  /\ sent_to_daemon (events (snd s')) = sent_to_daemon (events w)
  /\ launched (events (snd s')) = launched (events w)
  /\ sent_to_client (events (snd s')) = sent_to_client (events w).
Proof.
  induction n as [|n IH]; intros p w r s' H.
  - injection H as <- <-. cbn. auto 10.
  - rewrite connect_loop_S in H. cbv zeta in H.
    destruct (match connects w with [] => Refused false | r :: _ => r end) as [|[]].
    + injection H as <- <-. cbn.
      rewrite sent_to_daemon_app, launched_app, sent_to_client_app. cbn.
      rewrite !app_nil_r. auto 10.
    + injection H as <- <-. cbn.
      rewrite sent_to_daemon_app, launched_app, sent_to_client_app. cbn.
      rewrite !app_nil_r. auto 10.
    + apply IH in H as (-> & Hd & Hw & Hl & Hwin & Hs & Hla & Hc). cbn in *.
      rewrite !sent_to_daemon_app in Hs. rewrite !launched_app in Hla.
      rewrite !sent_to_client_app in Hc. cbn in *. rewrite !app_nil_r in *. auto 10.
Qed.

Lemma connect_loop_connected (n : nat) : forall p w,
  connects_within n (connects w) = true ->
  exists sock s', Ptd.connect_loop n (p, w) = (Ret (Some sock), s').
Proof.
  induction n as [|n IH]; intros p w H; [discriminate|].
  rewrite connect_loop_S. cbv zeta. cbn [connects_within] in H.
  destruct (connects w) as [|[|[]] cs]; try discriminate.
  - eauto.
  - apply IH. exact H.
Qed.

Lemma connect_loop_refused (n : nat) : forall p w,
  all_refused n (connects w) = true ->
  exists s', Ptd.connect_loop n (p, w) = (Ret None, s').
Proof.
  induction n as [|n IH]; intros p w H; [cbn; eauto|].
  rewrite connect_loop_S. cbv zeta. cbn [all_refused] in H.
  destruct (connects w) as [|[|[]] cs] eqn:E; try discriminate.
  - apply IH. cbn. destruct n; reflexivity.
  - apply IH. exact H.
Qed.

(** ** [start] *)

(** A [start] that returns [True] has launched the process, made the
    connection and captured both ranges from the answer to its [RR]. *)
Lemma start_true (p : Ptd.t) (w : World) (s1 : Ptd.State) :
  Ptd.start (p, w) = (Ret true, s1) ->
  Ptd._process p = None
  /\ exists sock w5 rr amps volts,
       fst s1 = Ptd.set_init_Volts (Some volts) (Ptd.set_init_Amps (Some amps)
                  (Ptd.set_proto (Some sock) (Ptd.set_socket (Some sock)
                     (Ptd.set_process (Some (length (events w))) p))))
       /\ snd s1 = exchange "RR" w5
       /\ next_reply w5 = Some rr
       /\ Ptd.get_range_from_ranges_list (split is_comma rr) 1 = Ret amps
       /\ Ptd.get_range_from_ranges_list (split is_comma rr) 3 = Ret volts.
Proof.
  rewrite start_eq. destruct (Ptd._process p); [discriminate|]. cbv zeta.
  destruct (Ptd.connect_loop 100 _) as [[[sock|]|e] [p2 w2]] eqn:L; try discriminate.
  2: { destruct (Ptd.stop _) as [[|] ?]; discriminate. }
  apply connect_loop_frame in L as (Hp & _). cbn [fst snd] in *. subst p2.
  set (p3 := Ptd.set_proto (Some sock) _).
  assert (E3 : Ptd._proto p3 = Some sock) by reflexivity.
  rewrite (cmd_connected _ _ _ _ E3).
  destruct (is_str _ _); [|discriminate].
  rewrite (cmd_connected _ _ _ _ E3), (get_initial_range_eq _ _ _ E3).
  intros H. split; [reflexivity|].
  destruct (next_reply _) as [[|c rr]|] eqn:N; try discriminate.
  destruct (Ptd.get_range_from_ranges_list _ 1) as [amps|] eqn:A; [|discriminate].
  destruct (Ptd.get_range_from_ranges_list _ 3) as [volts|] eqn:V; [|discriminate].
  injection H as <-. exists sock. eexists. exists (String c rr), amps, volts.
  split; [reflexivity|]. split; [reflexivity|]. auto.
Qed.

(** A [start] on an object that holds a process returns [False] and does
    nothing. *)
Lemma start_running (p : Ptd.t) (w : World) :
  Ptd.running p = true -> Ptd.start (p, w) = (Ret false, (p, w)).
Proof.
  unfold Ptd.running. intros H. rewrite start_eq.
  destruct (Ptd._process p); [reflexivity | discriminate].
Qed.

(** ** The outcomes of [start] *)

Lemma next_reply_at (w : World) : next_reply w = reply_at 0 w.
Proof. unfold next_reply, reply_at. destruct (daemon w); reflexivity. Qed.

Lemma reply_at_exchange (i : nat) (line : string) (w : World) :
  reply_at i (exchange line w) = reply_at (S i) w.
Proof.
  destruct w as [cs ds ws cl st up win lf evs]. destruct ds; reflexivity.
Qed.

Lemma sent_to_client_exchange (line : string) (w : World) :
  sent_to_client (events (exchange line w)) = sent_to_client (events w).
Proof. rewrite exchange_events, sent_to_client_app. cbn. apply app_nil_r. Qed.

Lemma launched_exchange (line : string) (w : World) :
  launched (events (exchange line w)) = launched (events w).
Proof. rewrite exchange_events, launched_app. cbn. apply app_nil_r. Qed.

Lemma start_idle_eq (p : Ptd.t) (w : World) :
  Ptd._process p = None ->
  Ptd.start (p, w) =
  match Ptd.connect_loop 100 (launching p w) with
  | (Raise e, s) => (Raise e, s)
  | (Ret None, s) =>
      match Ptd.stop s with
      | (Ret _, s') => (Ret false, s')
      | (Raise e, s') => (Raise e, s')
      end
  | (Ret (Some sock), s) =>
      let s3 := (Ptd.set_proto (Some sock) (Ptd.set_socket (Some sock) (fst s)), snd s) in
      match Ptd.cmd "Hello" s3 with
      | (Raise e, s4) => (Raise e, s4)
      | (Ret hello, s4) =>
          if is_str hello "Hello, PTDaemon here!" then
            match Ptd.cmd "Identify" s4 with
            | (Raise e, s5) => (Raise e, s5)
            | (Ret _, s5) =>
                match Ptd._get_initial_range s5 with
                | (Raise e, s6) => (Raise e, s6)
                | (Ret _, s6) => (Ret true, s6)
                end
            end
          else (Ret false, s4)
      end
  end.
Proof. intros H. rewrite start_eq, H. reflexivity. Qed.

(** The daemon is reached, greets, and gives no answer or an empty one to
    [RR]: [exit(1)]. *)
Lemma start_rr_missing (p : Ptd.t) (w : World) :
  Ptd._process p = None ->
  connects_within 100 (connects w) = true ->
  reply_at 0 w = Some "Hello, PTDaemon here!" ->
  reply_at 2 w = None \/ reply_at 2 w = Some EmptyString ->
  exists s', Ptd.start (p, w) = (Raise (SystemExit (Some 1)), s')
             /\ sent_to_client (events (snd s')) = sent_to_client (events w).
Proof.
  intros Hp Hc Hh Hr. rewrite (start_idle_eq _ _ Hp).
  destruct (connect_loop_connected 100 (fst (launching p w)) (snd (launching p w)) Hc)
    as (sock & [p2 w2] & L).
  change (fst (launching p w), snd (launching p w)) with (launching p w) in L.
  rewrite L. cbv zeta. cbn [fst snd].
  apply connect_loop_frame in L as (_ & Hd & _ & _ & _ & _ & _ & Hcl). cbn [snd] in *.
  set (p3 := Ptd.set_proto (Some sock) _).
  assert (E3 : Ptd._proto p3 = Some sock) by reflexivity.
  assert (R : forall i, reply_at i w2 = reply_at i w).
  { intros i. unfold reply_at. now rewrite Hd. }
  assert (Hs : is_str (Some "Hello, PTDaemon here!") "Hello, PTDaemon here!" = true)
    by reflexivity.
  rewrite (cmd_connected _ _ _ _ E3), next_reply_at, R, Hh, Hs.
  rewrite (cmd_connected _ _ _ _ E3), (get_initial_range_eq _ _ _ E3).
  rewrite next_reply_at, !reply_at_exchange, R.
  assert (C : sent_to_client (events (exchange "RR" (exchange "Identify" (exchange "Hello" w2))))
              = sent_to_client (events w)).
  { rewrite !sent_to_client_exchange, Hcl. unfold launching. cbn.
    rewrite sent_to_client_app. cbn. apply app_nil_r. }
  destruct Hr as [-> | ->]; eauto.
Qed.

(** The daemon is reached and does not greet as PTDaemon: [False]. *)
Lemma start_bad_handshake (p : Ptd.t) (w : World) :
  Ptd._process p = None ->
  connects_within 100 (connects w) = true ->
  is_str (reply_at 0 w) "Hello, PTDaemon here!" = false ->
  exists s', Ptd.start (p, w) = (Ret false, s')
             /\ sent_to_client (events (snd s')) = sent_to_client (events w).
Proof.
  intros Hp Hc Hh. rewrite (start_idle_eq _ _ Hp).
  destruct (connect_loop_connected 100 (fst (launching p w)) (snd (launching p w)) Hc)
    as (sock & [p2 w2] & L).
  change (fst (launching p w), snd (launching p w)) with (launching p w) in L.
  rewrite L. cbv zeta. cbn [fst snd].
  apply connect_loop_frame in L as (_ & Hd & _ & _ & _ & _ & _ & Hcl). cbn [snd] in *.
  set (p3 := Ptd.set_proto (Some sock) _).
  assert (E3 : Ptd._proto p3 = Some sock) by reflexivity.
  assert (R : reply_at 0 w2 = reply_at 0 w).
  { unfold reply_at. now rewrite Hd. }
  rewrite (cmd_connected _ _ _ _ E3), next_reply_at, R, Hh.
  eexists. split; [reflexivity|]. cbn [snd].
  rewrite sent_to_client_exchange, Hcl. unfold launching. cbn.
  rewrite sent_to_client_app. cbn. apply app_nil_r.
Qed.

(** The daemon is reached and does not greet as PTDaemon: [start]
    returns [False] and leaves the connection open and the two range
    attributes as they were. *)
Lemma start_bad_handshake_state (p : Ptd.t) (w : World) :
  Ptd._process p = None ->
  connects_within 100 (connects w) = true ->
  is_str (reply_at 0 w) "Hello, PTDaemon here!" = false ->
  exists s1 sock,
    Ptd.start (p, w) = (Ret false, s1)
    /\ Ptd._proto (fst s1) = Some sock
    /\ Ptd._init_Volts (fst s1) = Ptd._init_Volts p
    /\ Ptd._init_Amps (fst s1) = Ptd._init_Amps p.
Proof.
  intros Hp Hc Hh. rewrite (start_idle_eq _ _ Hp).
  destruct (connect_loop_connected 100 (fst (launching p w)) (snd (launching p w)) Hc)
    as (sock & [p2 w2] & L).
  change (fst (launching p w), snd (launching p w)) with (launching p w) in L.
  rewrite L. cbv zeta. cbn [fst snd].
  apply connect_loop_frame in L as (Hp2 & Hd & _). cbn [fst snd] in *.
  set (p3 := Ptd.set_proto (Some sock) _).
  assert (E3 : Ptd._proto p3 = Some sock) by reflexivity.
  assert (R : reply_at 0 w2 = reply_at 0 w).
  { unfold reply_at. now rewrite Hd. }
  rewrite (cmd_connected _ _ _ _ E3), next_reply_at, R, Hh.
  eexists. exists sock. split; [reflexivity|]. cbn [fst snd].
  split; [exact E3|]. subst p3 p2. split; reflexivity.
Qed.

(** The daemon is not reached in a hundred attempts: [stop], then
    [False]. *)
Lemma start_unreachable (p : Ptd.t) (w : World) :
  Ptd._process p = None ->
  all_refused 100 (connects w) = true ->
  exists s', Ptd.start (p, w) = (Ret false, s')
             /\ Ptd.running (fst s') = false
             /\ sent_to_client (events (snd s')) = sent_to_client (events w).
Proof.
  intros Hp Hc. rewrite (start_idle_eq _ _ Hp).
  destruct (connect_loop_refused 100 (fst (launching p w)) (snd (launching p w)) Hc)
    as ([p2 w2] & L).
  change (fst (launching p w), snd (launching p w)) with (launching p w) in L.
  rewrite L.
  apply connect_loop_frame in L as (_ & _ & _ & _ & _ & _ & _ & Hcl). cbn [snd] in *.
  destruct (stop_spec p2 w2) as (w' & -> & _ & _ & Hcl').
  eexists. split; [reflexivity|]. split; [reflexivity|]. cbn [snd].
  rewrite Hcl', Hcl. unfold launching. cbn.
  rewrite sent_to_client_app. cbn. apply app_nil_r.
Qed.

(** ** Commands of the session *)

Lemma split_length (sep : ascii -> bool) (s : string) : (length (split sep s) =? 0)%nat = false.
Proof.
  induction s as [|c s IH]; [reflexivity|]. cbn [split].
  destruct (sep c); [reflexivity|]. destruct (split sep s); reflexivity.
Qed.

Section Session.
Variable check_label : string -> bool.

(** [init]: the time is synchronised, then the daemon is started. *)
Lemma handle_init_eq (cmd : string) (srv : Server.t) (w : World) :
  hd EmptyString (split is_comma cmd) = "init" ->
  Server._handle_cmd check_label cmd (srv, w) =
  match Ptd.start (Server._ptd srv,
                   set_events (events w ++ [NtpSync (ntp_server (Server._config srv))]) w) with
  | (Ret started, (p', w')) =>
      (Ret (if started then "OK" else "Error"), (Server.set_ptd p' srv, w'))
  | (Raise e, (p', w')) => (Raise e, (Server.set_ptd p' srv, w'))
  end.
Proof.
  intros H. unfold Server._handle_cmd. rewrite split_length, H.
  cbn [String.eqb Ascii.eqb Bool.eqb].
  unfold bind, Server.on_ptd. cbn [Server.self Server.event emit with_world modify
    Server.world Server.set_world fst snd].
  destruct (Ptd.start _) as [[[]|e] [p' w']]; reflexivity.
Qed.

(** One turn of the loop, by the outcome of the handler. *)
Lemma turn_eq (cmd : string) (st : Server.State) :
  Server.turn check_label cmd st =
  match Server._handle_cmd check_label cmd st with
  | (Ret reply, (srv, w)) =>
      (Ret (Server.Replied reply), (srv, set_events (events w ++ [ToClient reply]) w))
  | (Raise KeyboardInterrupt, st') => (Ret Server.Break, st')
  | (Raise e, (srv, w)) =>
      if is_Exception e then
        (Ret (Server.Replied "Error: exception"),
         (srv, set_events (events w ++ [ToClient "Error: exception"]) w))
      else (Raise e, (srv, w))
  end.
Proof.
  unfold Server.turn.
  destruct (Server._handle_cmd check_label cmd st) as [[reply|e] [srv w]]; [reflexivity|].
  destruct e; reflexivity.
Qed.

Lemma command_loop_cons (cmd : string) (rest : list string) (st : Server.State) :
  Server.command_loop check_label (cmd :: rest) st =
  match Server.turn check_label cmd st with
  | (Ret (Server.Replied _), st') => Server.command_loop check_label rest st'
  | (Ret Server.Break, st') => (Ret tt, st')
  | (Raise e, st') => (Raise e, st')
  end.
Proof.
  cbn [Server.command_loop]. unfold bind.
  destruct (Server.turn check_label cmd st) as [[[]|] ?]; reflexivity.
Qed.

(** [init] answers by the result of [start]; an exit raised by [start]
    goes through the loop unanswered. *)
Lemma turn_init (cmd : string) (srv : Server.t) (w : World) :
  hd EmptyString (split is_comma cmd) = "init" ->
  Server.turn check_label cmd (srv, w) =
  match Ptd.start (Server._ptd srv,
                   set_events (events w ++ [NtpSync (ntp_server (Server._config srv))]) w) with
  | (Ret started, (p', w')) =>
      let reply := if started then "OK" else "Error" in
      (Ret (Server.Replied reply),
       (Server.set_ptd p' srv, set_events (events w' ++ [ToClient reply]) w'))
  | (Raise KeyboardInterrupt, (p', w')) => (Ret Server.Break, (Server.set_ptd p' srv, w'))
  | (Raise e, (p', w')) =>
      if is_Exception e then
        (Ret (Server.Replied "Error: exception"),
         (Server.set_ptd p' srv, set_events (events w' ++ [ToClient "Error: exception"]) w'))
      else (Raise e, (Server.set_ptd p' srv, w'))
  end.
Proof.
  intros H. rewrite turn_eq, (handle_init_eq _ _ _ H).
  destruct (Ptd.start _) as [[[]|e] [p' w']]; reflexivity.
Qed.

(** An exception that leaves the loop leaves [handle_connection] after
    [stop], then [run_server], then the script after [close]. *)
Lemma finally_stop {A} (body : M Server.State A) (st : Server.State) :
  exists st', finally body (Server.on_ptd Ptd.stop) st = (fst (body st), st')
    /\ sent_to_client (events (snd st')) = sent_to_client (events (snd (snd (body st)))).
Proof.
  unfold finally. destruct (body st) as [r [srv w]]. unfold Server.on_ptd. cbn [fst snd].
  destruct (stop_spec (Server._ptd srv) w) as (w' & -> & _ & _ & Hc).
  eexists. split; [reflexivity|]. exact Hc.
Qed.

Lemma handle_connection_raises (incoming : list string) (st st' : Server.State) e :
  Server.command_loop check_label incoming (snd (Server.reset_session st)) = (Raise e, st') ->
  exists st'', Server.handle_connection check_label incoming st = (Raise e, st'')
    /\ sent_to_client (events (snd st'')) = sent_to_client (events (snd st')).
Proof.
  intros H. unfold Server.handle_connection, bind.
  assert (R : exists st1, Server.reset_session st = (Ret tt, st1)).
  { destruct st as [srv w]. unfold Server.reset_session, bind.
    cbn [Server.update modify Server.world read_world fst snd].
    destruct (logfile w); eexists; reflexivity. }
  destruct R as [st1 R]. rewrite R in *. cbn [snd] in H.
  destruct (finally_stop (Server.command_loop check_label incoming) st1) as (st'' & E & Hc).
  rewrite H in E, Hc. cbn [fst snd] in *. eauto.
Qed.

Lemma run_server_raises (c : list string) (cs : list (list string)) (st st' : Server.State) e :
  Server.handle_connection check_label c st = (Raise e, st') ->
  Server.run_server check_label (c :: cs) st = (Raise e, st').
Proof. intros H. cbn [Server.run_server]. unfold bind. now rewrite H. Qed.

Lemma main_raises (config : ServerConfig) (cs : list (list string)) (w : World)
    (st' : Server.State) code :
  Server.run_server check_label cs (Server.__init__ config, w) = (Raise (SystemExit code), st') ->
  fst (Server.main check_label config cs w) = Raise (SystemExit code).
Proof.
  intros H. unfold Server.main, Server.close.
  destruct (finally_stop (Server.serve check_label cs) (Server.__init__ config, w))
    as (st'' & E & _).
  rewrite E. unfold Server.serve. rewrite H. reflexivity.
Qed.

End Session.

(** ** The supervisor's life cycle *)

Lemma set_ptd_same (srv : Server.t) : Server.set_ptd (Server._ptd srv) srv = srv.
Proof. destruct srv; reflexivity. Qed.

Lemma set_events_twice (a b : list Event) (w : World) :
  set_events a (set_events b w) = set_events a w.
Proof. destruct w; reflexivity. Qed.

(** C3, as amended. After a [start] that returned [True], and whatever
    lines were sent to the daemon since, the supervisor holds its process;
    a [start] on a supervisor that holds a process launches nothing and
    changes nothing, neither the object nor the world, and returns
    [False]; so a repeated [init] synchronises the time and replies
    [Error]. *)
Theorem start_again_is_refused :
  (forall s s1, Ptd.start s = (Ret true, s1) -> Ptd.running (fst s1) = true)
  /\ (forall lines s, Ptd.running (fst (cmds lines s)) = Ptd.running (fst s))
  /\ (forall p w, Ptd.running p = true -> Ptd.start (p, w) = (Ret false, (p, w)))
  /\ (forall check_label cmd srv w,
        hd EmptyString (split is_comma cmd) = "init" ->
        Ptd.running (Server._ptd srv) = true ->
        Server.turn check_label cmd (srv, w) =
        (Ret (Server.Replied "Error"),
         (srv, set_events (events w ++ [NtpSync (ntp_server (Server._config srv));
                                         ToClient "Error"]) w))).
Proof.
  split; [|split; [|split]].
  - intros [p w] s1 H. apply start_true in H as (_ & sock & w5 & rr & amps & volts & -> & _).
    reflexivity.
  - intros lines s. now rewrite cmds_self.
  - exact start_running.
  - intros check_label cmd srv w Hc Hr. rewrite (turn_init _ _ _ _ Hc).
    rewrite (start_running _ _ Hr). cbv zeta. rewrite set_ptd_same.
    cbn [events set_events]. rewrite set_events_twice, <- app_assoc. reflexivity.
Qed.

(** A supervisor started against [world_with_ranges] refuses a second
    [start]. *)
Lemma start_again_is_refused_witness :
  exists s1,
    Ptd.start (Ptd.__init__ "ptd" 8888, world_with_ranges "0,0,5.5,0,120.0") = (Ret true, s1)
    /\ Ptd.start (fst s1, snd s1) = (Ret false, (fst s1, snd s1)).
Proof.
  eexists. split; [vm_compute; reflexivity|].
  apply (proj1 (proj2 (proj2 start_again_is_refused))). reflexivity.
Defined.

(** C3, as stated, fails: the second [start] returns [False], and of two
    [init] commands in a row the second is answered [Error], not [OK].
    Nothing is launched the second time. *)
Lemma start_twice_counterexample :
  let w := world_with_ranges "0,0,5.5,0,120.0" in
  let s1 := snd (Ptd.start (Ptd.__init__ "ptd" 8888, w)) in
  fst (Ptd.start (Ptd.__init__ "ptd" 8888, w)) = Ret true
  /\ fst (Ptd.start s1) = Ret false
  /\ sent_to_client
       (events (snd (snd (Server.command_loop (fun _ => true) ["init"; "init"]
                            (Server.__init__ example_config, w)))))
     = ["OK"; "Error"]
  /\ launched
       (events (snd (snd (Server.command_loop (fun _ => true) ["init"; "init"]
                            (Server.__init__ example_config, w)))))
     = ["ptd"].
Proof. vm_compute. auto. Qed.

(** C4, as amended. [stop] with a control connection sends [Stop], then
    [SR,V,] with the volts attribute, then [SR,A,] with the amps
    attribute, in this order and nothing else. After a [start] that
    returned [True], and whatever lines were sent since, these attributes
    are the two values [start] captured from the answer to its [RR]
    query. After a [start] that returned [False] because the greeting was
    wrong, the connection is open and nothing was captured: the
    attributes are what they were before that [start], and [stop] sends
    them, as the text [None] when they hold [None]. And [stop] on a
    supervisor that was never started returns with the object and the
    world as they were. *)
Theorem stop_restores_range :
  (forall p w h, Ptd._proto p = Some h ->
     exists w', Ptd.stop (p, w)
                = (Ret tt, (Ptd.set_process None (Ptd.set_socket None (Ptd.set_proto None p)), w'))
       /\ sent_to_daemon (events w') =
          sent_to_daemon (events w) ++
          ["Stop"; "SR,V," +:+ str_opt (Ptd._init_Volts p);
           "SR,A," +:+ str_opt (Ptd._init_Amps p)])
  /\ (forall s s1 lines, Ptd.start s = (Ret true, s1) ->
        exists w5 rr amps volts,
          snd s1 = exchange "RR" w5 /\ next_reply w5 = Some rr
          /\ Ptd.get_range_from_ranges_list (split is_comma rr) 1 = Ret amps
          /\ Ptd.get_range_from_ranges_list (split is_comma rr) 3 = Ret volts
          /\ sent_to_daemon (events (snd (snd (Ptd.stop (cmds lines s1))))) =
             sent_to_daemon (events (snd (cmds lines s1))) ++
             ["Stop"; "SR,V," +:+ volts; "SR,A," +:+ amps])
  /\ (forall p w,
        Ptd._process p = None ->
        connects_within 100 (connects w) = true ->
        is_str (reply_at 0 w) "Hello, PTDaemon here!" = false ->
        exists s1,
          Ptd.start (p, w) = (Ret false, s1)
          /\ is_Some (Ptd._proto (fst s1))
          /\ Ptd._init_Volts (fst s1) = Ptd._init_Volts p
          /\ Ptd._init_Amps (fst s1) = Ptd._init_Amps p
          /\ sent_to_daemon (events (snd (snd (Ptd.stop s1)))) =
             sent_to_daemon (events (snd s1)) ++
             ["Stop"; "SR,V," +:+ str_opt (Ptd._init_Volts p);
              "SR,A," +:+ str_opt (Ptd._init_Amps p)])
  /\ (forall command port,
        Ptd._init_Volts (Ptd.__init__ command port) = None
        /\ Ptd._init_Amps (Ptd.__init__ command port) = None)
  /\ (forall command port w,
        Ptd.stop (Ptd.__init__ command port, w) = (Ret tt, (Ptd.__init__ command port, w))).
Proof.
  split; [|split; [|split; [|split]]].
  - intros p w h H. destruct (stop_spec p w) as (w' & E & S & _).
    rewrite H in S. eauto.
  - intros [p w] s1 lines H.
    apply start_true in H as (_ & sock & w5 & rr & amps & volts & Hp & Hw & N & A & V).
    exists w5, rr, amps, volts. repeat (split; [assumption|]).
    pose proof (cmds_self lines s1) as Hc.
    destruct (cmds lines s1) as [p2 w2]. cbn [fst snd] in *.
    destruct (stop_spec p2 w2) as (w' & -> & S & _). cbn [snd].
    rewrite S, Hc, Hp. reflexivity.
  - intros p w Hp Hc Hh.
    destruct (start_bad_handshake_state p w Hp Hc Hh) as ([p1 w1] & sock & E & Po & V & A).
    cbn [fst snd] in *. exists (p1, w1). split; [exact E|]. split; [now exists sock|].
    split; [exact V|]. split; [exact A|]. cbn [fst snd].
    destruct (stop_spec p1 w1) as (w' & -> & S & _). cbn [snd].
    rewrite S, Po, V, A. reflexivity.
  - intros command port. split; reflexivity.
  - intros command port w. now apply stop_idle.
Qed.

(** After a start against [world_with_ranges] and two lines sent since,
    [stop] sends the three lines with the captured values 120.0 and
    5.5. *)
Lemma stop_restores_range_witness :
  exists s1,
    Ptd.start (Ptd.__init__ "ptd" 8888, world_with_ranges "0,0,5.5,0,120.0") = (Ret true, s1)
    /\ exists w5 rr amps volts,
         snd s1 = exchange "RR" w5 /\ next_reply w5 = Some rr
         /\ Ptd.get_range_from_ranges_list (split is_comma rr) 1 = Ret amps
         /\ Ptd.get_range_from_ranges_list (split is_comma rr) 3 = Ret volts
         /\ sent_to_daemon (events (snd (snd (Ptd.stop (cmds ["SR,V,Auto"; "SR,A,Auto"] s1))))) =
            sent_to_daemon (events (snd (cmds ["SR,V,Auto"; "SR,A,Auto"] s1))) ++
            ["Stop"; "SR,V," +:+ volts; "SR,A," +:+ amps].
Proof.
  eexists. split; [vm_compute; reflexivity|].
  apply (proj1 (proj2 stop_restores_range)
           (Ptd.__init__ "ptd" 8888, world_with_ranges "0,0,5.5,0,120.0")).
  vm_compute. reflexivity.
Defined.

(** C4, as stated, fails in [world_wrong_greeting]: [start] on a fresh
    supervisor returns [False] with the connection open and no range
    captured, and the [stop] that follows sends [Stop] and two restore
    lines that carry the text [None], not a range captured at the
    preceding [start]. *)
Lemma stop_after_wrong_greeting_counterexample :
  let s1 := snd (Ptd.start (Ptd.__init__ "ptd" 8888, world_wrong_greeting)) in
  fst (Ptd.start (Ptd.__init__ "ptd" 8888, world_wrong_greeting)) = Ret false
  /\ Ptd._proto (fst s1) <> None
  /\ Ptd._init_Volts (fst s1) = None /\ Ptd._init_Amps (fst s1) = None
  /\ sent_to_daemon (events (snd s1)) = ["Hello"]
  /\ sent_to_daemon (events (snd (snd (Ptd.stop s1))))
     = ["Hello"; "Stop"; "SR,V,None"; "SR,A,None"].
Proof. vm_compute. repeat split; discriminate. Qed.

(** ** The range query *)

Lemma float_raises (text : string) e : PyFloat.float text = Raise e -> e = ValueError.
Proof.
  unfold PyFloat.float.
  repeat match goal with
         | |- context [if ?b then _ else _] => destruct b
         | |- context [let '(_, _) := ?x in _] => destruct x
         | |- context [match ?x with _ => _ end] => destruct x
         end; congruence.
Qed.

(** With the flag and the value in the list, the capture returns: the
    value when the flag is [0] and the value a positive number, [Auto]
    otherwise, a value that is no number included. *)
Lemma get_range_in_list (l : list string) (n : nat) (flag value : string) :
  l !! n = Some flag -> l !! (n + 1)%nat = Some value ->
  Ptd.get_range_from_ranges_list l n
  = Ret (if String.eqb flag "0" && positive value then value else "Auto").
Proof.
  intros Hf Hv. unfold Ptd.get_range_from_ranges_list, Ptd.item, positive.
  rewrite Hf. cbn [obind]. destruct (String.eqb flag "0"); [|reflexivity].
  rewrite Hv. cbn [obind andb].
  destruct (PyFloat.float value) as [x|e] eqn:E.
  - destruct (PyFloat.gt_zero x); reflexivity.
  - now rewrite (float_raises _ _ E).
Qed.

(** Past the end of the list, the capture raises [IndexError]: at the
    flag, or at the value when the flag is [0]. *)
Lemma get_range_past_end (l : list string) (n : nat) :
  l !! n = None \/ (l !! n = Some "0" /\ l !! (n + 1)%nat = None) ->
  Ptd.get_range_from_ranges_list l n = Raise IndexError.
Proof.
  unfold Ptd.get_range_from_ranges_list, Ptd.item.
  intros [H|[H H']]; rewrite H; [reflexivity|]. cbn. now rewrite H'.
Qed.

(** Scenario 2 of the specification: the answer [0,0,5.5,0,120.0] to [RR]
    gives the initial ranges 5.5 amperes and 120.0 volts, and [init] is
    answered [OK]. *)
Example init_captures_ranges :
  let st := snd (Server.command_loop (fun _ => true) ["init"]
                   (Server.__init__ example_config, world_with_ranges "0,0,5.5,0,120.0")) in
  Ptd._init_Amps (Server._ptd (fst st)) = Some "5.5"
  /\ Ptd._init_Volts (Server._ptd (fst st)) = Some "120.0"
  /\ sent_to_client (events (snd st)) = ["OK"].
Proof. vm_compute. auto. Qed.

(** C6 fails on the answer [Error] to [RR], a text without comma: the
    list of its fields has one element, the flag of the amps is looked up
    past its end, and the [IndexError] is not caught by the capture, which
    does not complete: it leaves [start], and the client is answered
    [Error: exception]. *)
Theorem get_initial_range_short_reply :
  Ptd.get_range_from_ranges_list (split is_comma "Error") 1 = Raise IndexError
  /\ fst (Ptd.start (Ptd.__init__ "ptd" 8888, world_with_ranges "Error")) = Raise IndexError
  /\ Ptd._init_Amps (fst (snd (Ptd.start (Ptd.__init__ "ptd" 8888, world_with_ranges "Error"))))
     = None
  /\ sent_to_client
       (events (snd (snd (Server.command_loop (fun _ => true) ["init"]
                            (Server.__init__ example_config, world_with_ranges "Error")))))
     = ["Error: exception"].
Proof. vm_compute. auto. Qed.

(** ** Faults of [start] *)

Lemma not_running (p : Ptd.t) : Ptd.running p = false -> Ptd._process p = None.
Proof. unfold Ptd.running. destruct (Ptd._process p); [discriminate | reflexivity]. Qed.

(** C7. When the daemon is reached and greets but gives no answer or an
    empty one to [RR], the [init] command ends in [exit(1)]: the loop is
    left without a reply, and the exit leaves [handle_connection],
    [run_server] and the script, which ends the server process. When the
    daemon is not reached in a hundred attempts, or does not greet as
    PTDaemon, [start] returns [False]: the client is answered [Error] and
    the loop goes on with the next command. *)
Theorem start_faults (check_label : string -> bool) :
  (forall cmd rest srv w,
     hd EmptyString (split is_comma cmd) = "init" ->
     Ptd.running (Server._ptd srv) = false ->
     connects_within 100 (connects w) = true ->
     reply_at 0 w = Some "Hello, PTDaemon here!" ->
     reply_at 2 w = None \/ reply_at 2 w = Some EmptyString ->
     exists st',
       Server.command_loop check_label (cmd :: rest) (srv, w)
       = (Raise (SystemExit (Some 1)), st')
       /\ sent_to_client (events (snd st')) = sent_to_client (events w))
  /\ (forall incoming st st' e,
        Server.command_loop check_label incoming (snd (Server.reset_session st)) = (Raise e, st') ->
        exists st'', Server.handle_connection check_label incoming st = (Raise e, st'')
          /\ sent_to_client (events (snd st'')) = sent_to_client (events (snd st')))
  /\ (forall c cs st st' e,
        Server.handle_connection check_label c st = (Raise e, st') ->
        Server.run_server check_label (c :: cs) st = (Raise e, st'))
  /\ (forall config cs w st' code,
        Server.run_server check_label cs (Server.__init__ config, w)
        = (Raise (SystemExit code), st') ->
        fst (Server.main check_label config cs w) = Raise (SystemExit code))
  /\ (forall cmd rest srv w,
        hd EmptyString (split is_comma cmd) = "init" ->
        Ptd.running (Server._ptd srv) = false ->
        all_refused 100 (connects w) = true
        \/ (connects_within 100 (connects w) = true
            /\ is_str (reply_at 0 w) "Hello, PTDaemon here!" = false) ->
        exists s' st',
          Ptd.start (Server._ptd srv,
                     set_events (events w ++ [NtpSync (ntp_server (Server._config srv))]) w)
          = (Ret false, s')
          /\ Server.turn check_label cmd (srv, w) = (Ret (Server.Replied "Error"), st')
          /\ sent_to_client (events (snd st')) = sent_to_client (events w) ++ ["Error"]
          /\ Server.command_loop check_label (cmd :: rest) (srv, w)
             = Server.command_loop check_label rest st').
Proof.
  split; [|split; [|split; [|split]]].
  - intros cmd rest srv w Hc Hr Hcon Hh Hrr. apply not_running in Hr.
    rewrite command_loop_cons, (turn_init _ _ _ _ Hc).
    set (w1 := set_events _ w).
    destruct (start_rr_missing (Server._ptd srv) w1 Hr Hcon Hh Hrr) as ([p' w'] & -> & S).
    cbn [is_Exception]. eexists. split; [reflexivity|]. cbn [snd] in *.
    rewrite S. subst w1. cbn. rewrite sent_to_client_app. cbn. apply app_nil_r.
  - intros. now apply handle_connection_raises.
  - intros. now apply run_server_raises.
  - intros. eapply main_raises; eauto.
  - intros cmd rest srv w Hc Hr Hf. apply not_running in Hr.
    rewrite command_loop_cons, (turn_init _ _ _ _ Hc).
    set (w1 := set_events _ w).
    assert (E : exists s', Ptd.start (Server._ptd srv, w1) = (Ret false, s')
                  /\ sent_to_client (events (snd s')) = sent_to_client (events w1)).
    { destruct Hf as [Hf|[Hcon Hh]].
      - destruct (start_unreachable _ w1 Hr Hf) as (s' & E & _ & S). eauto.
      - destruct (start_bad_handshake _ w1 Hr Hcon Hh) as (s' & E & S). eauto. }
    destruct E as ([p' w'] & -> & S). cbv zeta.
    eexists. eexists. split; [reflexivity|]. split; [reflexivity|].
    split; [|reflexivity]. cbn [snd] in *. cbn.
    rewrite sent_to_client_app, S. subst w1. cbn. rewrite sent_to_client_app. cbn.
    now rewrite app_nil_r.
Qed.

(** Against a daemon that answers [RR] with the empty text, [init] ends
    the loop in [exit(1)] with no reply; the next command is not
    served. *)
Lemma start_faults_witness :
  exists st',
    Server.command_loop (fun _ => true) ["init"; "hello"]
      (Server.__init__ example_config, world_with_ranges "")
    = (Raise (SystemExit (Some 1)), st')
    /\ sent_to_client (events (snd st')) = sent_to_client (events (world_with_ranges "")).
Proof.
  apply (proj1 (start_faults (fun _ => true))); try reflexivity.
  right. reflexivity.
Defined.

(** ** Fields of a command *)

Lemma is_comma_spec (c : ascii) : is_comma c = true <-> c = ","%char.
Proof. unfold is_comma, comma. destruct (Ascii.eqb_spec c ","%char); split; congruence. Qed.

Lemma split_no_comma (x : string) :
  all_chars Re.not_comma x = true -> split is_comma x = [x].
Proof.
  induction x as [|c x IH]; [reflexivity|]. cbn [all_chars split]. unfold Re.not_comma at 1.
  intros H. apply andb_prop in H as [Hc Hx]. apply negb_true_iff in Hc.
  rewrite Hc, (IH Hx). reflexivity.
Qed.

Lemma split_app_comma (a b : string) :
  all_chars Re.not_comma a = true ->
  split is_comma (a +:+ "," +:+ b) = a :: split is_comma b.
Proof.
  induction a as [|c a IH]; sapp; [reflexivity|]. cbn [all_chars split].
  unfold Re.not_comma at 1.
  intros H. apply andb_prop in H as [Hc Ha]. apply negb_true_iff in Hc.
  rewrite Hc, (IH Ha). reflexivity.
Qed.

Lemma split_join (s : string) : join "," (split is_comma s) = s.
Proof.
  induction s as [|c s IH]; [reflexivity|]. cbn [split].
  pose proof (split_length is_comma s) as L.
  destruct (split is_comma s) as [|f fs] eqn:E; [discriminate|]. clear L.
  destruct (is_comma c) eqn:Hc.
  - apply is_comma_spec in Hc as ->. cbn [join] in *. sapp. now rewrite IH.
  - destruct fs as [|g fs]; cbn [join] in *; sapp; now rewrite IH.
Qed.

(** A command of two fields is its two fields around a comma. *)
Lemma two_fields (cmd name : string) :
  hd EmptyString (split is_comma cmd) = name ->
  (length (split is_comma cmd) =? 2)%nat = true ->
  cmd = name +:+ "," +:+ nth 1 (split is_comma cmd) EmptyString.
Proof.
  intros H L. rewrite <- (split_join cmd) at 1.
  destruct (split is_comma cmd) as [|f [|g [|? ?]]]; try discriminate.
  cbn in *. now subst.
Qed.

Lemma fields_of_two (name x : string) :
  all_chars Re.not_comma name = true -> all_chars Re.not_comma x = true ->
  split is_comma (name +:+ "," +:+ x) = [name; x].
Proof. intros Hn Hx. now rewrite (split_app_comma _ _ Hn), (split_no_comma _ Hx). Qed.

(** ** What a command does to the session *)

Section Handler.
Variable check_label : string -> bool.

Lemma cmd_eq (line : string) (p : Ptd.t) (w : World) :
  exists r w', Ptd.cmd line (p, w) = (Ret r, (p, w'))
    /\ sent_to_client (events w') = sent_to_client (events w).
Proof.
  destruct (Ptd._proto p) as [h|] eqn:E.
  - rewrite (cmd_connected _ _ _ _ E). eexists. eexists. split; [reflexivity|].
    apply sent_to_client_exchange.
  - rewrite (cmd_disconnected _ _ _ E). eauto.
Qed.

Lemma on_ptd_cmd (line : string) (srv : Server.t) (w : World) :
  exists r w', Server.on_ptd (Ptd.cmd line) (srv, w) = (Ret r, (srv, w'))
    /\ sent_to_client (events w') = sent_to_client (events w).
Proof.
  unfold Server.on_ptd. cbn [fst snd].
  destruct (cmd_eq line (Server._ptd srv) w) as (r & w' & -> & S).
  rewrite set_ptd_same. eauto.
Qed.

Lemma set_range_eq (v a : string) (srv : Server.t) (w : World) :
  exists w', Server._set_range v a (srv, w) = (Ret tt, (srv, w'))
    /\ sent_to_client (events w') = sent_to_client (events w).
Proof.
  unfold Server._set_range, bind.
  destruct (on_ptd_cmd ("SR,V," +:+ v) srv w) as (r1 & w1 & -> & S1).
  destruct (on_ptd_cmd ("SR,A," +:+ a) srv w1) as (r2 & w2 & -> & S2).
  eexists. split; [reflexivity|]. cbn.
  rewrite sent_to_client_app. cbn. rewrite app_nil_r. congruence.
Qed.

Lemma same_session_refl (srv : Server.t) : same_session srv srv.
Proof. unfold same_session. auto. Qed.

Lemma same_session_set_ptd (p : Ptd.t) (srv : Server.t) :
  same_session srv (Server.set_ptd p srv).
Proof. unfold same_session. auto. Qed.

(** [max_volts_amps] returns only when the file exists, and [read_log]
    returns whenever it does. *)
Lemma max_volts_amps_file (file : option string) (mark : string) r :
  max_volts_amps file mark = Ret r -> exists text, read_log file mark = Ret text.
Proof. destruct file; [cbn; eauto | discriminate]. Qed.

(** A command changes the session in one of three ways or not at all:
    [start-ranging,X] and [start-testing,X] answered [OK] set the mode and
    the marker, the second only when the table holds [X]; a [stop]
    answered [OK] clears both, sets the last log and, in ranging mode,
    enters the marker into the table. *)
Lemma handle_cmd_effect (cmd : string) (srv srv' : Server.t) (w w' : World) r :
  Server._handle_cmd check_label cmd (srv, w) = (r, (srv', w')) ->
  let c1 := nth 1 (split is_comma cmd) EmptyString in
  (same_session srv srv' /\ (is_command "stop" cmd -> r <> Ret "OK"))
  \/ (is_command "start-ranging" cmd /\ (length (split is_comma cmd) =? 2)%nat = true
      /\ r = Ret "OK"
      /\ srv' = Server.set_mark (Some c1) (Server.set_mode (Some "ranging") srv))
  \/ (is_command "start-testing" cmd /\ (length (split is_comma cmd) =? 2)%nat = true
      /\ r = Ret "OK" /\ is_Some (Server._ranging_table srv !! c1)
      /\ srv' = Server.set_mark (Some c1) (Server.set_mode (Some "testing") srv))
  \/ (is_command "stop" cmd /\ r = Ret "OK"
      /\ exists m text table',
           Server._mark srv = Some m
           /\ srv' = Server.set_mark None (Server.set_mode None
                       (Server.set_last_log (Some text)
                          (Server.set_ranging_table table' srv)))
           /\ ((is_str (Server._mode srv) "ranging" = false
                /\ table' = Server._ranging_table srv)
               \/ (is_str (Server._mode srv) "ranging" = true
                   /\ exists item, table' = <[m := item]> (Server._ranging_table srv)))).
Proof.
  unfold Server._handle_cmd, is_command. rewrite split_length.
  set (fields := split is_comma cmd).
  set (c0 := hd EmptyString fields).
  intros H. cbv zeta. set (c1 := nth 1 fields EmptyString) in *.
  destruct (String.eqb_spec c0 "hello") as [E|_].
  { left. injection H as <- <- <-. split; [apply same_session_refl|]. rewrite E. discriminate. }
  destruct (String.eqb_spec c0 "time") as [E|_].
  { left. unfold Server.time_now, bind in H. cbn in H. injection H as <- <- <-.
    split; [apply same_session_refl|]. rewrite E. discriminate. }
  destruct (String.eqb_spec c0 "init") as [E|_].
  { left. unfold bind, Server.on_ptd in H.
    cbn [Server.self Server.event emit with_world modify Server.world Server.set_world fst snd] in H.
    destruct (Ptd.start _) as [[[]|e] [p' w2]]; cbn in H; injection H as <- <- <-;
      (split; [apply same_session_set_ptd | rewrite E; discriminate]). }
  destruct (String.eqb c0 "start-ranging" && (length fields =? 2)%nat) eqn:B.
  { right; left. apply andb_prop in B as [E L]. apply String.eqb_eq in E.
    unfold bind in H.
    destruct (set_range_eq "Auto" "Auto" srv w) as (w1 & S1 & _). rewrite S1 in H.
    destruct (on_ptd_cmd ("Go,1000,0,ranging-" +:+ c1) srv w1) as (r1 & w2 & S2 & _).
    rewrite S2 in H. cbn in H. injection H as <- <- <-. auto. }
  clear B.
  destruct (String.eqb c0 "start-testing" && (length fields =? 2)%nat) eqn:B.
  { apply andb_prop in B as [E L]. apply String.eqb_eq in E.
    unfold bind in H. cbn [Server.self fst snd] in H.
    destruct (Server._ranging_table srv !! c1) as [[maxVolts maxAmps]|] eqn:T.
    - right; right; left.
      destruct (set_range_eq maxVolts maxAmps srv w) as (w1 & S1 & _). rewrite S1 in H.
      destruct (on_ptd_cmd ("Go,1000,0,testing-" +:+ c1) srv w1) as (r1 & w2 & S2 & _).
      rewrite S2 in H. cbn in H. injection H as <- <- <-.
      split; [exact E|]. split; [exact L|]. split; [reflexivity|].
      split; [eexists; reflexivity | reflexivity].
    - left. injection H as <- <- <-. split; [apply same_session_refl|]. discriminate. }
  clear B.
  destruct (String.eqb_spec c0 "stop") as [E|NE].
  { unfold bind in H. cbn [Server.self fst snd] in H.
    destruct (Server._mark srv) as [m|] eqn:Mk.
    2: { left. injection H as <- <- <-. split; [apply same_session_refl|]. discriminate. }
    destruct (on_ptd_cmd "Stop" srv w) as (r1 & w1 & S1 & _). rewrite S1 in H.
    destruct (is_str (Server._mode srv) "ranging") eqn:Md.
    - cbn [read_world Server.world fst snd lift] in H.
      destruct (max_volts_amps (logfile w1) ("ranging-" +:+ m)) as [item|e] eqn:Mx.
      + destruct (logfile w1) as [content|] eqn:Lf; [|discriminate].
        cbn in H. rewrite ?Lf in H. cbn in H. injection H as <- <- <-.
        right; right; right. split; [exact E|]. split; [reflexivity|].
        eexists. eexists. eexists. split; [reflexivity|]. split; [reflexivity|].
        right. split; [reflexivity|]. eauto.
      + left. cbn in H. injection H as <- <- <-.
        split; [apply same_session_refl|]. discriminate.
    - cbn [read_world Server.world fst snd lift ret] in H.
      destruct (logfile w1) as [content|] eqn:Lf.
      + cbn in H. rewrite ?Lf in H. cbn in H. injection H as <- <- <-.
        right; right; right. split; [exact E|]. split; [reflexivity|].
        eexists. eexists. eexists. split; [reflexivity|]. split; [reflexivity|].
        left. auto.
      + left. cbn in H. rewrite ?Lf in H. cbn in H. injection H as <- <- <-.
        split; [apply same_session_refl|]. discriminate. }
  left. split; [|intros Hs; contradiction].
  destruct (String.eqb c0 "get-last-log").
  { unfold bind in H. cbn [Server.self fst snd] in H.
    destruct (Server._last_log srv); injection H as <- <- <-; apply same_session_refl. }
  destruct (String.eqb c0 "get-log").
  { unfold bind in H. cbn [read_world Server.world fst snd] in H.
    destruct (logfile w); injection H as <- <- <-; apply same_session_refl. }
  destruct (String.eqb c0 "push-log" && (length fields =? 2)%nat).
  { destruct (check_label c1); cbn [negb] in H.
    - unfold bind, Server.timestamp_now, Server.receive_archive, bind in H. cbn in H.
      destruct (hd UploadOk (uploads w)); cbn in H; injection H as <- <- <-;
        apply same_session_refl.
    - injection H as <- <- <-. apply same_session_refl. }
  injection H as <- <- <-. apply same_session_refl.
Qed.


(** A reply is what the handler returned, or [Error: exception] for an
    exception it raised. *)
Lemma turn_effect (cmd reply : string) (st st' : Server.State) :
  Server.turn check_label cmd st = (Ret (Server.Replied reply), st') ->
  exists r w1,
    Server._handle_cmd check_label cmd st = (r, (fst st', w1))
    /\ (r = Ret reply \/ (exists e, r = Raise e /\ reply = "Error: exception")).
Proof.
  rewrite turn_eq.
  destruct (Server._handle_cmd check_label cmd st) as [[rep|e] [srv w]].
  - intros [= <- <-]. cbn. eauto.
  - destruct e; cbn [is_Exception]; intros [= <- <-]; cbn;
      (eexists; eexists; split; [reflexivity|]; right; eauto).
Qed.

Lemma reset_session_eq (srv : Server.t) (w : World) :
  Server.reset_session (srv, w) =
  (Ret tt,
   (Server.set_mark None (Server.set_mode None (Server.set_ranging_table ∅ srv)),
    match logfile w with
    | Some _ => set_logfile None (set_events (events w ++ [RemoveLog]) w)
    | None => w
    end)).
Proof.
  unfold Server.reset_session, bind.
  cbn [Server.update modify Server.world read_world fst snd].
  destruct (logfile w); reflexivity.
Qed.

(** [get-last-log] reads an attribute that may not exist. *)
Lemma handle_get_last_log (cmd : string) (srv : Server.t) (w : World) :
  is_command "get-last-log" cmd ->
  Server._handle_cmd check_label cmd (srv, w) =
  match Server._last_log srv with
  | None => (Raise (AttributeError "_last_log"), (srv, w))
  | Some text => (Ret ("base64 " +:+ Base64.b64encode (Base64.encode text)), (srv, w))
  end.
Proof.
  unfold is_command. intros H. unfold Server._handle_cmd. rewrite split_length, H.
  cbn [String.eqb Ascii.eqb Bool.eqb andb]. unfold bind. cbn [Server.self fst snd].
  destruct (Server._last_log srv); reflexivity.
Qed.

(** [start-testing,X] looks the marker up in the table. *)
Lemma handle_start_testing (X : string) (srv : Server.t) (w : World) :
  all_chars Re.not_comma X = true ->
  match Server._ranging_table srv !! X with
  | None =>
      Server._handle_cmd check_label ("start-testing," +:+ X) (srv, w)
      = (Raise (KeyError X), (srv, w))
  | Some _ =>
      exists w',
        Server._handle_cmd check_label ("start-testing," +:+ X) (srv, w)
        = (Ret "OK", (Server.set_mark (Some X) (Server.set_mode (Some "testing") srv), w'))
  end.
Proof.
  intros HX. unfold Server._handle_cmd.
  change ("start-testing," +:+ X) with ("start-testing" +:+ "," +:+ X).
  rewrite (fields_of_two "start-testing" X eq_refl HX).
  cbn [hd nth length Nat.eqb String.eqb Ascii.eqb Bool.eqb andb].
  unfold bind. cbn [Server.self fst snd].
  destruct (Server._ranging_table srv !! X) as [[maxVolts maxAmps]|]; [|reflexivity].
  destruct (set_range_eq maxVolts maxAmps srv w) as (w1 & -> & _).
  destruct (on_ptd_cmd ("Go,1000,0,testing-" +:+ X) srv w1) as (r1 & w2 & -> & _).
  eexists. reflexivity.
Qed.

End Handler.

(** ** The last-log buffer *)

Lemma no_stop_served_prefix (hist : list (string * string)) x :
  no_stop_served (hist ++ [x]) -> no_stop_served hist.
Proof. intros H cmd I. apply H. apply in_or_app. now left. Qed.

Lemma on_ptd_stop_eq (srv : Server.t) (w : World) :
  exists p' w', Server.on_ptd Ptd.stop (srv, w) = (Ret tt, (Server.set_ptd p' srv, w')).
Proof.
  unfold Server.on_ptd. cbn [fst snd].
  destruct (stop_spec (Server._ptd srv) w) as (w' & -> & _). eauto.
Qed.

(** A turn that is not a [stop] answered [OK] keeps the buffer. *)
Lemma turn_keeps_last_log (check_label : string -> bool) (cmd reply : string)
    (st st' : Server.State) :
  Server.turn check_label cmd st = (Ret (Server.Replied reply), st') ->
  ~ (is_command "stop" cmd /\ reply = "OK") ->
  Server._last_log (fst st') = Server._last_log (fst st).
Proof.
  intros T N. destruct (turn_effect _ _ _ _ _ T) as (r & w1 & H & Hr).
  destruct st as [srv w]. cbn [fst].
  apply handle_cmd_effect in H
    as [[(_ & _ & _ & L & _) _]|[(_ & _ & _ & ->)|[(_ & _ & _ & _ & ->)|(Hc & -> & _)]]];
    try reflexivity; [exact L|].
  exfalso. apply N. split; [exact Hc|].
  destruct Hr as [[= <-]|(e & ? & _)]; [reflexivity | discriminate].
Qed.

Lemma lifetime_no_last_log check_label config w0 hist st :
  lifetime check_label config w0 hist st -> no_stop_served hist ->
  Server._last_log (fst st) = None.
Proof.
  induction 1 as [|hist [srv w] _ IH|hist st cmd reply st' _ IH T|hist [srv w] _ IH]; intros NS.
  - reflexivity.
  - rewrite reset_session_eq. exact (IH NS).
  - rewrite (turn_keeps_last_log _ _ _ _ _ T).
    + exact (IH (no_stop_served_prefix _ _ NS)).
    + intros [Hc ->]. apply (NS cmd); [|exact Hc]. apply in_or_app. right. now left.
  - destruct (on_ptd_stop_eq srv w) as (p' & w' & ->). exact (IH NS).
Qed.

(** C9. In the life of a server, as long as no [stop] command has been
    answered [OK], the attribute [_last_log] does not exist, the handler
    of [get-last-log] raises [AttributeError], and the client is
    answered [Error: exception]. *)
Theorem get_last_log_before_stop (check_label : string -> bool) (config : ServerConfig)
    (w0 : World) (hist : list (string * string)) (st : Server.State) (cmd : string) :
  lifetime check_label config w0 hist st ->
  no_stop_served hist ->
  is_command "get-last-log" cmd ->
  Server._last_log (Server.__init__ config) = None
  /\ Server._handle_cmd check_label cmd st = (Raise (AttributeError "_last_log"), st)
  /\ Server.turn check_label cmd st
     = (Ret (Server.Replied "Error: exception"),
        (fst st, set_events (events (snd st) ++ [ToClient "Error: exception"]) (snd st))).
Proof.
  intros L NS Hc. pose proof (lifetime_no_last_log _ _ _ _ _ L NS) as E.
  destruct st as [srv w]. cbn [fst snd] in *.
  split; [reflexivity|].
  assert (H : Server._handle_cmd check_label cmd (srv, w)
              = (Raise (AttributeError "_last_log"), (srv, w))).
  { rewrite (handle_get_last_log _ _ _ _ Hc), E. reflexivity. }
  split; [exact H|]. rewrite turn_eq, H. reflexivity.
Qed.

(** A first connection on which [stop] was answered [Error] and then
    [get-last-log] is sent. *)
Lemma get_last_log_before_stop_witness :
  let st := snd (Server.turn (fun _ => true) "stop"
                   (snd (Server.reset_session
                           (Server.__init__ example_config,
                            world_with_ranges "0,0,5.5,0,120.0")))) in
  Server.turn (fun _ => true) "get-last-log" st
  = (Ret (Server.Replied "Error: exception"),
     (fst st, set_events (events (snd st) ++ [ToClient "Error: exception"]) (snd st))).
Proof.
  cbv zeta.
  refine (proj2 (proj2 (get_last_log_before_stop (fun _ => true) example_config
            (world_with_ranges "0,0,5.5,0,120.0") ([] ++ [("stop", "Error")]) _
            "get-last-log" _ _ _))).
  - eapply life_turn; [apply life_connect, life_init | vm_compute; reflexivity].
  - intros cmd [[=]|[]].
  - reflexivity.
Defined.

Lemma steps_keep_last_log check_label st0 hist st :
  steps check_label st0 hist st -> no_stop_served hist ->
  Server._last_log (fst st) = Server._last_log (fst st0).
Proof.
  induction 1 as [|hist st cmd reply st' _ IH T]; intros NS; [reflexivity|].
  rewrite (turn_keeps_last_log _ _ _ _ _ T).
  - exact (IH (no_stop_served_prefix _ _ NS)).
  - intros [Hc ->]. apply (NS cmd); [|exact Hc]. apply in_or_app. right. now left.
Qed.

(** The states the loop passes through are those [steps] reaches. *)
Lemma steps_loop check_label st0 hist st :
  steps check_label st0 hist st ->
  forall rest,
    Server.command_loop check_label (map fst hist ++ rest) st0
    = Server.command_loop check_label rest st.
Proof.
  induction 1 as [|hist st cmd reply st' _ IH T]; intros rest; [reflexivity|].
  rewrite map_app, <- app_assoc. cbn [map fst app]. rewrite IH, command_loop_cons, T.
  reflexivity.
Qed.

Lemma handle_connection_eq (check_label : string -> bool) (incoming : list string)
    (st : Server.State) :
  Server.handle_connection check_label incoming st
  = finally (Server.command_loop check_label incoming) (Server.on_ptd Ptd.stop)
      (connection_start st).
Proof.
  destruct st as [srv w]. unfold Server.handle_connection, bind.
  rewrite reset_session_eq. reflexivity.
Qed.

(** C10. [handle_connection] enters its loop with the ranging table
    emptied, the mode and the marker cleared and the log file removed
    when there was one, and with the supervisor, the configuration and
    the last-log buffer as they were. So on a new connection, as long as
    no [stop] has been answered [OK] on it, [get-last-log] is answered
    with the buffer the connection began with, encoded, and the loop goes
    on. *)
Theorem reset_keeps_last_log (check_label : string -> bool) :
  (forall incoming srv w,
     Server.handle_connection check_label incoming (srv, w)
     = finally (Server.command_loop check_label incoming) (Server.on_ptd Ptd.stop)
         ({| Server._ptd := Server._ptd srv;
             Server._mode := None;
             Server._mark := None;
             Server._ranging_table := ∅;
             Server._last_log := Server._last_log srv;
             Server._config := Server._config srv |},
          match logfile w with
          | Some _ => set_logfile None (set_events (events w ++ [RemoveLog]) w)
          | None => w
          end))
  /\ (forall st0 text hist st cmd rest,
        Server._last_log (fst st0) = Some text ->
        steps check_label (connection_start st0) hist st ->
        no_stop_served hist ->
        is_command "get-last-log" cmd ->
        Server.handle_connection check_label (map fst hist ++ cmd :: rest) st0
        = finally (Server.command_loop check_label rest) (Server.on_ptd Ptd.stop)
            (fst st,
             set_events (events (snd st)
                         ++ [ToClient ("base64 " +:+ Base64.b64encode (Base64.encode text))])
                        (snd st))).
Proof.
  split.
  - intros incoming srv w. apply handle_connection_eq.
  - intros st0 text hist [srv w] cmd rest L S NS Hc.
    pose proof (steps_keep_last_log _ _ _ _ S NS) as E. cbn [fst connection_start] in E.
    cbn [Server._last_log] in E. rewrite L in E.
    rewrite handle_connection_eq. unfold finally.
    rewrite (steps_loop _ _ _ _ S), command_loop_cons.
    rewrite turn_eq, (handle_get_last_log _ _ _ _ Hc), E. reflexivity.
Qed.

(** A first connection ranges [run1] and stops; on the next connection
    [get-last-log] returns the log text of the first. *)
Lemma reset_keeps_last_log_witness :
  let st0 := snd (Server.handle_connection (fun _ => true)
                    ["init"; "start-ranging,run1"; "stop"]
                    (Server.__init__ example_config, world_session)) in
  let st := connection_start st0 in
  let text := "Time,t0,Watts,3.3,Volts,3.3,Amps,1.0,PF,1,Mark,ranging-run1" +:+ String LF
              ("Time,t1,Watts,4.2,Volts,3.5,Amps,1.2,PF,1,Mark,ranging-run1" +:+ String LF "") in
  Server._last_log (fst st0) = Some text
  /\ Server.handle_connection (fun _ => true) ["get-last-log"] st0
     = finally (Server.command_loop (fun _ => true) []) (Server.on_ptd Ptd.stop)
         (fst st,
          set_events (events (snd st)
                      ++ [ToClient ("base64 " +:+ Base64.b64encode (Base64.encode text))])
                     (snd st)).
Proof.
  intros st0 st text.
  assert (L : Server._last_log (fst st0) = Some text) by (vm_compute; reflexivity).
  split; [exact L|].
  refine (proj2 (reset_keeps_last_log (fun _ => true))
            st0 text [] st "get-last-log" [] L _ _ _).
  - apply steps_nil.
  - intros cmd [].
  - reflexivity.
Defined.

(** ** Ranging before testing *)

Lemma ranged_later (hist : list (string * string)) (X : string) x :
  ranged hist X -> ranged (hist ++ [x]) X.
Proof.
  intros (h1 & h2 & h3 & c & -> & Hc). exists h1, h2, (h3 ++ [x]), c.
  split; [|exact Hc]. now rewrite <- !app_assoc.
Qed.

Lemma ranging_started_later (hist : list (string * string)) (X : string) x :
  ranging_started hist X -> ranging_started (hist ++ [x]) X.
Proof.
  intros (h1 & h2 & ->). exists h1, (h2 ++ [x]). now rewrite <- !app_assoc.
Qed.

Ltac server_fields :=
  cbn [fst snd Server._ranging_table Server._mode Server._mark Server._last_log
       Server.set_mark Server.set_mode Server.set_ranging_table Server.set_last_log
       Server.set_ptd is_str] in *.

Lemma session_invariant_steps check_label st0 hist st :
  steps check_label (snd (Server.reset_session st0)) hist st ->
  session_invariant hist (fst st).
Proof.
  remember (snd (Server.reset_session st0)) as st1 eqn:E1.
  induction 1 as [|hist [srv w] cmd reply [srv' w'] _ IH T].
  - subst st1. destruct st0 as [srv0 w0]. rewrite reset_session_eq.
    unfold session_invariant. server_fields.
    split; [|split]; try discriminate.
    intros X [x Hx]. rewrite lookup_empty in Hx. discriminate.
  - cbn [fst] in *. destruct IH as (I1 & I2 & I3).
    destruct (turn_effect _ _ _ _ _ T) as (r & w1 & H & Hr). cbn [fst] in H.
    apply handle_cmd_effect in H
      as [[(Md & Mk & Tb & _) _]|[(Hc & L & -> & ->)|[(Hc & L & -> & Hx & ->)|
          (Hc & -> & m & text & table' & Mk & -> & Ht)]]].
    + unfold session_invariant. rewrite Md, Mk, Tb. split; [|split].
      * intros X HX. apply ranged_later; auto.
      * intros HM. destruct (I2 HM) as (X & -> & S). eauto using ranging_started_later.
      * exact I3.
    + destruct Hr as [[= <-]|(e & ? & _)]; [|discriminate].
      unfold session_invariant; server_fields; split; [|split].
      * intros X HX. apply ranged_later; auto.
      * intros _. eexists. split; [reflexivity|]. exists hist, [].
        rewrite (two_fields cmd "start-ranging" Hc L) at 1. reflexivity.
      * discriminate.
    + destruct Hr as [[= <-]|(e & ? & _)]; [|discriminate].
      unfold session_invariant; server_fields; split; [|split].
      * intros X HX. apply ranged_later; auto.
      * discriminate.
      * intros _. eauto.
    + destruct Hr as [[= <-]|(e & ? & _)]; [|discriminate].
      unfold session_invariant; server_fields; split; [|split]; try discriminate.
      intros X HX. destruct Ht as [[_ ->]|(Md & item & ->)].
      * apply ranged_later; auto.
      * destruct (decide (m = X)) as [<-|NE].
        -- destruct (I2 Md) as (X & Mk' & (h1 & h2 & ->)). rewrite Mk in Mk'.
           injection Mk' as <-. exists h1, h2, [], cmd. split; [|exact Hc].
           now rewrite <- !app_assoc.
        -- rewrite lookup_insert_ne in HX by exact NE. apply ranged_later; auto.
Qed.

(** C5. All along a connection, every entry of the ranging table is for
    a marker [X] such that [start-ranging,X] was answered [OK] and a
    [stop] was after it, on this connection; the mode is [testing] only
    with a marker that has an entry; [start-testing,X] is answered [OK]
    and sets the mode when the table holds [X], and when it does not, the
    lookup raises [KeyError], the client is answered [Error: exception],
    the state is as before and the loop goes on with the next command; and
    a turn that ends in mode [testing] either was in it before, with the
    same marker, or served [start-testing,X] for a marker with an
    entry. *)
Theorem testing_needs_ranging (check_label : string -> bool) (st0 : Server.State)
    (hist : list (string * string)) (st : Server.State) :
  steps check_label (snd (Server.reset_session st0)) hist st ->
  (forall X, is_Some (Server._ranging_table (fst st) !! X) -> ranged hist X)
  /\ (Server._mode (fst st) = Some "testing" ->
      exists X, Server._mark (fst st) = Some X
                /\ is_Some (Server._ranging_table (fst st) !! X) /\ ranged hist X)
  /\ (forall X, all_chars Re.not_comma X = true ->
        match Server._ranging_table (fst st) !! X with
        | Some _ =>
            ranged hist X
            /\ exists st',
                 Server.turn check_label ("start-testing," +:+ X) st
                 = (Ret (Server.Replied "OK"), st')
                 /\ Server._mode (fst st') = Some "testing"
                 /\ Server._mark (fst st') = Some X
        | None =>
            let st' := (fst st, set_events (events (snd st) ++ [ToClient "Error: exception"])
                                           (snd st)) in
            Server._handle_cmd check_label ("start-testing," +:+ X) st
            = (Raise (KeyError X), st)
            /\ Server.turn check_label ("start-testing," +:+ X) st
               = (Ret (Server.Replied "Error: exception"), st')
            /\ forall rest,
                 Server.command_loop check_label (("start-testing," +:+ X) :: rest) st
                 = Server.command_loop check_label rest st'
        end)
  /\ (forall cmd reply st',
        Server.turn check_label cmd st = (Ret (Server.Replied reply), st') ->
        Server._mode (fst st') = Some "testing" ->
        (Server._mode (fst st) = Some "testing"
         /\ Server._mark (fst st') = Server._mark (fst st))
        \/ exists X, cmd = "start-testing," +:+ X /\ reply = "OK"
                     /\ Server._mark (fst st') = Some X
                     /\ is_Some (Server._ranging_table (fst st) !! X) /\ ranged hist X).
Proof.
  intros S. destruct (session_invariant_steps _ _ _ _ S) as (I1 & I2 & I3).
  destruct st as [srv w]. cbn [fst snd] in *.
  split; [exact I1|]. split; [|split].
  - intros M. destruct (I3 M) as (X & Mk & HX). eauto.
  - intros X HX. pose proof (handle_start_testing check_label X srv w HX) as H.
    destruct (Server._ranging_table srv !! X) as [item|] eqn:T.
    + split; [apply I1; rewrite T; eauto|].
      destruct H as (w' & H). rewrite turn_eq, H. eexists. split; [reflexivity|]. auto.
    + cbv zeta. split; [exact H|].
      assert (Tn : Server.turn check_label ("start-testing," +:+ X) (srv, w)
                   = (Ret (Server.Replied "Error: exception"),
                      (srv, set_events (events w ++ [ToClient "Error: exception"]) w))).
      { rewrite turn_eq, H. reflexivity. }
      split; [exact Tn|]. intros rest. now rewrite command_loop_cons, Tn.
  - intros cmd reply [srv' w'] T M. cbn [fst] in *.
    destruct (turn_effect _ _ _ _ _ T) as (r & w1 & H & Hr). cbn [fst] in H.
    apply handle_cmd_effect in H
      as [[(Md & Mk & _) _]|[(_ & _ & _ & ->)|[(Hc & L & -> & Hx & ->)|
          (_ & _ & m & text & table' & _ & -> & _)]]]; server_fields; try discriminate.
    + left. rewrite <- Md. auto.
    + right. destruct Hr as [[= <-]|(e & ? & _)]; [|discriminate].
      eexists. split; [exact (two_fields cmd "start-testing" Hc L)|].
      split; [reflexivity|]. split; [reflexivity|]. split; [exact Hx|]. now apply I1.
Qed.

(** Scenario 3 of the specification, after [init]: [start-ranging,run1],
    two records logged with 3.3 V, 1.0 A and 3.5 V, 1.2 A, then [stop]
    leave the entry (3.5, 1.2) for [run1], and the three commands are
    answered [OK]. *)
Example ranging_fills_table :
  let st := snd (Server.command_loop (fun _ => true) ["init"; "start-ranging,run1"; "stop"]
                   (snd (Server.reset_session (Server.__init__ example_config, world_session)))) in
  Server._ranging_table (fst st) !! "run1" = Some ("3.5", "1.2")
  /\ sent_to_client (events (snd st)) = ["OK"; "OK"; "OK"].
Proof. vm_compute. auto. Qed.

(** On the session of scenario 3, [run1] has an entry and was ranged,
    and [start-testing,run1] is answered [OK]. *)
Lemma testing_needs_ranging_witness :
  let st0 := (Server.__init__ example_config, world_session) in
  let hist := (([] ++ [("init", "OK")]) ++ [("start-ranging,run1", "OK")]) ++ [("stop", "OK")] in
  let st1 := snd (Server.turn (fun _ => true) "init" (snd (Server.reset_session st0))) in
  let st2 := snd (Server.turn (fun _ => true) "start-ranging,run1" st1) in
  let st := snd (Server.turn (fun _ => true) "stop" st2) in
  ranged hist "run1"
  /\ exists st',
       Server.turn (fun _ => true) "start-testing,run1" st = (Ret (Server.Replied "OK"), st')
       /\ Server._mode (fst st') = Some "testing"
       /\ Server._mark (fst st') = Some "run1".
Proof.
  intros st0 hist st1 st2 st.
  assert (S : steps (fun _ => true) (snd (Server.reset_session st0)) hist st).
  { subst hist.
    apply (steps_snoc _ _ _ st2); [apply (steps_snoc _ _ _ st1);
      [apply (steps_snoc _ _ _ (snd (Server.reset_session st0))); [apply steps_nil|]|]|];
      vm_compute; reflexivity. }
  pose proof (proj1 (proj2 (proj2 (testing_needs_ranging (fun _ => true) st0 hist st S)))
                "run1" eq_refl) as H.
  assert (T : Server._ranging_table (fst st) !! "run1" = Some ("3.5", "1.2"))
    by (vm_compute; reflexivity).
  rewrite T in H. exact H.
Defined.

(* ===================================================================== *)
(** * Part III: further properties                                        *)
(* ===================================================================== *)

(** ** The listen option *)

Lemma split_none (sep : ascii -> bool) (x : string) :
  all_chars (fun c => negb (sep c)) x = true -> split sep x = [x].
Proof.
  induction x as [|c x IH]; [reflexivity|]. cbn [all_chars split].
  intros H. apply andb_prop in H as [Hc Hx]. apply negb_true_iff in Hc.
  rewrite Hc, (IH Hx). reflexivity.
Qed.

Lemma split_app (sep : ascii -> bool) (a b : string) (c : ascii) :
  all_chars (fun c => negb (sep c)) a = true -> sep c = true ->
  split sep (a +:+ String c b) = a :: split sep b.
Proof.
  intros Ha Hc. induction a as [|d a IH]; sapp.
  - cbn [split]. now rewrite Hc.
  - cbn [all_chars] in Ha. apply andb_prop in Ha as [Hd Ha]. apply negb_true_iff in Hd.
    cbn [split]. rewrite Hd, (IH Ha). reflexivity.
Qed.

(** A text that splits into one field holds no separator, and one that
    splits into two is the two fields around one separator. *)
Lemma split_one (sep : ascii -> bool) (s b : string) :
  split sep s = [b] -> s = b /\ all_chars (fun c => negb (sep c)) b = true.
Proof.
  revert b. induction s as [|e s IH]; intros b H.
  - injection H as <-. auto.
  - cbn [split] in H. destruct (sep e) eqn:He.
    + pose proof (split_length sep s) as L.
      destruct (split sep s); discriminate.
    + pose proof (split_length sep s) as L.
      destruct (split sep s) as [|f [|? ?]] eqn:E; try discriminate.
      injection H as <-. destruct (IH f eq_refl) as [-> Hf]. cbn [all_chars].
      rewrite He, Hf. auto.
Qed.

Lemma split_two (sep : ascii -> bool) (s a b : string) :
  split sep s = [a; b] ->
  exists c, sep c = true /\ s = a +:+ String c b
            /\ all_chars (fun c => negb (sep c)) a = true
            /\ all_chars (fun c => negb (sep c)) b = true.
Proof.
  revert a. induction s as [|d s IH]; intros a H; [discriminate|]. cbn [split] in H.
  destruct (sep d) eqn:Hd.
  - injection H as <- H. apply split_one in H as [-> Hb].
    exists d. sapp. auto.
  - pose proof (split_length sep s) as L.
    destruct (split sep s) as [|f fs] eqn:E; [discriminate|].
    injection H as <- ->. destruct (IH f eq_refl) as (c & Hc & -> & Hf & Hb).
    exists c. split; [exact Hc|]. split; [reflexivity|]. cbn [all_chars].
    rewrite Hd, Hf. auto.
Qed.

Lemma is_space_spec (c : ascii) : is_space c = true <-> c = " "%char.
Proof. unfold is_space. destruct (Ascii.eqb_spec c " "%char); split; congruence. Qed.

Lemma int_raises (text : string) e : PyInt.int text = Raise e -> e = ValueError.
Proof.
  unfold PyInt.int.
  repeat match goal with
         | |- context [if ?b then _ else _] => destruct b
         | |- context [let '(_, _) := ?x in _] => destruct x
         | |- context [match ?x with _ => _ end] => destruct x
         end; congruence.
Qed.

Lemma digit_not_space (c : ascii) : isdigit c = true -> numeric_space c = false.
Proof. destruct c as [[] [] [] [] [] [] [] []]; vm_compute; congruence. Qed.

Lemma digit_not_underscore (c : ascii) : isdigit c = true -> Ascii.eqb "_"%char c = false.
Proof. destruct c as [[] [] [] [] [] [] [] []]; vm_compute; congruence. Qed.

Lemma digit_not_sign (c : ascii) (s : string) :
  isdigit c = true -> Numeral.take_sign (String c s) = (false, String c s).
Proof. destruct c as [[] [] [] [] [] [] [] []]; vm_compute; congruence. Qed.

Lemma rstrip_digits (ds : string) : all_chars isdigit ds = true -> rstrip numeric_space ds = ds.
Proof.
  induction ds as [|c s IH]; [reflexivity|]. cbn [all_chars rstrip]. intros H.
  apply andb_prop in H as [Hc Hs]. rewrite (IH Hs), (digit_not_space _ Hc).
  destruct s; reflexivity.
Qed.

Lemma strip_digits (ds : string) : all_chars isdigit ds = true -> strip numeric_space ds = ds.
Proof.
  intros H. unfold strip.
  assert (L : lstrip numeric_space ds = ds).
  { destruct ds as [|c s]; [reflexivity|]. cbn [all_chars] in H.
    apply andb_prop in H as [Hc _]. cbn [lstrip]. now rewrite (digit_not_space _ Hc). }
  rewrite L. now apply rstrip_digits.
Qed.

Lemma remove_digits (ds : string) :
  all_chars isdigit ds = true -> remove (Ascii.eqb "_"%char) ds = ds.
Proof.
  induction ds as [|c s IH]; [reflexivity|]. cbn [all_chars remove]. intros H.
  apply andb_prop in H as [Hc Hs]. now rewrite (digit_not_underscore _ Hc), (IH Hs).
Qed.

Lemma underscores_ok_digits (ds : string) : forall prev,
  all_chars isdigit ds = true ->
  match prev with Some p => negb (Ascii.eqb p "_"%char) | None => true end = true ->
  PyFloat.underscores_ok prev ds = true.
Proof.
  induction ds as [|c s IH]; intros prev H Hp.
  - cbn. destruct prev; [|reflexivity]. exact Hp.
  - cbn [all_chars] in H. apply andb_prop in H as [Hc Hs]. cbn [PyFloat.underscores_ok].
    pose proof (digit_not_underscore _ Hc) as U. rewrite Ascii.eqb_sym in U. rewrite U.
    rewrite (IH (Some c) Hs) by (cbn; now rewrite U).
    destruct prev as [p|]; [|reflexivity]. apply negb_true_iff in Hp. now rewrite Hp.
Qed.

Lemma span_digits (ds : string) :
  all_chars isdigit ds = true -> Numeral.span isdigit ds = (ds, EmptyString).
Proof.
  induction ds as [|c s IH]; [reflexivity|]. cbn [all_chars Numeral.span]. intros H.
  apply andb_prop in H as [Hc Hs]. now rewrite Hc, (IH Hs).
Qed.

(** A text of digits is the integer it writes. *)
Lemma int_digits (ds : string) :
  ds <> EmptyString -> all_chars isdigit ds = true ->
  (String.length ds <= PyInt.max_str_digits)%nat ->
  PyInt.int ds = Ret (Z.of_N (Numeral.digits_value ds)).
Proof.
  intros Hn Hd Hl. unfold PyInt.int. rewrite (strip_digits _ Hd).
  rewrite (underscores_ok_digits _ None Hd eq_refl). cbn [negb].
  rewrite (remove_digits _ Hd).
  destruct ds as [|c s]; [contradiction|].
  cbn [all_chars] in Hd. pose proof Hd as Hd'. apply andb_prop in Hd as [Hc Hs].
  rewrite (digit_not_sign _ _ Hc), (span_digits (String c s) Hd').
  apply Nat.ltb_ge in Hl. now rewrite Hl.
Qed.

Lemma get_host_port_raises (ip_address : string -> bool) (listen_str : string) e :
  get_host_port_from_listen_string ip_address listen_str = Raise e -> e = ValueError.
Proof.
  unfold get_host_port_from_listen_string.
  destruct (split is_space listen_str) as [|a [|b [|? ?]]]; try congruence.
  destruct (ip_address a); [|congruence].
  destruct (PyInt.int b) as [n|e'] eqn:N; [discriminate|].
  apply int_raises in N as ->. congruence.
Qed.

(** X1. [get_host_port_from_listen_string] returns a host and a port
    exactly on a text made of a host and a port text around one blank,
    neither holding a blank, where the host is an address and the port
    text reads as an integer, which is the port returned; every failure
    is a [ValueError]; and the port is not checked against the range of
    ports: any text of digits is taken with the number it writes. *)
Theorem listen_string_spec (ip_address : string -> bool) (listen_str h : string) (p : Z) :
  (get_host_port_from_listen_string ip_address listen_str = Ret (h, p) <->
   exists ptext,
     listen_str = h +:+ " " +:+ ptext
     /\ all_chars (fun c => negb (is_space c)) h = true
     /\ all_chars (fun c => negb (is_space c)) ptext = true
     /\ ip_address h = true /\ PyInt.int ptext = Ret p)
  /\ (forall e, get_host_port_from_listen_string ip_address listen_str = Raise e ->
        e = ValueError)
  /\ (forall ds,
        ds <> EmptyString -> all_chars isdigit ds = true ->
        (String.length ds <= PyInt.max_str_digits)%nat ->
        ip_address h = true -> all_chars (fun c => negb (is_space c)) h = true ->
        get_host_port_from_listen_string ip_address (h +:+ " " +:+ ds)
        = Ret (h, Z.of_N (Numeral.digits_value ds))).
Proof.
  split; [split|split].
  - unfold get_host_port_from_listen_string.
    destruct (split is_space listen_str) as [|a [|b [|? ?]]] eqn:E; try discriminate.
    destruct (ip_address a) eqn:I; [|discriminate].
    destruct (PyInt.int b) as [n|e] eqn:N; [|destruct e; discriminate].
    intros [= <- <-]. apply split_two in E as (c & Hc & -> & Ha & Hb).
    apply is_space_spec in Hc as ->. exists b. sapp. auto.
  - intros (ptext & -> & Hh & Hp & I & N). unfold get_host_port_from_listen_string.
    change (h +:+ " " +:+ ptext) with (h +:+ String " " ptext).
    rewrite (split_app is_space h ptext " " Hh eq_refl), (split_none _ _ Hp), I, N.
    reflexivity.
  - intros e. apply get_host_port_raises.
  - intros ds Hn Hd Hl I Hh. unfold get_host_port_from_listen_string.
    change (h +:+ " " +:+ ds) with (h +:+ String " " ds).
    assert (Hs : all_chars (fun c => negb (is_space c)) ds = true).
    { clear Hn Hl. induction ds as [|c s IH]; [reflexivity|]. cbn [all_chars] in *.
      apply andb_prop in Hd as [Hc Hs]. rewrite (IH Hs), andb_true_r.
      apply negb_true_iff. destruct (is_space c) eqn:Sp; [|reflexivity].
      apply is_space_spec in Sp as ->. discriminate. }
    rewrite (split_app is_space h ds " " Hh eq_refl), (split_none _ _ Hs), I.
    now rewrite (int_digits _ Hn Hd Hl).
Qed.

(** The port 99999 is taken as it is. *)
Lemma listen_string_spec_witness :
  get_host_port_from_listen_string (String.eqb "0.0.0.0") ("0.0.0.0" +:+ " " +:+ "99999")
  = Ret ("0.0.0.0", Z.of_N (Numeral.digits_value "99999")).
Proof.
  apply (proj2 (proj2 (listen_string_spec (String.eqb "0.0.0.0") "" "0.0.0.0" 0)));
    [discriminate | reflexivity | unfold PyInt.max_str_digits; cbn; lia
    | reflexivity | reflexivity].
Defined.

(** ** The configuration file *)

Section Config.
Variable ip_address : string -> bool.
Variable DEFAULT_IP_ADDR : string.
Variable DEFAULT_PORT : Z.

Lemma required_eq (serv_conf : ServerConfig.Section_) :
  ServerConfig.required serv_conf =
  match serv_conf !! "ptdport", serv_conf !! "ptdlogfile",
        serv_conf !! "outdir", serv_conf !! "ptdcommand" with
  | Some a, Some b, Some c, Some d => Ret (a, b, c, d)
  | _, _, _, _ => Raise (SystemExit (Some 1))
  end.
Proof.
  unfold ServerConfig.required, ServerConfig.getitem.
  change (lower_str "ptdPort") with "ptdport".
  change (lower_str "ptdLogfile") with "ptdlogfile".
  change (lower_str "outDir") with "outdir".
  change (lower_str "ptdCommand") with "ptdcommand".
  destruct (serv_conf !! "ptdport"), (serv_conf !! "ptdlogfile"),
    (serv_conf !! "outdir"), (serv_conf !! "ptdcommand"); reflexivity.
Qed.

Lemma listen_eq (serv_conf : ServerConfig.Section_) :
  ServerConfig.listen ip_address DEFAULT_IP_ADDR DEFAULT_PORT serv_conf =
  match serv_conf !! "listen" with
  | Some listen_str =>
      match get_host_port_from_listen_string ip_address listen_str with
      | Ret (h, p) => Ret {| ServerConfig.host := h; ServerConfig.port := p |}
      | Raise _ => Raise (SystemExit (Some 1))
      end
  | None => Ret {| ServerConfig.host := DEFAULT_IP_ADDR; ServerConfig.port := DEFAULT_PORT |}
  end.
Proof.
  unfold ServerConfig.listen, ServerConfig.getitem.
  change (lower_str "listen") with "listen".
  destruct (serv_conf !! "listen") as [s|]; [|reflexivity].
  destruct (get_host_port_from_listen_string ip_address s) as [[h p]|e] eqn:E; [reflexivity|].
  rewrite (get_host_port_raises _ _ _ E). reflexivity.
Qed.

Lemma init_eq (conf : gmap string ServerConfig.Section_) :
  ServerConfig.__init__ ip_address DEFAULT_IP_ADDR DEFAULT_PORT conf =
  match conf !! "server" with
  | None => Raise (SystemExit (Some 1))
  | Some serv_conf =>
      match ServerConfig.required serv_conf with
      | Ret (ptd_port, ptd_logfile, out_dir, ptd_command) =>
          match ServerConfig.listen ip_address DEFAULT_IP_ADDR DEFAULT_PORT serv_conf with
          | Ret l =>
              match PyInt.int ptd_port with
              | Ret n =>
                  Ret ({| ntp_server := serv_conf !! "ntpserver"; out_dir := out_dir;
                          ptd_command := ptd_command; ptd_logfile := ptd_logfile;
                          ptd_port := n |}, l)
              | Raise _ => Raise (SystemExit (Some 1))
              end
          | Raise e => Raise e
          end
      | Raise e => Raise e
      end
  end.
Proof.
  unfold ServerConfig.__init__. destruct (conf !! "server") as [serv_conf|]; [|reflexivity].
  destruct (ServerConfig.required serv_conf) as [[[[a b] c] d]|e]; [|reflexivity].
  cbn [obind].
  destruct (ServerConfig.listen _ _ _ serv_conf) as [l|e]; [|reflexivity]. cbn [obind].
  destruct (PyInt.int a) as [n|e] eqn:N; [reflexivity|].
  apply int_raises in N as ->. reflexivity.
Qed.


(** X2. On a file whose known options hold no percent sign,
    [ServerConfig.__init__] fails in one way only, [exit(1)]; and it
    returns exactly when the file has a section [server] that holds the
    options [ptdPort], [ptdLogfile], [outDir] and [ptdCommand], [ptdPort]
    reads as an integer, and [listen] is absent or reads as a host and a
    port. The attributes are then these options, [ntp_server] is the
    option [ntpServer] or [None] without it, and host and port are those
    of [listen] or the defaults without it. Options are looked up by
    lower-cased name. *)
Theorem server_config_spec (conf : gmap string ServerConfig.Section_) :
  plain_options conf ->
  (forall e, ServerConfig.__init__ ip_address DEFAULT_IP_ADDR DEFAULT_PORT conf = Raise e ->
     e = SystemExit (Some 1))
  /\ (forall c l,
        ServerConfig.__init__ ip_address DEFAULT_IP_ADDR DEFAULT_PORT conf = Ret (c, l) <->
        exists serv_conf port_text,
          conf !! "server" = Some serv_conf
          /\ serv_conf !! "ptdport" = Some port_text
          /\ PyInt.int port_text = Ret (ptd_port c)
          /\ serv_conf !! "ptdlogfile" = Some (ptd_logfile c)
          /\ serv_conf !! "outdir" = Some (out_dir c)
          /\ serv_conf !! "ptdcommand" = Some (ptd_command c)
          /\ ntp_server c = serv_conf !! "ntpserver"
          /\ match serv_conf !! "listen" with
             | Some listen_str =>
                 get_host_port_from_listen_string ip_address listen_str
                 = Ret (ServerConfig.host l, ServerConfig.port l)
             | None =>
                 l = {| ServerConfig.host := DEFAULT_IP_ADDR;
                        ServerConfig.port := DEFAULT_PORT |}
             end).
Proof.
  intros _. rewrite init_eq. split.
  - intros e. destruct (conf !! "server") as [serv_conf|]; [|congruence].
    rewrite required_eq, listen_eq.
    destruct (serv_conf !! "ptdport"), (serv_conf !! "ptdlogfile"),
      (serv_conf !! "outdir"), (serv_conf !! "ptdcommand"); try congruence.
    destruct (serv_conf !! "listen") as [ls|].
    + destruct (get_host_port_from_listen_string ip_address ls) as [[h p]|]; [|congruence].
      destruct (PyInt.int _); congruence.
    + destruct (PyInt.int _); congruence.
  - intros c l. split.
    + destruct (conf !! "server") as [serv_conf|]; [|discriminate].
      rewrite required_eq, listen_eq.
      destruct (serv_conf !! "ptdport") as [pp|] eqn:E1; [|discriminate].
      destruct (serv_conf !! "ptdlogfile") as [lf|] eqn:E2; [|discriminate].
      destruct (serv_conf !! "outdir") as [od|] eqn:E3; [|discriminate].
      destruct (serv_conf !! "ptdcommand") as [pc|] eqn:E4; [|discriminate].
      destruct (serv_conf !! "listen") as [ls|] eqn:E5.
      * destruct (get_host_port_from_listen_string ip_address ls) as [[h p]|] eqn:G;
          [|discriminate].
        destruct (PyInt.int pp) as [n|] eqn:N; [|discriminate].
        intros [= <- <-]. exists serv_conf, pp. cbn. rewrite E5. auto 10.
      * destruct (PyInt.int pp) as [n|] eqn:N; [|discriminate].
        intros [= <- <-]. exists serv_conf, pp. cbn. rewrite E5. auto 10.
    + intros (serv_conf & pp & -> & E1 & N & E2 & E3 & E4 & E0 & L).
      rewrite required_eq, listen_eq, E1, E2, E3, E4, N, <- E0.
      destruct c as [ntp od pc lf pn], l as [h p]. cbn in *.
      destruct (serv_conf !! "listen") as [ls|]; [now rewrite L | now rewrite L].
Qed.

End Config.

(** A file with the four options and a [listen] option. *)
Lemma server_config_spec_witness :
  ServerConfig.__init__ (fun _ => true) "0.0.0.0" 4950
    {[ "server" := {[ "ptdport" := "8888"; "ptdlogfile" := "ptd.log"; "outdir" := "out";
                      "ptdcommand" := "ptd"; "listen" := "192.168.1.2 4951" ]} ]}
  = Ret ({| ntp_server := None; out_dir := "out"; ptd_command := "ptd";
            ptd_logfile := "ptd.log"; ptd_port := 8888 |},
         {| ServerConfig.host := "192.168.1.2"; ServerConfig.port := 4951 |}).
Proof.
  refine (proj2 (proj2 (server_config_spec (fun _ => true) "0.0.0.0" 4950 _ _) _ _) _).
  - intros serv_conf k v E Hk L.
    rewrite lookup_singleton_eq in E. injection E as <-. cbn in Hk.
    repeat (destruct Hk as [<-|Hk];
            [vm_compute in L; first [discriminate L | injection L as <-; reflexivity]|]).
    contradiction.
  - exists {[ "ptdport" := "8888"; "ptdlogfile" := "ptd.log"; "outdir" := "out";
              "ptdcommand" := "ptd"; "listen" := "192.168.1.2 4951" ]}, "8888".
    repeat split; vm_compute; reflexivity.
Defined.

(** ** The extracted log *)

Lemma join_all (p : ascii -> bool) (ls : list string) :
  Forall (fun l => all_chars p l = true) ls -> all_chars p (join "" ls) = true.
Proof.
  induction 1 as [|l ls Hl _ IH]; [reflexivity|].
  rewrite join_empty_cons, all_chars_app, Hl, IH. reflexivity.
Qed.

Lemma read_log_loop_all (P : string -> Prop) (mark : string) (ls : list string) :
  Forall P ls -> Forall P (read_log_loop mark ls).
Proof.
  induction 1 as [|l ls Hl _ IH]; [constructor|]. cbn [read_log_loop].
  destruct (selected mark l); [constructor|]; assumption.
Qed.

Lemma readlines_file_lines (t : string) : file_lines (readlines t).
Proof.
  induction t as [|c s IH]; [exact I|]. cbn [readlines].
  destruct (is_LF c) eqn:Hc.
  - split; [|exact IH]. left. exists "". split; [reflexivity|]. sapp.
    unfold is_LF in Hc. now destruct (Ascii.eqb_spec c LF) as [->|].
  - destruct (readlines s) as [|l ls].
    + split; [|exact I]. right. cbn. unfold Re.dot. rewrite Hc. auto.
    + destruct IH as [H IH]. split; [|exact IH].
      destruct H as [(body & Hb & ->)|(Hl & Hn & ->)].
      * left. exists (String c body). cbn. unfold Re.dot at 1. rewrite Hc, Hb. sapp. auto.
      * right. cbn. unfold Re.dot at 1. rewrite Hc, Hl. auto.
Qed.

Lemma read_log_loop_file_lines (mark : string) (ls : list string) :
  file_lines ls -> file_lines (read_log_loop mark ls).
Proof.
  induction ls as [|l ls IH]; [trivial|]. intros [H R]. cbn [read_log_loop].
  destruct (selected mark l); [|now apply IH].
  split; [|now apply IH]. destruct H as [H|(Hl & Hn & ->)]; [now left | right; auto].
Qed.

Lemma readlines_line (body t : string) :
  all_chars Re.dot body = true ->
  readlines ((body +:+ String LF "") +:+ t) = (body +:+ String LF "") :: readlines t.
Proof.
  induction body as [|c b IH]; sapp; [reflexivity|]. cbn [all_chars readlines].
  intros H. apply andb_prop in H as [Hc Hb]. unfold Re.dot in Hc.
  apply negb_true_iff in Hc. rewrite Hc, (IH Hb). reflexivity.
Qed.

Lemma readlines_last (l : string) :
  all_chars Re.dot l = true -> l <> "" -> readlines l = [l].
Proof.
  induction l as [|c b IH]; [contradiction|]. cbn [all_chars readlines].
  intros H _. apply andb_prop in H as [Hc Hb]. unfold Re.dot in Hc.
  apply negb_true_iff in Hc. rewrite Hc.
  destruct b as [|d b]; [reflexivity|]. rewrite (IH Hb); [reflexivity | discriminate].
Qed.

(** Lines put end to end and read again are the same lines. *)
Lemma readlines_join_lines (ls : list string) :
  file_lines ls -> readlines (join "" ls) = ls.
Proof.
  induction ls as [|l ls IH]; [reflexivity|]. intros [H R].
  destruct H as [(body & Hb & ->)|(Hl & Hn & ->)].
  - rewrite join_empty_cons, (readlines_line _ _ Hb), (IH R). reflexivity.
  - cbn [join]. now apply readlines_last.
Qed.

Lemma max_loop_selected (mark : string) (ls : list string) : forall acc,
  max_loop mark acc (read_log_loop mark ls) = max_loop mark acc ls.
Proof.
  induction ls as [|l ls IH]; intros acc; [reflexivity|]. cbn [read_log_loop max_loop].
  destruct (selected mark l) as [m|] eqn:E.
  - cbn [max_loop]. destruct (max_step mark acc l); [apply IH | reflexivity].
  - rewrite (max_step_skip _ _ _ E). apply IH.
Qed.

Lemma read_log_loop_twice (mark : string) (ls : list string) :
  read_log_loop mark (read_log_loop mark ls) = read_log_loop mark ls.
Proof.
  induction ls as [|l ls IH]; [reflexivity|]. cbn [read_log_loop].
  destruct (selected mark l) as [m|] eqn:E; [|exact IH].
  cbn [read_log_loop]. now rewrite E, IH.
Qed.

Lemma read_log_loop_other (mark other : string) (ls : list string) :
  other <> mark -> read_log_loop other (read_log_loop mark ls) = [].
Proof.
  intros N. induction ls as [|l ls IH]; [reflexivity|]. cbn [read_log_loop].
  destruct (selected mark l) as [m|] eqn:E; [|exact IH].
  cbn [read_log_loop]. destruct (selected other l) as [m'|] eqn:E'; [|exact IH].
  apply selected_spec in E as (v & a & _ & R).
  apply selected_spec in E' as (v' & a' & _ & R').
  destruct (is_ptd_record_unique _ _ _ _ _ _ _ R R') as (_ & _ & ->). contradiction.
Qed.

Lemma isascii_app (a b : string) : isascii (a +:+ b) = isascii a && isascii b.
Proof.
  induction a as [|c a IH]; sapp; [reflexivity|]. cbn [isascii].
  now rewrite IH, andb_assoc.
Qed.

Lemma universal_newlines_ascii_le (n : nat) : forall s,
  (String.length s <= n)%nat -> isascii s = true -> isascii (universal_newlines s) = true.
Proof.
  induction n as [|n IH]; intros s L H.
  - destruct s; [reflexivity | cbn in L; lia].
  - destruct s as [|c s]; [reflexivity|]. cbn [universal_newlines]. cbn in L.
    cbn [isascii] in H. apply andb_prop in H as [Hc Hs].
    destruct (Ascii.eqb c CR).
    + destruct s as [|c' s'']; [reflexivity|]. cbn in L.
      cbn [isascii] in Hs. apply andb_prop in Hs as [Hc' Hs''].
      destruct (Ascii.eqb c' LF); cbn [isascii].
      * rewrite IH; [reflexivity | lia | exact Hs''].
      * rewrite IH; [reflexivity | cbn; lia | cbn [isascii]; now rewrite Hc', Hs''].
    + cbn [isascii]. rewrite Hc. cbn. apply IH; [lia | exact Hs].
Qed.

Lemma readlines_ascii (t : string) :
  isascii t = true -> Forall (fun l => isascii l = true) (readlines t).
Proof.
  induction t as [|c s IH]; [constructor|]. cbn [isascii readlines]. intros H.
  apply andb_prop in H as [Hc Hs]. specialize (IH Hs).
  destruct (is_LF c).
  - constructor; [cbn [isascii]; now rewrite Hc | exact IH].
  - destruct (readlines s) as [|l ls].
    + constructor; [cbn [isascii]; now rewrite Hc | constructor].
    + inversion IH; subst. constructor; [cbn [isascii]; now rewrite Hc | assumption].
Qed.

Lemma join_ascii (ls : list string) :
  Forall (fun l => isascii l = true) ls -> isascii (join "" ls) = true.
Proof.
  induction 1 as [|l ls Hl _ IH]; [reflexivity|].
  rewrite join_empty_cons, isascii_app, Hl, IH. reflexivity.
Qed.

(** X4. What [read_log] extracts from an ASCII log for a marker can stand
    for the log: it is ASCII too and, read as a log file, it gives itself
    back for the same marker and the same answer of [max_volts_amps],
    value or exception, and nothing for any other marker. *)
Theorem extracted_log_stands_for_log (content mark : string) :
  isascii content = true ->
  exists text,
    read_log (Some content) mark = Ret text
    /\ isascii text = true
    /\ read_log (Some text) mark = Ret text
    /\ max_volts_amps (Some text) mark = max_volts_amps (Some content) mark
    /\ forall other, other <> mark -> read_log (Some text) other = Ret "".
Proof.
  intros A.
  set (ls := readlines (universal_newlines content)).
  set (sel := read_log_loop mark ls).
  exists (join "" sel). split; [reflexivity|].
  split.
  { apply join_ascii, read_log_loop_all, readlines_ascii.
    now apply (universal_newlines_ascii_le (String.length content)). }
  assert (U : universal_newlines (join "" sel) = join "" sel).
  { apply universal_newlines_id. apply join_all, read_log_loop_all, readlines_all.
    apply universal_newlines_no_CR. }
  assert (R : readlines (join "" sel) = sel).
  { apply readlines_join_lines, read_log_loop_file_lines, readlines_file_lines. }
  unfold read_log, max_volts_amps, open_r. cbn [obind]. rewrite U, R. fold ls.
  split; [|split].
  - subst sel. now rewrite read_log_loop_twice.
  - subst sel. now rewrite max_loop_selected.
  - intros other N. subst sel. now rewrite (read_log_loop_other _ _ _ N).
Qed.

(** The records of marker [m] of [log_two_records], the second of which
    the file ends with CR LF. *)
Lemma extracted_log_stands_for_log_witness :
  exists text,
    read_log (Some log_two_records) "m" = Ret text
    /\ isascii text = true
    /\ read_log (Some text) "m" = Ret text
    /\ max_volts_amps (Some text) "m" = max_volts_amps (Some log_two_records) "m"
    /\ forall other, other <> "m" -> read_log (Some text) other = Ret "".
Proof. exact (extracted_log_stands_for_log log_two_records "m" eq_refl). Defined.

(** ** What [RE_PTD_LOG] recognises *)

(** A text with nothing between the Amps field and [Mark] is no record:
    the pattern asks for two commas there. *)
Lemma no_interior_no_record (ts w v a m v' a' m' : string) :
  all_chars Re.not_comma ts = true -> all_chars Re.not_comma w = true ->
  all_chars Re.not_comma v = true -> all_chars Re.not_comma a = true ->
  all_chars Re.not_comma m = true ->
  ~ is_ptd_record ("Time," +:+ ts +:+ "," +:+ "Watts," +:+ w +:+ "," +:+ "Volts," +:+ v +:+ ","
                   +:+ "Amps," +:+ a +:+ "," +:+ "Mark," +:+ m) v' a' m'.
Proof.
  intros Hts Hw Hv Ha Hm (ts' & w' & rest' & E & Hts' & Hw' & Hv' & Ha' & _ & Hm').
  apply append_inv_head in E.
  apply first_comma_unique in E as [_ E]; [|assumption..].
  apply append_inv_head in E.
  apply first_comma_unique in E as [_ E]; [|assumption..].
  apply append_inv_head in E.
  apply first_comma_unique in E as [_ E]; [|assumption..].
  apply append_inv_head in E.
  apply first_comma_unique in E as [_ E]; [|assumption..].
  change ("Mark," +:+ m) with ("Mark" +:+ "," +:+ m) in E.
  assert (R : rest' +:+ "," +:+ "Mark," +:+ m' = (rest' +:+ ",Mark") +:+ "," +:+ m').
  { rewrite append_assoc. reflexivity. }
  rewrite R in E. apply last_comma_unique in E as [E _]; [|assumption..].
  apply (f_equal String.length) in E. rewrite append_length in E. cbn in E. lia.
Qed.

(** X5. [RE_PTD_LOG.match] succeeds exactly on the texts of the record
    grammar, with the groups [v], [a] and [mark] equal to the record's
    fields, which the text determines; and a text with no field between
    the Amps field and [Mark] is not matched. *)
Theorem RE_PTD_LOG_recognises_records (s : string) :
  (forall caps,
     Re.match_ RE_PTD_LOG s = Some caps <->
     exists v a m, caps = [("v", v); ("a", a); ("mark", m)] /\ is_ptd_record s v a m)
  /\ (forall v a m v' a' m',
        is_ptd_record s v a m -> is_ptd_record s v' a' m' -> v = v' /\ a = a' /\ m = m')
  /\ (forall ts w v a m,
        all_chars Re.not_comma ts = true -> all_chars Re.not_comma w = true ->
        all_chars Re.not_comma v = true -> all_chars Re.not_comma a = true ->
        all_chars Re.not_comma m = true ->
        s = "Time," +:+ ts +:+ "," +:+ "Watts," +:+ w +:+ "," +:+ "Volts," +:+ v +:+ ","
            +:+ "Amps," +:+ a +:+ "," +:+ "Mark," +:+ m ->
        Re.match_ RE_PTD_LOG s = None).
Proof.
  split; [|split].
  - intros caps. split; [apply RE_PTD_LOG_sound|].
    intros (v & a & m & -> & R). now apply RE_PTD_LOG_spec.
  - intros v a m v' a' m'. apply is_ptd_record_unique.
  - intros ts w v a m Hts Hw Hv Ha Hm ->.
    destruct (Re.match_ RE_PTD_LOG _) as [caps|] eqn:E; [|reflexivity].
    apply RE_PTD_LOG_sound in E as (v' & a' & m' & _ & R).
    exfalso. exact (no_interior_no_record _ _ _ _ _ _ _ _ Hts Hw Hv Ha Hm R).
Qed.

(** A record line without interior field, as the daemon would write it
    with nothing but the four values and the marker. *)
Lemma RE_PTD_LOG_recognises_records_witness :
  Re.match_ RE_PTD_LOG "Time,t0,Watts,4.5,Volts,9.09,Amps,0.5,Mark,m" = None.
Proof.
  apply (proj2 (proj2 (RE_PTD_LOG_recognises_records
                         "Time,t0,Watts,4.5,Volts,9.09,Amps,0.5,Mark,m"))
           "t0" "4.5" "9.09" "0.5" "m"); reflexivity.
Defined.

(** ** The range of one channel *)

Lemma get_range_raises (l : list string) (n : nat) e :
  Ptd.get_range_from_ranges_list l n = Raise e ->
  e = IndexError /\ (length l <= n + 1)%nat.
Proof.
  unfold Ptd.get_range_from_ranges_list, Ptd.item.
  destruct (l !! n) as [flag|] eqn:F; cbn [obind].
  - destruct (String.eqb flag "0"); [|discriminate].
    destruct (l !! (n + 1)%nat) as [value|] eqn:V; cbn [obind].
    + destruct (PyFloat.float value) as [x|e'] eqn:E.
      * destruct (PyFloat.gt_zero x); discriminate.
      * rewrite (float_raises _ _ E). discriminate.
    + intros [= <-]. split; [reflexivity|]. apply lookup_ge_None in V. lia.
  - intros [= <-]. split; [reflexivity|]. apply lookup_ge_None in F. lia.
Qed.

Lemma get_range_result (l : list string) (n : nat) (v : string) :
  Ptd.get_range_from_ranges_list l n = Ret v ->
  v = "Auto" \/ (l !! n = Some "0" /\ l !! (n + 1)%nat = Some v /\ positive v = true).
Proof.
  unfold Ptd.get_range_from_ranges_list, Ptd.item, positive.
  destruct (l !! n) as [flag|] eqn:F; cbn [obind]; [|discriminate].
  destruct (String.eqb_spec flag "0") as [->|]; [|intros [= <-]; now left].
  destruct (l !! (n + 1)%nat) as [value|] eqn:V; cbn [obind]; [|discriminate].
  destruct (PyFloat.float value) as [x|e'] eqn:E.
  - destruct (PyFloat.gt_zero x) eqn:G; intros [= <-]; [right | now left].
    split; [reflexivity|]. split; [reflexivity|]. now rewrite E.
  - rewrite (float_raises _ _ E). intros [= <-]. now left.
Qed.

(** X6. [get_range_from_ranges_list] raises nothing but [IndexError], and
    only on a list too short for it; with the flag and the value in the
    list it returns the value when the flag is [0] and the value a
    positive number, and [Auto] otherwise, a value that is no number
    included. *)
Theorem get_range_from_ranges_list_spec (l : list string) (n : nat) :
  (forall flag value, l !! n = Some flag -> l !! (n + 1)%nat = Some value ->
     Ptd.get_range_from_ranges_list l n
     = Ret (if String.eqb flag "0" && positive value then value else "Auto"))
  /\ (forall e, Ptd.get_range_from_ranges_list l n = Raise e ->
        e = IndexError /\ (length l <= n + 1)%nat)
  /\ (forall v, Ptd.get_range_from_ranges_list l n = Ret v ->
        v = "Auto" \/ (l !! n = Some "0" /\ l !! (n + 1)%nat = Some v /\ positive v = true)).
Proof.
  split; [|split].
  - intros flag value. apply get_range_in_list.
  - intros e. apply get_range_raises.
  - intros v. apply get_range_result.
Qed.

(** The flag [0] with the value [abc], which is no number, gives
    [Auto]. *)
Lemma get_range_from_ranges_list_spec_witness :
  Ptd.get_range_from_ranges_list ["Ranges"; "0"; "abc"; "1"; "-1.0"] 1 = Ret "Auto".
Proof.
  apply (proj1 (get_range_from_ranges_list_spec ["Ranges"; "0"; "abc"; "1"; "-1.0"] 1)
           "0" "abc"); reflexivity.
Defined.

(** ** [stop], in full *)

Lemma waits_exchange (line : string) (w : World) : waits (exchange line w) = waits w.
Proof. unfold exchange. destruct (daemon w); reflexivity. Qed.

Lemma next_reply_exchange (i : nat) (line : string) (w : World) :
  next_reply (exchange line w) = reply_at 1 w.
Proof. now rewrite next_reply_at, reply_at_exchange. Qed.

(** X7. [stop] always returns and leaves the object without protocol,
    socket or process, its other attributes as they were; a second [stop]
    then does nothing at all. *)
Theorem stop_releases_everything (s : Ptd.State) :
  exists s',
    Ptd.stop s = (Ret tt, s')
    /\ Ptd._proto (fst s') = None /\ Ptd._socket (fst s') = None
    /\ Ptd._process (fst s') = None
    /\ Ptd._init_Amps (fst s') = Ptd._init_Amps (fst s)
    /\ Ptd._init_Volts (fst s') = Ptd._init_Volts (fst s)
    /\ Ptd._command (fst s') = Ptd._command (fst s)
    /\ Ptd._port (fst s') = Ptd._port (fst s)
    /\ Ptd.stop s' = (Ret tt, s').
Proof.
  destruct s as [p w]. destruct (stop_spec p w) as (w' & E & _).
  eexists. split; [exact E|]. cbn [fst].
  repeat (split; [destruct p; reflexivity|]). now apply stop_idle.
Qed.

(** What [stop] does, event by event. *)
Lemma stop_trace (p : Ptd.t) (w : World) :
  exists w',
    Ptd.stop (p, w)
    = (Ret tt, (Ptd.set_process None (Ptd.set_socket None (Ptd.set_proto None p)), w'))
    /\ events w' = events w ++ stop_events p w.
Proof.
  rewrite stop_eq, restore_and_disconnect_eq. cbn [snd].
  destruct p as [pr so po c pt ia iv]. unfold stop_events. cbn [Ptd._proto Ptd._socket Ptd._process].
  destruct po as [h|].
  - set (w1 := exchange _ (exchange _ (exchange "Stop" w))).
    assert (E1 : events w1 = events w ++
              [ToDaemon "Stop"; FromDaemon (reply_at 0 w);
               ToDaemon ("SR,V," +:+ str_opt iv); FromDaemon (reply_at 1 w);
               ToDaemon ("SR,A," +:+ str_opt ia); FromDaemon (reply_at 2 w)]).
    { subst w1. rewrite !exchange_events, !next_reply_at, !reply_at_exchange.
      rewrite <- !app_assoc. reflexivity. }
    assert (W1 : waits w1 = waits w) by (subst w1; now rewrite !waits_exchange).
    clearbody w1. rewrite close_socket_eq. cbn [snd Ptd._socket Ptd.set_proto].
    destruct so as [s|]; rewrite terminate_process_eq; cbn [snd Ptd._process Ptd.set_socket];
      destruct pr as [pid|]; cbn [waits set_events events set_waits];
      (eexists; split; [reflexivity|]); cbn [events set_events set_waits];
      rewrite ?W1, ?E1, <- ?app_assoc; cbn [app]; try reflexivity;
      destruct (waits w) as [|[] ?]; reflexivity.
  - rewrite close_socket_eq. cbn [snd Ptd._socket].
    destruct so as [s|]; rewrite terminate_process_eq; cbn [snd Ptd._process Ptd.set_socket];
      destruct pr as [pid|]; cbn [waits set_events events set_waits];
      (eexists; split; [reflexivity|]); cbn [events set_events set_waits];
      rewrite <- ?app_assoc, ?app_nil_r; cbn [app]; try reflexivity;
      destruct (waits w) as [|[] ?]; reflexivity.
Qed.

(** X8. [stop] works in a fixed order: with a control connection, the
    three lines [Stop], [SR,V,...] and [SR,A,...], each answered before
    the next is sent; then the socket is closed if there is one; then the
    process, if there is one, is asked to terminate and waited for, and
    killed only when the wait of ten seconds ran out. Nothing else is
    done. *)
Theorem stop_order (p : Ptd.t) (w : World) :
  exists w',
    Ptd.stop (p, w)
    = (Ret tt, (Ptd.set_process None (Ptd.set_socket None (Ptd.set_proto None p)), w'))
    /\ events w' = events w ++ stop_events p w.
Proof. apply stop_trace. Qed.

(** ** [start], in full *)

Lemma attempts_app (a b : list Event) : attempts (a ++ b) = (attempts a + attempts b)%nat.
Proof.
  induction a as [|e a IH]; [reflexivity|].
  destruct e; cbn; rewrite ?IH; reflexivity.
Qed.

Lemma slept_app (a b : list Event) : slept (a ++ b) = slept a + slept b.
Proof.
  induction a as [|e a IH]; [reflexivity|].
  destruct e; cbn [app slept]; rewrite ?IH; lia.
Qed.

Lemma sent_to_daemon_exchange (line : string) (w : World) :
  sent_to_daemon (events (exchange line w)) = sent_to_daemon (events w) ++ [line].
Proof. rewrite exchange_events, sent_to_daemon_app. reflexivity. Qed.

(** A loop that ends without connection has made all its attempts and
    slept a tenth of a second after each. *)
Lemma connect_loop_gives_up (n : nat) : forall p w s',
  Ptd.connect_loop n (p, w) = (Ret None, s') ->
  attempts (events (snd s')) = (attempts (events w) + n)%nat
  /\ slept (events (snd s')) = slept (events w) + Z.of_nat n.
Proof.
  induction n as [|n IH]; intros p w s' H.
  - injection H as <-. cbn [snd]. split; lia.
  - rewrite connect_loop_S in H. cbv zeta in H.
    destruct (match connects w with [] => Refused false | r :: _ => r end) as [|[]];
      try discriminate.
    apply IH in H as [-> ->]. cbn [events set_events].
    rewrite !attempts_app, !slept_app. cbn. split; lia.
Qed.

(** X9. A [start] that returns [True] found the object without process,
    launched the command once, sent the daemon [Hello], [Identify] and
    [RR] and nothing else, and leaves the object with its process, an
    open control connection and both initial ranges set, each to [Auto] or
    to a text that reads as a positive number. *)
Theorem start_success (p : Ptd.t) (w : World) (s1 : Ptd.State) :
  Ptd.start (p, w) = (Ret true, s1) ->
  Ptd._process p = None
  /\ launched (events (snd s1)) = launched (events w) ++ [Ptd._command p]
  /\ sent_to_daemon (events (snd s1)) = sent_to_daemon (events w) ++ ["Hello"; "Identify"; "RR"]
  /\ Ptd.running (fst s1) = true
  /\ is_Some (Ptd._proto (fst s1))
  /\ exists amps volts,
       Ptd._init_Amps (fst s1) = Some amps /\ Ptd._init_Volts (fst s1) = Some volts
       /\ (amps = "Auto" \/ positive amps = true)
       /\ (volts = "Auto" \/ positive volts = true).
Proof.
  intros H. pose proof H as H0. rewrite start_eq in H.
  destruct (Ptd._process p) eqn:Hp; [discriminate|]. cbv zeta in H.
  destruct (Ptd.connect_loop 100 _) as [[[sock|]|e] [p2 w2]] eqn:L; try discriminate.
  2: { destruct (Ptd.stop _) as [[|] ?]; discriminate. }
  apply connect_loop_frame in L as (Hp2 & _ & _ & _ & _ & Hs & Hl & _).
  cbn [fst snd events set_events] in *. subst p2.
  set (p3 := Ptd.set_proto (Some sock) _) in H.
  assert (E3 : Ptd._proto p3 = Some sock) by reflexivity.
  rewrite (cmd_connected _ _ _ _ E3) in H.
  destruct (is_str _ _); [|discriminate].
  rewrite (cmd_connected _ _ _ _ E3), (get_initial_range_eq _ _ _ E3) in H.
  destruct (next_reply _) as [[|c rr]|] eqn:N; try discriminate.
  destruct (Ptd.get_range_from_ranges_list _ 1) as [amps|] eqn:A; [|discriminate].
  destruct (Ptd.get_range_from_ranges_list _ 3) as [volts|] eqn:V; [|discriminate].
  injection H as <-. cbn [fst snd].
  split; [reflexivity|]. split.
  { rewrite !launched_exchange, Hl, launched_app. reflexivity. }
  split.
  { rewrite !sent_to_daemon_exchange, Hs, sent_to_daemon_app. cbn.
    rewrite app_nil_r, <- !app_assoc. reflexivity. }
  split; [reflexivity|]. split; [eexists; reflexivity|].
  exists amps, volts. split; [reflexivity|]. split; [reflexivity|].
  destruct (get_range_result _ _ _ A) as [->|(_ & _ & Pa)];
    destruct (get_range_result _ _ _ V) as [->|(_ & _ & Pv)]; auto.
Qed.

(** Started against [world_with_ranges], the supervisor has sent the
    three lines and holds the ranges 5.5 and 120.0. *)
Lemma start_success_witness :
  let w := world_with_ranges "0,0,5.5,0,120.0" in
  let s1 := snd (Ptd.start (Ptd.__init__ "ptd" 8888, w)) in
  Ptd._process (Ptd.__init__ "ptd" 8888) = None
  /\ launched (events (snd s1)) = launched (events w) ++ [Ptd._command (Ptd.__init__ "ptd" 8888)]
  /\ sent_to_daemon (events (snd s1)) = sent_to_daemon (events w) ++ ["Hello"; "Identify"; "RR"]
  /\ Ptd.running (fst s1) = true
  /\ is_Some (Ptd._proto (fst s1))
  /\ exists amps volts,
       Ptd._init_Amps (fst s1) = Some amps /\ Ptd._init_Volts (fst s1) = Some volts
       /\ (amps = "Auto" \/ positive amps = true)
       /\ (volts = "Auto" \/ positive volts = true).
Proof.
  intros w s1. apply (start_success (Ptd.__init__ "ptd" 8888) w s1).
  vm_compute. reflexivity.
Defined.

(** X10. When every one of the hundred attempts to connect is refused,
    [start] on an object without handles launches the command, makes
    exactly a hundred attempts, sleeping a tenth of a second after each,
    terminates the process it launched, speaks to nobody, and returns
    [False] with the object as it was: a later [start] begins anew. *)
Theorem start_gives_up (p : Ptd.t) (w : World) :
  Ptd._process p = None -> Ptd._socket p = None -> Ptd._proto p = None ->
  all_refused 100 (connects w) = true ->
  exists w',
    Ptd.start (p, w) = (Ret false, (p, w'))
    /\ launched (events w') = launched (events w) ++ [Ptd._command p]
    /\ attempts (events w') = (attempts (events w) + 100)%nat
    /\ slept (events w') = slept (events w) + 100
    /\ In Terminate (events w')
    /\ sent_to_daemon (events w') = sent_to_daemon (events w)
    /\ sent_to_client (events w') = sent_to_client (events w).
Proof.
  intros Hp Hso Hpo Hc. rewrite (start_idle_eq _ _ Hp).
  destruct (connect_loop_refused 100 (fst (launching p w)) (snd (launching p w)) Hc)
    as ([p2 w2] & L).
  change (fst (launching p w), snd (launching p w)) with (launching p w) in L.
  rewrite L. pose proof (connect_loop_gives_up _ _ _ _ L) as [Ha Hsl].
  apply connect_loop_frame in L as (Hp2 & _ & _ & _ & _ & Hs & Hl & Hcl).
  cbn [fst snd] in *.
  destruct (stop_trace p2 w2) as (w' & E & Ev). rewrite E.
  assert (P2 : Ptd.set_process None (Ptd.set_socket None (Ptd.set_proto None p2)) = p).
  { subst p2. destruct p as [pr so po c pt ia iv]. cbn in *. now subst. }
  rewrite P2. exists w'. split; [reflexivity|].
  assert (SE : stop_events p2 w2
               = match waits w2 with
                 | true :: _ => [Terminate; Wait true; Kill; WaitForever]
                 | _ => [Terminate; Wait false]
                 end).
  { subst p2. unfold stop_events, launching. cbn. now rewrite Hpo, Hso. }
  rewrite SE in Ev. clear SE. unfold launching in *. cbn [events set_events] in *.
  rewrite Ev, launched_app, attempts_app, slept_app, sent_to_daemon_app, sent_to_client_app.
  rewrite Hl, Ha, Hsl, Hs, Hcl.
  rewrite launched_app, attempts_app, slept_app, sent_to_daemon_app, sent_to_client_app.
  destruct (waits w2) as [|[] ?]; cbn; rewrite ?app_nil_r;
    (repeat split; try reflexivity; try lia);
    apply in_or_app; right; left; reflexivity.
Qed.

(** A world in which nothing listens on the port. *)
Lemma start_gives_up_witness :
  exists w',
    Ptd.start (Ptd.__init__ "ptd" 8888, set_connects [] (world_with_ranges "")) 
    = (Ret false, (Ptd.__init__ "ptd" 8888, w'))
    /\ attempts (events w') = 100%nat /\ slept (events w') = 100.
Proof.
  destruct (start_gives_up (Ptd.__init__ "ptd" 8888) (set_connects [] (world_with_ranges ""))
              eq_refl eq_refl eq_refl eq_refl) as (w' & E & _ & A & S & _).
  exists w'. split; [exact E|]. split; [exact A | exact S].
Defined.

(** X11. When the daemon is reached and its answer to [Hello] is not the
    greeting, [start] returns [False] after that one line, and leaves the
    object with the process it launched and the connection open: the
    initial ranges are not captured, and a further [start] is refused
    without a new launch, until [stop]. *)
Theorem start_wrong_greeting (p : Ptd.t) (w : World) :
  Ptd._process p = None ->
  connects_within 100 (connects w) = true ->
  is_str (reply_at 0 w) "Hello, PTDaemon here!" = false ->
  exists s',
    Ptd.start (p, w) = (Ret false, s')
    /\ Ptd.running (fst s') = true
    /\ is_Some (Ptd._proto (fst s'))
    /\ Ptd._init_Amps (fst s') = Ptd._init_Amps p
    /\ Ptd._init_Volts (fst s') = Ptd._init_Volts p
    /\ launched (events (snd s')) = launched (events w) ++ [Ptd._command p]
    /\ sent_to_daemon (events (snd s')) = sent_to_daemon (events w) ++ ["Hello"]
    /\ Ptd.start s' = (Ret false, s').
Proof.
  intros Hp Hc Hh. rewrite (start_idle_eq _ _ Hp).
  destruct (connect_loop_connected 100 (fst (launching p w)) (snd (launching p w)) Hc)
    as (sock & [p2 w2] & L).
  change (fst (launching p w), snd (launching p w)) with (launching p w) in L.
  rewrite L. cbv zeta. cbn [fst snd].
  apply connect_loop_frame in L as (Hp2 & Hd & _ & _ & _ & Hs & Hl & _). cbn [fst snd] in *.
  set (p3 := Ptd.set_proto (Some sock) _).
  assert (E3 : Ptd._proto p3 = Some sock) by reflexivity.
  assert (R : reply_at 0 w2 = reply_at 0 w).
  { unfold reply_at. now rewrite Hd. }
  rewrite (cmd_connected _ _ _ _ E3), next_reply_at, R, Hh.
  eexists. split; [reflexivity|]. cbn [fst snd].
  assert (Run : Ptd.running p3 = true) by (subst p3 p2; reflexivity).
  split; [exact Run|]. split; [eexists; exact E3|].
  split; [subst p3 p2; reflexivity|]. split; [subst p3 p2; reflexivity|].
  split.
  { rewrite launched_exchange, Hl. unfold launching. cbn. now rewrite launched_app. }
  split.
  { rewrite sent_to_daemon_exchange, Hs. unfold launching. cbn.
    rewrite sent_to_daemon_app. cbn. now rewrite app_nil_r. }
  now apply start_running.
Qed.

(** A daemon that answers [Hello] with [Goodbye]. *)
Lemma start_wrong_greeting_witness :
  exists s',
    Ptd.start (Ptd.__init__ "ptd" 8888,
               set_daemon [said "Goodbye"] (world_with_ranges "")) = (Ret false, s')
    /\ Ptd.running (fst s') = true
    /\ Ptd.start s' = (Ret false, s').
Proof.
  destruct (start_wrong_greeting (Ptd.__init__ "ptd" 8888)
              (set_daemon [said "Goodbye"] (world_with_ranges ""))
              eq_refl eq_refl eq_refl) as (s' & E & R & _ & _ & _ & _ & _ & S).
  exists s'. split; [exact E|]. split; [exact R | exact S].
Defined.

(** ** [start]: success, and the signal *)

Lemma connect_loop_stopped (n : nat) : forall p w,
  stopped_within n (connects w) = true ->
  exists s', Ptd.connect_loop n (p, w) = (Raise (SystemExit None), s').
Proof.
  induction n as [|n IH]; intros p w H; [discriminate|].
  rewrite connect_loop_S. cbv zeta. cbn [stopped_within] in H.
  destruct (connects w) as [|[|[]] cs]; try discriminate.
  - eauto.
  - apply IH. exact H.
Qed.

(** X12. [start] returns [True] whenever the object holds no process, the
    daemon is reached within the hundred attempts, greets as PTDaemon and
    answers [RR] with at least five fields: the answer to [Identify] and
    the content of the fields do not matter. *)
Theorem start_succeeds (p : Ptd.t) (w : World) (rr : string) :
  Ptd._process p = None ->
  connects_within 100 (connects w) = true ->
  reply_at 0 w = Some "Hello, PTDaemon here!" ->
  reply_at 2 w = Some rr ->
  (5 <= length (split is_comma rr))%nat ->
  exists s1, Ptd.start (p, w) = (Ret true, s1).
Proof.
  intros Hp Hc Hh Hr Len. rewrite (start_idle_eq _ _ Hp).
  destruct (connect_loop_connected 100 (fst (launching p w)) (snd (launching p w)) Hc)
    as (sock & [p2 w2] & L).
  change (fst (launching p w), snd (launching p w)) with (launching p w) in L.
  rewrite L. cbv zeta. cbn [fst snd].
  apply connect_loop_frame in L as (_ & Hd & _). cbn [snd] in *.
  set (p3 := Ptd.set_proto (Some sock) _).
  assert (E3 : Ptd._proto p3 = Some sock) by reflexivity.
  assert (R : forall i, reply_at i w2 = reply_at i w).
  { intros i. unfold reply_at. now rewrite Hd. }
  assert (Hs : is_str (Some "Hello, PTDaemon here!") "Hello, PTDaemon here!" = true)
    by reflexivity.
  rewrite (cmd_connected _ _ _ _ E3), next_reply_at, R, Hh, Hs.
  rewrite (cmd_connected _ _ _ _ E3), (get_initial_range_eq _ _ _ E3).
  rewrite next_reply_at, !reply_at_exchange, R, Hr.
  assert (NE : rr <> EmptyString) by (intros ->; cbn in Len; lia).
  destruct rr as [|c rr']; [contradiction|].
  set (l := split is_comma (String c rr')) in *.
  assert (G : forall n, (n + 1 < length l)%nat ->
                exists v, Ptd.get_range_from_ranges_list l n = Ret v).
  { intros n Hn.
    destruct (lookup_lt_is_Some_2 l n ltac:(lia)) as [flag F].
    destruct (lookup_lt_is_Some_2 l (n + 1) ltac:(lia)) as [value V].
    rewrite (get_range_in_list _ _ _ _ F V). eauto. }
  destruct (G 1%nat ltac:(lia)) as [amps ->]. destruct (G 3%nat ltac:(lia)) as [volts ->].
  eauto.
Qed.

(** The scripted world of the examples. *)
Lemma start_succeeds_witness :
  exists s1, Ptd.start (Ptd.__init__ "ptd" 8888, world_with_ranges "0,0,5.5,0,120.0")
             = (Ret true, s1).
Proof.
  apply (start_succeeds (Ptd.__init__ "ptd" 8888) (world_with_ranges "0,0,5.5,0,120.0")
           "0,0,5.5,0,120.0"); reflexivity.
Defined.

(** X13. When an attempt to connect is refused and [lib.sig.stopped] is
    set, [start] ends in [exit()] at once: it sleeps no more and tries no
    more, has spoken to nobody, and leaves the object holding the process
    it launched. *)
Theorem start_interrupted (p : Ptd.t) (w : World) :
  Ptd._process p = None ->
  stopped_within 100 (connects w) = true ->
  exists s',
    Ptd.start (p, w) = (Raise (SystemExit None), s')
    /\ fst s' = Ptd.set_process (Some (length (events w))) p
    /\ launched (events (snd s')) = launched (events w) ++ [Ptd._command p]
    /\ sent_to_daemon (events (snd s')) = sent_to_daemon (events w).
Proof.
  intros Hp Hc. rewrite (start_idle_eq _ _ Hp).
  destruct (connect_loop_stopped 100 (fst (launching p w)) (snd (launching p w)) Hc)
    as ([p2 w2] & L).
  change (fst (launching p w), snd (launching p w)) with (launching p w) in L.
  rewrite L. apply connect_loop_frame in L as (Hp2 & _ & _ & _ & _ & Hs & Hl & _).
  cbn [fst snd] in *. eexists. split; [reflexivity|]. cbn [fst snd].
  split; [exact Hp2|]. rewrite Hs, Hl. unfold launching. cbn.
  rewrite launched_app, sent_to_daemon_app. cbn. rewrite app_nil_r. auto.
Qed.

(** The signal comes at the third attempt. *)
Lemma start_interrupted_witness :
  exists s',
    Ptd.start (Ptd.__init__ "ptd" 8888,
               set_connects [Refused false; Refused false; Refused true] (world_with_ranges ""))
    = (Raise (SystemExit None), s')
    /\ Ptd.running (fst s') = true.
Proof.
  destruct (start_interrupted (Ptd.__init__ "ptd" 8888)
              (set_connects [Refused false; Refused false; Refused true] (world_with_ranges ""))
              eq_refl eq_refl) as (s' & E & P & _).
  exists s'. split; [exact E|]. rewrite P. reflexivity.
Defined.

(** ** The dispatch of commands *)

Section Dispatch.
Variable check_label : string -> bool.

(** X14. A command whose first field is no command name, or is
    [start-ranging], [start-testing] or [push-log] with other than exactly
    one argument, is answered [Error: unknown command] and changes
    nothing; the empty command is one of them. *)
Theorem unknown_command (cmd : string) (st : Server.State) :
  ~ In (hd EmptyString (split is_comma cmd))
       ["hello"; "time"; "init"; "stop"; "get-last-log"; "get-log"] ->
  (In (hd EmptyString (split is_comma cmd)) ["start-ranging"; "start-testing"; "push-log"] ->
   length (split is_comma cmd) <> 2%nat) ->
  Server._handle_cmd check_label cmd st = (Ret "Error: unknown command", st).
Proof.
  intros N A. unfold Server._handle_cmd. rewrite split_length.
  set (fields := split is_comma cmd) in *. set (c0 := hd EmptyString fields) in *.
  cbn [In] in N, A.
  destruct (String.eqb_spec c0 "hello") as [E|_]; [exfalso; apply N; auto|].
  destruct (String.eqb_spec c0 "time") as [E|_]; [exfalso; apply N; auto|].
  destruct (String.eqb_spec c0 "init") as [E|_]; [exfalso; apply N; auto|].
  assert (T : forall name, In name ["start-ranging"; "start-testing"; "push-log"] ->
                           String.eqb c0 name && (length fields =? 2)%nat = false).
  { intros name I. destruct (String.eqb_spec c0 name) as [E|_]; [|reflexivity].
    cbn [andb]. apply Nat.eqb_neq, A. rewrite E. exact I. }
  rewrite (T "start-ranging"), (T "start-testing"), (T "push-log") by (cbn; auto).
  destruct (String.eqb_spec c0 "stop") as [E|_]; [exfalso; apply N; auto 10|].
  destruct (String.eqb_spec c0 "get-last-log") as [E|_]; [exfalso; apply N; auto 10|].
  destruct (String.eqb_spec c0 "get-log") as [E|_]; [exfalso; apply N; auto 10|].
  reflexivity.
Qed.

(** X15. For [hello], [time], [init], [stop], [get-last-log] and
    [get-log] only the first field of the command counts: whatever
    follows the first comma is not read. *)
Theorem first_field_decides (cmd cmd' : string) (st : Server.State) :
  hd EmptyString (split is_comma cmd) = hd EmptyString (split is_comma cmd') ->
  In (hd EmptyString (split is_comma cmd))
     ["hello"; "time"; "init"; "stop"; "get-last-log"; "get-log"] ->
  Server._handle_cmd check_label cmd st = Server._handle_cmd check_label cmd' st.
Proof.
  intros E I. unfold Server._handle_cmd. rewrite !split_length, <- E.
  cbn [In] in I.
  destruct I as [<-|[<-|[<-|[<-|[<-|[<-|[]]]]]]]; reflexivity.
Qed.

End Dispatch.

(** [start-ranging] without a marker. *)
Lemma unknown_command_witness :
  Server._handle_cmd (fun _ => true) "start-ranging" (Server.__init__ example_config, world_session)
  = (Ret "Error: unknown command", (Server.__init__ example_config, world_session)).
Proof.
  apply (unknown_command (fun _ => true)).
  - cbn. intros [H|[H|[H|[H|[H|[H|[]]]]]]]; discriminate H.
  - intros _. cbn. discriminate.
Defined.

(** [stop,now] is served as [stop]. *)
Lemma first_field_decides_witness :
  Server._handle_cmd (fun _ => true) "stop,now" (Server.__init__ example_config, world_session)
  = Server._handle_cmd (fun _ => true) "stop" (Server.__init__ example_config, world_session).
Proof.
  apply (first_field_decides (fun _ => true)); [reflexivity|]. cbn. auto.
Defined.

(** ** Measurements *)

Section Measure.
Variable check_label : string -> bool.

Lemma on_ptd_cmd_eq (line : string) (srv : Server.t) (w : World) :
  exists r, Server.on_ptd (Ptd.cmd line) (srv, w) = (Ret r, (srv, after_line line srv w)).
Proof.
  unfold Server.on_ptd, after_line. cbn [fst snd].
  destruct (Ptd._proto (Server._ptd srv)) as [h|] eqn:E.
  - rewrite (cmd_connected _ _ _ _ E), set_ptd_same. eauto.
  - rewrite (cmd_disconnected _ _ _ E), set_ptd_same. eauto.
Qed.

Lemma after_line_sent (line : string) (srv : Server.t) (w : World) :
  sent_to_daemon (events (after_line line srv w))
  = sent_to_daemon (events w) ++ daemon_lines srv [line].
Proof.
  unfold after_line, daemon_lines. destruct (Ptd._proto _).
  - apply sent_to_daemon_exchange.
  - now rewrite app_nil_r.
Qed.

Lemma after_line_slept (line : string) (srv : Server.t) (w : World) :
  slept (events (after_line line srv w)) = slept (events w).
Proof.
  unfold after_line. destruct (Ptd._proto _); [|reflexivity].
  rewrite exchange_events, slept_app. cbn. lia.
Qed.

Lemma daemon_lines_app (srv : Server.t) (a b : list string) :
  daemon_lines srv a ++ daemon_lines srv b = daemon_lines srv (a ++ b).
Proof. unfold daemon_lines. destruct (Ptd._proto _); reflexivity. Qed.

Lemma after_line_client (line : string) (srv : Server.t) (w : World) :
  sent_to_client (events (after_line line srv w)) = sent_to_client (events w).
Proof.
  unfold after_line. destruct (Ptd._proto _); [|reflexivity]. apply sent_to_client_exchange.
Qed.

(** [_set_range]: two lines, then ten seconds. *)
Lemma set_range_trace (v a : string) (srv : Server.t) (w : World) :
  exists w',
    Server._set_range v a (srv, w) = (Ret tt, (srv, w'))
    /\ sent_to_daemon (events w')
       = sent_to_daemon (events w) ++ daemon_lines srv ["SR,V," +:+ v; "SR,A," +:+ a]
    /\ slept (events w') = slept (events w) + 100
    /\ sent_to_client (events w') = sent_to_client (events w)
    /\ logfile w' = logfile (after_line ("SR,A," +:+ a) srv (after_line ("SR,V," +:+ v) srv w)).
Proof.
  unfold Server._set_range, bind.
  destruct (on_ptd_cmd_eq ("SR,V," +:+ v) srv w) as (r1 & ->).
  destruct (on_ptd_cmd_eq ("SR,A," +:+ a) srv (after_line ("SR,V," +:+ v) srv w)) as (r2 & ->).
  eexists. split; [reflexivity|]. cbn.
  rewrite sent_to_daemon_app, slept_app, sent_to_client_app.
  rewrite !after_line_sent, !after_line_slept, !after_line_client.
  cbn. rewrite !app_nil_r, <- app_assoc, daemon_lines_app.
  split; [reflexivity|]. split; [lia|]. split; reflexivity.
Qed.

(** X16. [start-ranging,X] is always answered [OK]: it asks neither
    whether the daemon is connected nor whether a measurement is under
    way. It sets the mode and the marker and leaves the table and the last
    log alone; with a control connection the daemon is sent the two
    automatic ranges and [Go] with the marker [ranging-X], and without one
    nothing; ten seconds are slept in both cases. *)
Theorem start_ranging_always_ok (X : string) (srv : Server.t) (w : World) :
  all_chars Re.not_comma X = true ->
  exists w',
    Server.turn check_label ("start-ranging," +:+ X) (srv, w)
    = (Ret (Server.Replied "OK"),
       (Server.set_mark (Some X) (Server.set_mode (Some "ranging") srv), w'))
    /\ sent_to_daemon (events w')
       = sent_to_daemon (events w)
         ++ daemon_lines srv ["SR,V,Auto"; "SR,A,Auto"; "Go,1000,0,ranging-" +:+ X]
    /\ slept (events w') = slept (events w) + 100
    /\ sent_to_client (events w') = sent_to_client (events w) ++ ["OK"].
Proof.
  intros HX. rewrite turn_eq. unfold Server._handle_cmd.
  change ("start-ranging," +:+ X) with ("start-ranging" +:+ "," +:+ X).
  rewrite (fields_of_two "start-ranging" X eq_refl HX).
  cbn [hd nth length Nat.eqb String.eqb Ascii.eqb Bool.eqb andb].
  unfold bind.
  destruct (set_range_trace "Auto" "Auto" srv w) as (w1 & -> & S1 & Sl1 & C1 & _).
  destruct (on_ptd_cmd_eq ("Go,1000,0,ranging-" +:+ X) srv w1) as (r & ->).
  cbn [Server.update modify ret fst snd].
  eexists. split; [reflexivity|]. cbn [events set_events].
  rewrite sent_to_daemon_app, slept_app, sent_to_client_app.
  rewrite after_line_sent, after_line_slept, after_line_client.
  rewrite S1, Sl1, C1. cbn [sent_to_daemon slept sent_to_client].
  rewrite app_nil_r, <- app_assoc, daemon_lines_app.
  split; [reflexivity|]. split; [lia | reflexivity].
Qed.

Lemma start_testing_trace (X v a : string) (srv : Server.t) (w : World) :
  all_chars Re.not_comma X = true ->
  Server._ranging_table srv !! X = Some (v, a) ->
  exists w',
    Server.turn check_label ("start-testing," +:+ X) (srv, w)
    = (Ret (Server.Replied "OK"),
       (Server.set_mark (Some X) (Server.set_mode (Some "testing") srv), w'))
    /\ sent_to_daemon (events w')
       = sent_to_daemon (events w)
         ++ daemon_lines srv ["SR,V," +:+ v; "SR,A," +:+ a; "Go,1000,0,testing-" +:+ X]
    /\ slept (events w') = slept (events w) + 100
    /\ sent_to_client (events w') = sent_to_client (events w) ++ ["OK"].
Proof.
  intros HX T. rewrite turn_eq. unfold Server._handle_cmd.
  change ("start-testing," +:+ X) with ("start-testing" +:+ "," +:+ X).
  rewrite (fields_of_two "start-testing" X eq_refl HX).
  cbn [hd nth length Nat.eqb String.eqb Ascii.eqb Bool.eqb andb].
  unfold bind. cbn [Server.self fst snd]. rewrite T.
  destruct (set_range_trace v a srv w) as (w1 & -> & S1 & Sl1 & C1 & _).
  destruct (on_ptd_cmd_eq ("Go,1000,0,testing-" +:+ X) srv w1) as (r & ->).
  cbn [Server.update modify ret fst snd].
  eexists. split; [reflexivity|]. cbn [events set_events].
  rewrite sent_to_daemon_app, slept_app, sent_to_client_app.
  rewrite after_line_sent, after_line_slept, after_line_client.
  rewrite S1, Sl1, C1. cbn [sent_to_daemon slept sent_to_client].
  rewrite app_nil_r, <- app_assoc, daemon_lines_app.
  split; [reflexivity|]. split; [lia | reflexivity].
Qed.

(** X17. [start-testing,X] with an entry for [X] in the table is answered
    [OK] and sets the mode and the marker; with a control connection the
    daemon is sent the volts range of the entry, then its amps range, then
    [Go] with the marker [testing-X], and without one nothing; ten seconds
    are slept. *)
Theorem start_testing_applies_entry (X v a : string) (srv : Server.t) (w : World) :
  all_chars Re.not_comma X = true ->
  Server._ranging_table srv !! X = Some (v, a) ->
  exists w',
    Server.turn check_label ("start-testing," +:+ X) (srv, w)
    = (Ret (Server.Replied "OK"),
       (Server.set_mark (Some X) (Server.set_mode (Some "testing") srv), w'))
    /\ sent_to_daemon (events w')
       = sent_to_daemon (events w)
         ++ daemon_lines srv ["SR,V," +:+ v; "SR,A," +:+ a; "Go,1000,0,testing-" +:+ X]
    /\ slept (events w') = slept (events w) + 100
    /\ sent_to_client (events w') = sent_to_client (events w) ++ ["OK"].
Proof. apply start_testing_trace. Qed.

End Measure.

(** With [world_session] after [init], so with a control connection. *)
Lemma start_ranging_always_ok_witness :
  let st := snd (Server.turn (fun _ => true) "init"
                   (Server.__init__ example_config, world_session)) in
  exists w',
    Server.turn (fun _ => true) ("start-ranging," +:+ "run1") st
    = (Ret (Server.Replied "OK"),
       (Server.set_mark (Some "run1") (Server.set_mode (Some "ranging") (fst st)), w'))
    /\ sent_to_daemon (events w')
       = sent_to_daemon (events (snd st))
         ++ daemon_lines (fst st) ["SR,V,Auto"; "SR,A,Auto"; "Go,1000,0,ranging-" +:+ "run1"]
    /\ slept (events w') = slept (events (snd st)) + 100
    /\ sent_to_client (events w') = sent_to_client (events (snd st)) ++ ["OK"].
Proof.
  intros st. destruct st as [srv w] eqn:E.
  apply (start_ranging_always_ok (fun _ => true) "run1" srv w). reflexivity.
Defined.

(** A table that holds the ranges 3.5 V and 1.2 A for [run1]. *)
Lemma start_testing_applies_entry_witness :
  let srv := Server.set_ranging_table {[ "run1" := ("3.5", "1.2") ]}
               (Server.__init__ example_config) in
  exists w',
    Server.turn (fun _ => true) ("start-testing," +:+ "run1") (srv, world_session)
    = (Ret (Server.Replied "OK"),
       (Server.set_mark (Some "run1") (Server.set_mode (Some "testing") srv), w'))
    /\ sent_to_daemon (events w')
       = sent_to_daemon (events world_session)
         ++ daemon_lines srv ["SR,V," +:+ "3.5"; "SR,A," +:+ "1.2";
                              "Go,1000,0,testing-" +:+ "run1"]
    /\ slept (events w') = slept (events world_session) + 100
    /\ sent_to_client (events w') = sent_to_client (events world_session) ++ ["OK"].
Proof.
  intros srv.
  apply (start_testing_applies_entry (fun _ => true) "run1" "3.5" "1.2" srv world_session);
    reflexivity.
Defined.

(** ** The end of a measurement *)

(** What [max_volts_amps] raises is caught by [except Exception]. *)
Lemma max_volts_amps_exception (file : option string) (mark : string) e :
  max_volts_amps file mark = Raise e -> is_Exception e = true.
Proof.
  destruct file as [content|]; [|intros [= <-]; reflexivity].
  rewrite max_volts_amps_eq.
  destruct (max_loop mark _ (log_lines content)) as [[mv ma]|e'] eqn:E.
  - unfold PyDecimal.le.
    repeat match goal with
           | |- context [match ?x with _ => _ end] => destruct x; cbn [obind]
           end; intros [= <-]; reflexivity.
  - apply max_loop_exception in E as ->. intros [= <-]. reflexivity.
Qed.

Lemma read_log_exception (file : option string) (mark : string) e :
  read_log file mark = Raise e -> e = FileNotFoundError /\ file = None.
Proof. destruct file; [discriminate | intros [= <-]; auto]. Qed.

Section Stop.
Variable check_label : string -> bool.

(** The [stop] command with a measurement under way. *)
Lemma handle_stop_eq (cmd m : string) (srv : Server.t) (w : World) :
  is_command "stop" cmd -> Server._mark srv = Some m ->
  Server._handle_cmd check_label cmd (srv, w) =
  let w1 := after_line "Stop" srv w in
  let marker := str_opt (Server._mode srv) +:+ "-" +:+ m in
  if is_str (Server._mode srv) "ranging" then
    match max_volts_amps (logfile w1) ("ranging-" +:+ m) with
    | Ret item =>
        let srv1 := Server.set_ranging_table (<[m := item]> (Server._ranging_table srv)) srv in
        match read_log (logfile w1) marker with
        | Ret text =>
            (Ret "OK",
             (Server.set_mark None (Server.set_mode None (Server.set_last_log (Some text) srv1)),
              w1))
        | Raise e => (Raise e, (srv1, w1))
        end
    | Raise e => (Raise e, (srv, w1))
    end
  else
    match read_log (logfile w1) marker with
    | Ret text =>
        (Ret "OK",
         (Server.set_mark None (Server.set_mode None (Server.set_last_log (Some text) srv)), w1))
    | Raise e => (Raise e, (srv, w1))
    end.
Proof.
  unfold is_command. intros Hc Mk. unfold Server._handle_cmd. rewrite split_length, Hc.
  cbn [String.eqb Ascii.eqb Bool.eqb andb]. unfold bind. cbn [Server.self fst snd].
  rewrite Mk. destruct (on_ptd_cmd_eq "Stop" srv w) as (r & ->). cbv zeta.
  set (w1 := after_line "Stop" srv w).
  destruct (is_str (Server._mode srv) "ranging").
  - cbn [read_world Server.world fst snd lift].
    destruct (max_volts_amps (logfile w1) _) as [item|e]; [|reflexivity].
    cbn [Server.update modify fst snd read_world Server.world lift].
    destruct (read_log (logfile w1) _) as [text|e]; reflexivity.
  - cbn [read_world Server.world fst snd lift ret].
    destruct (read_log (logfile w1) _) as [text|e]; reflexivity.
Qed.


Lemma turn_stop_idle (cmd : string) (srv : Server.t) (w : World) :
  is_command "stop" cmd -> Server._mark srv = None ->
  Server.turn check_label cmd (srv, w)
  = (Ret (Server.Replied "Error"), (srv, set_events (events w ++ [ToClient "Error"]) w)).
Proof.
  unfold is_command. intros Hc Mk. rewrite turn_eq. unfold Server._handle_cmd.
  rewrite split_length, Hc. cbn [String.eqb Ascii.eqb Bool.eqb andb].
  unfold bind. cbn [Server.self fst snd]. rewrite Mk. reflexivity.
Qed.

(** X18. [stop] without a measurement under way is answered [Error] and
    does nothing. A [stop] answered [OK] had one under way, leaves none,
    neither mode nor marker, and has set the last log; so the [stop] that
    follows it is answered [Error]. *)
Theorem stop_ends_measurement (cmd : string) (st : Server.State) :
  is_command "stop" cmd ->
  (Server._mark (fst st) = None ->
   Server.turn check_label cmd st
   = (Ret (Server.Replied "Error"),
      (fst st, set_events (events (snd st) ++ [ToClient "Error"]) (snd st))))
  /\ (forall st',
        Server.turn check_label cmd st = (Ret (Server.Replied "OK"), st') ->
        is_Some (Server._mark (fst st))
        /\ Server._mark (fst st') = None /\ Server._mode (fst st') = None
        /\ is_Some (Server._last_log (fst st'))
        /\ forall cmd2, is_command "stop" cmd2 ->
             fst (Server.turn check_label cmd2 st') = Ret (Server.Replied "Error")).
Proof.
  intros Hc. destruct st as [srv w]. cbn [fst snd]. split.
  - intros Mk. now apply turn_stop_idle.
  - intros [srv' w'] T. cbn [fst].
    destruct (turn_effect _ _ _ _ _ T) as (r & w1 & H & Hr). cbn [fst] in H.
    apply handle_cmd_effect in H
      as [[_ N]|[(Hc' & _)|[(Hc' & _)|(_ & _ & m & text & table' & Mk & -> & _)]]].
    + exfalso. destruct Hr as [->|(e & -> & [=])]. now apply N.
    + unfold is_command in *. congruence.
    + unfold is_command in *. congruence.
    + rewrite Mk. split; [eauto|]. split; [reflexivity|]. split; [reflexivity|].
      split; [cbn; eauto|]. intros cmd2 Hc2.
      now rewrite (turn_stop_idle _ _ _ Hc2).
Qed.

(** X19. A [stop] answered [OK] records the measurement. In mode [ranging]
    the table gets, for the marker, what [max_volts_amps] returns for
    [ranging-] and the marker on the log as it is once the daemon has
    answered [Stop], and the last log is what [read_log] returns for the
    same; in another mode the table stays and the last log is what
    [read_log] returns for the mode, a dash and the marker. *)
Theorem stop_records_measurement (cmd m mode text : string) (srv : Server.t) (w : World) :
  is_command "stop" cmd ->
  Server._mark srv = Some m -> Server._mode srv = Some mode ->
  read_log (logfile (after_line "Stop" srv w)) (mode +:+ "-" +:+ m) = Ret text ->
  let w1 := after_line "Stop" srv w in
  let replied := set_events (events w1 ++ [ToClient "OK"]) w1 in
  (forall item,
     mode = "ranging" -> max_volts_amps (logfile w1) ("ranging-" +:+ m) = Ret item ->
     Server.turn check_label cmd (srv, w)
     = (Ret (Server.Replied "OK"),
        (Server.set_mark None (Server.set_mode None (Server.set_last_log (Some text)
           (Server.set_ranging_table (<[m := item]> (Server._ranging_table srv)) srv))),
         replied)))
  /\ (mode <> "ranging" ->
      Server.turn check_label cmd (srv, w)
      = (Ret (Server.Replied "OK"),
         (Server.set_mark None (Server.set_mode None (Server.set_last_log (Some text) srv)),
          replied))).
Proof.
  intros Hc Mk Md R w1 replied. subst w1 replied. split.
  - intros item -> Mx. rewrite turn_eq, (handle_stop_eq _ _ _ _ Hc Mk), Md. cbv zeta.
    cbn [is_str str_opt]. change (String.eqb "ranging" "ranging") with true. cbv iota.
    change ("ranging-" +:+ m) with ("ranging" +:+ "-" +:+ m) in Mx.
    change ("ranging-" +:+ m) with ("ranging" +:+ "-" +:+ m).
    rewrite Mx, R. reflexivity.
  - intros N. rewrite turn_eq, (handle_stop_eq _ _ _ _ Hc Mk), Md. cbv zeta.
    cbn [is_str str_opt].
    destruct (String.eqb_spec mode "ranging") as [E|_]; [contradiction|].
    rewrite R. reflexivity.
Qed.

(** X20. A [stop] answered [Error: exception] leaves the measurement under
    way: mode, marker, table and last log are as before, although [Stop]
    has gone to the daemon. This is the answer in mode [ranging] whenever
    [max_volts_amps] raises, for want of a positive value for instance,
    and in any mode when there is no log file. *)
Theorem failed_stop_keeps_measurement (cmd : string) (srv : Server.t) (w : World) :
  is_command "stop" cmd ->
  let w1 := after_line "Stop" srv w in
  let replied := set_events (events w1 ++ [ToClient "Error: exception"]) w1 in
  (forall st',
     Server.turn check_label cmd (srv, w) = (Ret (Server.Replied "Error: exception"), st') ->
     same_session srv (fst st'))
  /\ (forall m e,
        Server._mark srv = Some m -> is_str (Server._mode srv) "ranging" = true ->
        max_volts_amps (logfile w1) ("ranging-" +:+ m) = Raise e ->
        Server.turn check_label cmd (srv, w)
        = (Ret (Server.Replied "Error: exception"), (srv, replied)))
  /\ (forall m,
        Server._mark srv = Some m -> logfile w1 = None ->
        Server.turn check_label cmd (srv, w)
        = (Ret (Server.Replied "Error: exception"), (srv, replied))).
Proof.
  intros Hc w1 replied. subst w1 replied. split; [|split].
  - intros [srv' w'] T. cbn [fst].
    destruct (turn_effect _ _ _ _ _ T) as (r & w2 & H & Hr). cbn [fst] in H.
    apply handle_cmd_effect in H
      as [[S _]|[(Hc' & _)|[(Hc' & _)|(_ & -> & _)]]].
    + exact S.
    + unfold is_command in *. congruence.
    + unfold is_command in *. congruence.
    + destruct Hr as [[=]|(e & [=] & _)].
  - intros m e Mk Md Mx. rewrite turn_eq, (handle_stop_eq _ _ _ _ Hc Mk), Md. cbv zeta.
    rewrite Mx. pose proof (max_volts_amps_exception _ _ _ Mx) as Ex.
    rewrite Ex. destruct e; try reflexivity; discriminate.
  - intros m Mk Lf. rewrite turn_eq, (handle_stop_eq _ _ _ _ Hc Mk). cbv zeta.
    rewrite Lf. destruct (is_str _ _); reflexivity.
Qed.

End Stop.

(** ** From ranging to testing *)

(** X21. The ranges found by ranging are those applied to testing. When a
    [stop] ends the ranging of [X] and [max_volts_amps] returns a pair for
    the marker [ranging-X], the [stop] is answered [OK], the table holds
    the pair for [X], and a [start-testing,X] that follows is answered
    [OK]; over the two commands the daemon is sent [Stop], then the volts
    of the pair, then its amps, then [Go] with the marker [testing-X]. *)
Theorem testing_uses_measured_ranges (check_label : string -> bool) (X sv sa : string)
    (srv : Server.t) (w : World) :
  all_chars Re.not_comma X = true ->
  Server._mark srv = Some X -> Server._mode srv = Some "ranging" ->
  max_volts_amps (logfile (after_line "Stop" srv w)) ("ranging-" +:+ X) = Ret (sv, sa) ->
  exists st1 st2,
    Server.turn check_label "stop" (srv, w) = (Ret (Server.Replied "OK"), st1)
    /\ Server._ranging_table (fst st1) !! X = Some (sv, sa)
    /\ Server.turn check_label ("start-testing," +:+ X) st1 = (Ret (Server.Replied "OK"), st2)
    /\ sent_to_daemon (events (snd st2))
       = sent_to_daemon (events w)
         ++ daemon_lines srv ["Stop"; "SR,V," +:+ sv; "SR,A," +:+ sa;
                              "Go,1000,0,testing-" +:+ X]
    /\ Server._mode (fst st2) = Some "testing" /\ Server._mark (fst st2) = Some X.
Proof.
  intros HX Mk Md Mx.
  destruct (max_volts_amps_file _ _ _ Mx) as [text R].
  assert (T1 : Server.turn check_label "stop" (srv, w)
               = (Ret (Server.Replied "OK"),
                  (Server.set_mark None (Server.set_mode None (Server.set_last_log (Some text)
                     (Server.set_ranging_table (<[X := (sv, sa)]> (Server._ranging_table srv))
                        srv))),
                   set_events (events (after_line "Stop" srv w) ++ [ToClient "OK"])
                              (after_line "Stop" srv w)))).
  { rewrite turn_eq, (handle_stop_eq check_label "stop" X srv w eq_refl Mk), Md. cbv zeta.
    cbn [is_str str_opt]. change (String.eqb "ranging" "ranging") with true. cbv iota.
    rewrite Mx. change ("ranging" +:+ "-" +:+ X) with ("ranging-" +:+ X). rewrite R.
    reflexivity. }
  set (srv1 := Server.set_mark None _) in T1. set (w1 := set_events _ _) in T1.
  assert (L : Server._ranging_table srv1 !! X = Some (sv, sa)).
  { subst srv1. cbn. apply lookup_insert_eq. }
  destruct (start_testing_trace check_label X sv sa srv1 w1 HX L) as (w2 & T2 & S2 & _).
  exists (srv1, w1). eexists. split; [exact T1|]. split; [exact L|].
  split; [exact T2|]. cbn [fst snd]. split; [|split; reflexivity].
  rewrite S2. subst w1. cbn [events set_events].
  rewrite sent_to_daemon_app, after_line_sent. cbn [sent_to_daemon]. rewrite app_nil_r.
  assert (D : forall l, daemon_lines srv1 l = daemon_lines srv l) by reflexivity.
  rewrite D, <- app_assoc, daemon_lines_app. reflexivity.
Qed.

(** A [stop] as the first command of a server. *)
Lemma stop_ends_measurement_witness :
  let st := (Server.__init__ example_config, world_session) in
  Server.turn (fun _ => true) "stop" st
  = (Ret (Server.Replied "Error"),
     (fst st, set_events (events (snd st) ++ [ToClient "Error"]) (snd st))).
Proof.
  intros st.
  exact (proj1 (stop_ends_measurement (fun _ => true) "stop" st eq_refl) eq_refl).
Defined.

(** The ranging of [run1] on [world_session] ends with the entry
    (3.5, 1.2). *)
Lemma stop_records_measurement_witness :
  let srv := fst (ranging_run1 world_session) in
  let w := snd (ranging_run1 world_session) in
  let text := "Time,t0,Watts,3.3,Volts,3.3,Amps,1.0,PF,1,Mark,ranging-run1" +:+ String LF
              ("Time,t1,Watts,4.2,Volts,3.5,Amps,1.2,PF,1,Mark,ranging-run1" +:+ String LF "") in
  let w1 := after_line "Stop" srv w in
  Server.turn (fun _ => true) "stop" (srv, w)
  = (Ret (Server.Replied "OK"),
     (Server.set_mark None (Server.set_mode None (Server.set_last_log (Some text)
        (Server.set_ranging_table (<["run1" := ("3.5", "1.2")]> (Server._ranging_table srv)) srv))),
      set_events (events w1 ++ [ToClient "OK"]) w1)).
Proof.
  intros srv w text w1.
  assert (Mk : Server._mark srv = Some "run1") by (vm_compute; reflexivity).
  assert (Md : Server._mode srv = Some "ranging") by (vm_compute; reflexivity).
  assert (R : read_log (logfile (after_line "Stop" srv w)) ("ranging" +:+ "-" +:+ "run1")
              = Ret text) by (vm_compute; reflexivity).
  refine (proj1 (stop_records_measurement (fun _ => true) "stop" "run1" "ranging" text srv w
                   eq_refl Mk Md R) ("3.5", "1.2") eq_refl _).
  vm_compute. reflexivity.
Defined.

(** The daemon has logged nothing when [stop] comes: there is no log
    file, and the ranging of [run1] stays under way. *)
Lemma failed_stop_keeps_measurement_witness :
  let srv := fst (ranging_run1 world_silent) in
  let w := snd (ranging_run1 world_silent) in
  let w1 := after_line "Stop" srv w in
  Server._mark srv = Some "run1"
  /\ Server.turn (fun _ => true) "stop" (srv, w)
     = (Ret (Server.Replied "Error: exception"),
        (srv, set_events (events w1 ++ [ToClient "Error: exception"]) w1)).
Proof.
  intros srv w w1.
  assert (Mk : Server._mark srv = Some "run1") by (vm_compute; reflexivity).
  split; [exact Mk|].
  refine (proj1 (proj2 (failed_stop_keeps_measurement (fun _ => true) "stop" srv w eq_refl))
            "run1" FileNotFoundError Mk _ _); vm_compute; reflexivity.
Defined.

(** On [world_session], [stop] and [start-testing,run1] after the ranging
    of [run1] send the daemon 3.5 volts and 1.2 amperes. *)
Lemma testing_uses_measured_ranges_witness :
  let srv := fst (ranging_run1 world_session) in
  let w := snd (ranging_run1 world_session) in
  exists st1 st2,
    Server.turn (fun _ => true) "stop" (srv, w) = (Ret (Server.Replied "OK"), st1)
    /\ Server._ranging_table (fst st1) !! "run1" = Some ("3.5", "1.2")
    /\ Server.turn (fun _ => true) ("start-testing," +:+ "run1") st1
       = (Ret (Server.Replied "OK"), st2)
    /\ sent_to_daemon (events (snd st2))
       = sent_to_daemon (events w)
         ++ daemon_lines srv ["Stop"; "SR,V," +:+ "3.5"; "SR,A," +:+ "1.2";
                              "Go,1000,0,testing-" +:+ "run1"]
    /\ Server._mode (fst st2) = Some "testing" /\ Server._mark (fst st2) = Some "run1".
Proof.
  intros srv w.
  apply (testing_uses_measured_ranges (fun _ => true) "run1" "3.5" "1.2" srv w);
    vm_compute; reflexivity.
Defined.

(** ** What the client is sent *)

Lemma get_initial_range_client (s : Ptd.State) r s' :
  Ptd._get_initial_range s = (r, s') ->
  sent_to_client (events (snd s')) = sent_to_client (events (snd s)).
Proof.
  destruct s as [p w]. unfold Ptd._get_initial_range, bind.
  destruct (cmd_eq "RR" p w) as (a & w1 & -> & C).
  destruct a as [[|c rr]|]; try (intros [= <- <-]; exact C).
  unfold lift. destruct (Ptd.get_range_from_ranges_list _ 1); [|intros [= <- <-]; exact C].
  cbn [Ptd.update modify fst snd].
  destruct (Ptd.get_range_from_ranges_list _ 3); intros [= <- <-]; exact C.
Qed.

Lemma start_client (p : Ptd.t) (w : World) r s' :
  Ptd.start (p, w) = (r, s') ->
  sent_to_client (events (snd s')) = sent_to_client (events w).
Proof.
  rewrite start_eq. destruct (Ptd._process p); [intros [= <- <-]; reflexivity|]. cbv zeta.
  destruct (Ptd.connect_loop 100 _) as [r0 [p2 w2]] eqn:L.
  apply connect_loop_frame in L as (_ & _ & _ & _ & _ & _ & _ & C). cbn [snd events set_events] in C.
  rewrite sent_to_client_app in C. cbn in C. rewrite app_nil_r in C.
  destruct r0 as [[sock|]|e].
  - cbn [fst snd].
    destruct (cmd_eq "Hello" (Ptd.set_proto (Some sock) (Ptd.set_socket (Some sock) p2)) w2)
      as (hello & w3 & -> & C3).
    destruct (is_str hello _); [|intros [= <- <-]; cbn; congruence].
    destruct (cmd_eq "Identify" (Ptd.set_proto (Some sock) (Ptd.set_socket (Some sock) p2)) w3)
      as (idn & w4 & -> & C4).
    destruct (Ptd._get_initial_range _) as [r6 s6] eqn:G.
    apply get_initial_range_client in G. cbn [snd] in G.
    destruct r6; intros [= <- <-]; congruence.
  - destruct (stop_spec p2 w2) as (w' & -> & _ & _ & C'). intros [= <- <-]. cbn. congruence.
  - intros [= <- <-]. exact C.
Qed.

Section Replies.
Variable check_label : string -> bool.

(** The handler itself sends the client nothing. *)
Lemma handle_cmd_client (cmd : string) (st : Server.State) r st' :
  Server._handle_cmd check_label cmd st = (r, st') ->
  sent_to_client (events (snd st')) = sent_to_client (events (snd st)).
Proof.
  destruct st as [srv w]. unfold Server._handle_cmd. rewrite split_length.
  set (fields := split is_comma cmd).
  set (c0 := hd EmptyString fields). set (c1 := nth 1 fields EmptyString).
  cbn [snd]. intros H.
  destruct (String.eqb c0 "hello"); [injection H as <- <-; reflexivity|].
  destruct (String.eqb c0 "time").
  { unfold Server.time_now, bind in H. cbn in H. injection H as <- <-. reflexivity. }
  destruct (String.eqb c0 "init").
  { unfold bind, Server.on_ptd in H.
    cbn [Server.self Server.event emit with_world modify Server.world Server.set_world fst snd] in H.
    destruct (Ptd.start _) as [r1 [p' w2]] eqn:S. apply start_client in S.
    cbn [events set_events snd] in S. rewrite sent_to_client_app in S. cbn in S.
    rewrite app_nil_r in S.
    destruct r1 as [[]|e]; cbn in H; injection H as <- <-; exact S. }
  destruct (String.eqb c0 "start-ranging" && (length fields =? 2)%nat).
  { unfold bind in H.
    destruct (set_range_eq "Auto" "Auto" srv w) as (w1 & S1 & C1). rewrite S1 in H.
    destruct (on_ptd_cmd ("Go,1000,0,ranging-" +:+ c1) srv w1) as (r1 & w2 & S2 & C2).
    rewrite S2 in H. cbn in H. injection H as <- <-. cbn. congruence. }
  destruct (String.eqb c0 "start-testing" && (length fields =? 2)%nat).
  { unfold bind in H. cbn [Server.self fst snd] in H.
    destruct (Server._ranging_table srv !! c1) as [[maxVolts maxAmps]|];
      [|injection H as <- <-; reflexivity].
    destruct (set_range_eq maxVolts maxAmps srv w) as (w1 & S1 & C1). rewrite S1 in H.
    destruct (on_ptd_cmd ("Go,1000,0,testing-" +:+ c1) srv w1) as (r1 & w2 & S2 & C2).
    rewrite S2 in H. cbn in H. injection H as <- <-. cbn. congruence. }
  destruct (String.eqb c0 "stop").
  { unfold bind in H. cbn [Server.self fst snd] in H.
    destruct (Server._mark srv) as [m|]; [|injection H as <- <-; reflexivity].
    destruct (on_ptd_cmd "Stop" srv w) as (r1 & w1 & S1 & C1). rewrite S1 in H.
    destruct (is_str (Server._mode srv) "ranging").
    - cbn [read_world Server.world fst snd lift] in H.
      destruct (max_volts_amps (logfile w1) _) as [item|e];
        [|injection H as <- <-; exact C1].
      cbn [Server.update modify fst snd read_world Server.world lift] in H.
      destruct (read_log (logfile w1) _); cbn in H; injection H as <- <-; exact C1.
    - cbn [read_world Server.world fst snd lift ret] in H.
      destruct (read_log (logfile w1) _); cbn in H; injection H as <- <-; exact C1. }
  destruct (String.eqb c0 "get-last-log").
  { unfold bind in H. cbn [Server.self fst snd] in H.
    destruct (Server._last_log srv); injection H as <- <-; reflexivity. }
  destruct (String.eqb c0 "get-log").
  { unfold bind in H. cbn [read_world Server.world fst snd] in H.
    destruct (logfile w); injection H as <- <-; reflexivity. }
  destruct (String.eqb c0 "push-log" && (length fields =? 2)%nat).
  { destruct (check_label c1); cbn [negb] in H; [|injection H as <- <-; reflexivity].
    unfold bind, Server.timestamp_now, Server.receive_archive, bind in H. cbn in H.
    destruct (hd UploadOk (uploads w)); cbn in H; injection H as <- <-; cbn;
      rewrite <- ?app_assoc, sent_to_client_app; cbn; now rewrite app_nil_r. }
  injection H as <- <-. reflexivity.
Qed.

Lemma turn_client (cmd : string) (st : Server.State) out st' :
  Server.turn check_label cmd st = (out, st') ->
  sent_to_client (events (snd st'))
  = sent_to_client (events (snd st))
    ++ match out with Ret (Server.Replied reply) => [reply] | _ => [] end.
Proof.
  rewrite turn_eq.
  destruct (Server._handle_cmd check_label cmd st) as [r [srv w]] eqn:H.
  apply handle_cmd_client in H. cbn [snd] in H.
  destruct r as [reply|e].
  - intros [= <- <-]. cbn. now rewrite sent_to_client_app, H.
  - destruct e; cbn [is_Exception]; intros [= <- <-]; cbn;
      rewrite ?sent_to_client_app, ?app_nil_r, H; reflexivity.
Qed.

Lemma command_loop_client (incoming : list string) : forall st out st',
  Server.command_loop check_label incoming st = (out, st') ->
  exists replies,
    sent_to_client (events (snd st')) = sent_to_client (events (snd st)) ++ replies
    /\ (length replies <= length incoming)%nat.
Proof.
  induction incoming as [|cmd rest IH]; intros st out st' H.
  - injection H as <- <-. exists []. rewrite app_nil_r. auto.
  - rewrite command_loop_cons in H.
    destruct (Server.turn check_label cmd st) as [t st1] eqn:T.
    apply turn_client in T. destruct t as [[reply|]|e].
    + apply IH in H as (replies & E & L). exists (reply :: replies).
      rewrite E, T, <- app_assoc. split; [reflexivity | cbn; lia].
    + injection H as <- <-. exists []. rewrite T. split; [reflexivity | cbn; lia].
    + injection H as <- <-. exists []. rewrite T. split; [reflexivity | cbn; lia].
Qed.

(** X22. The server speaks only when spoken to: a turn of the loop sends
    the client its reply and nothing else, or nothing when the loop is
    left; so a connection is sent at most one line for each command it
    sent, and the stopping of the daemon at its end sends none. *)
Theorem one_reply_per_command (incoming : list string) (st : Server.State) :
  (forall cmd out st',
     Server.turn check_label cmd st = (out, st') ->
     sent_to_client (events (snd st'))
     = sent_to_client (events (snd st))
       ++ match out with Ret (Server.Replied reply) => [reply] | _ => [] end)
  /\ exists replies,
       sent_to_client (events (snd (snd (Server.handle_connection check_label incoming st))))
       = sent_to_client (events (snd st)) ++ replies
       /\ (length replies <= length incoming)%nat.
Proof.
  split; [intros cmd out st'; apply turn_client|].
  destruct st as [srv w]. unfold Server.handle_connection, bind.
  rewrite reset_session_eq.
  destruct (finally_stop (Server.command_loop check_label incoming)
              (Server.set_mark None (Server.set_mode None (Server.set_ranging_table ∅ srv)),
               match logfile w with
               | Some _ => set_logfile None (set_events (events w ++ [RemoveLog]) w)
               | None => w
               end)) as (st'' & E & C).
  rewrite E. cbn [snd].
  destruct (Server.command_loop check_label incoming _) as [out st1] eqn:L.
  apply command_loop_client in L as (replies & R & Len). cbn [snd] in *.
  exists replies. split; [|exact Len]. rewrite C, R. f_equal.
  destruct (logfile w); [|reflexivity]. cbn. rewrite sent_to_client_app. cbn.
  apply app_nil_r.
Qed.

(** X23. However a connection ends, by the client closing it, by a
    break or by an exit, the daemon is stopped: when [handle_connection]
    is over the supervisor holds neither protocol nor socket nor process.
    The same holds when the script is over. *)
Theorem connection_end_stops_daemon (incoming : list string) (st : Server.State)
    (config : ServerConfig) (connections : list (list string)) (w : World) :
  (let p := Server._ptd (fst (snd (Server.handle_connection check_label incoming st))) in
   Ptd._proto p = None /\ Ptd._socket p = None /\ Ptd._process p = None)
  /\ (let p := Server._ptd (fst (snd (Server.main check_label config connections w))) in
      Ptd._proto p = None /\ Ptd._socket p = None /\ Ptd._process p = None).
Proof.
  assert (F : forall A (body : M Server.State A) s,
            let p := Server._ptd (fst (snd (finally body (Server.on_ptd Ptd.stop) s))) in
            Ptd._proto p = None /\ Ptd._socket p = None /\ Ptd._process p = None).
  { intros A body s. unfold finally. destruct (body s) as [r [srv w0]].
    unfold Server.on_ptd. cbn [fst snd].
    destruct (stop_spec (Server._ptd srv) w0) as (w' & -> & _). cbn. auto. }
  split.
  - destruct st as [srv w0]. unfold Server.handle_connection, bind.
    rewrite reset_session_eq. apply F.
  - unfold Server.main, Server.close. apply F.
Qed.

End Replies.

(** ** Base64 *)

Lemma below_spec (n : nat) (k : N) : (k < N.of_nat n)%N -> In k (below n).
Proof.
  induction n as [|n IH]; [lia|]. intros H. cbn [below].
  destruct (N.eq_dec k (N.of_nat n)) as [->|NE]; [now left|]. right. apply IH. lia.
Qed.

(** A digit is at its place in the alphabet, and is not the padding. *)
Lemma place_digit (n : N) :
  (n < 64)%N ->
  place (Base64.digit n) Base64.alphabet = n /\ Base64.digit n <> "="%char.
Proof.
  intros H.
  assert (A : forallb (fun n => N.eqb (place (Base64.digit n) Base64.alphabet) n
                                && negb (Ascii.eqb (Base64.digit n) "="%char))
                      (below 64) = true) by (vm_compute; reflexivity).
  rewrite forallb_forall in A. specialize (A n (below_spec 64 n H)).
  apply andb_prop in A as [A B]. apply N.eqb_eq in A. apply negb_true_iff in B.
  split; [exact A|]. intros E. rewrite E in B. discriminate.
Qed.

Lemma digit_inj (m n : N) :
  (m < 64)%N -> (n < 64)%N -> Base64.digit m = Base64.digit n -> m = n.
Proof.
  intros Hm Hn E. rewrite <- (proj1 (place_digit m Hm)), <- (proj1 (place_digit n Hn)).
  now rewrite E.
Qed.

Lemma byte_lt (c : ascii) : (Base64.byte c < 256)%N.
Proof. unfold Base64.byte. pose proof (nat_ascii_bounded c). lia. Qed.

Lemma byte_inj (c d : ascii) : Base64.byte c = Base64.byte d -> c = d.
Proof.
  unfold Base64.byte. intros E. apply Nat2N.inj in E.
  rewrite <- (ascii_nat_embedding c), <- (ascii_nat_embedding d). now rewrite E.
Qed.

(** The four digits of a group of twenty-four bits. *)
Lemma group_digits (n : N) :
  (n = (n / 262144) * 262144 + ((n / 4096) mod 64) * 4096 + ((n / 64) mod 64) * 64
       + n mod 64)%N.
Proof.
  assert (E1 : (n / 4096 = n / 64 / 64)%N) by (now rewrite N.Div0.div_div).
  assert (E2 : (n / 262144 = n / 64 / 64 / 64)%N) by (now rewrite !N.Div0.div_div).
  rewrite E1, E2.
  pose proof (N.div_mod n 64). pose proof (N.div_mod (n / 64) 64).
  pose proof (N.div_mod (n / 64 / 64) 64). lia.
Qed.

Lemma group_high (n : N) : (n < 16777216)%N -> (n / 262144 < 64)%N.
Proof. intros H. apply N.Div0.div_lt_upper_bound. lia. Qed.

Lemma mod64_lt (n : N) : (n mod 64 < 64)%N.
Proof. apply N.mod_lt. lia. Qed.

Lemma group_lt (a b c : ascii) :
  (Base64.byte a * 65536 + Base64.byte b * 256 + Base64.byte c < 16777216)%N.
Proof. pose proof (byte_lt a). pose proof (byte_lt b). pose proof (byte_lt c). lia. Qed.

(** Two groups with the same digits are the same group. *)
Lemma group_inj (n n' : N) :
  (n < 16777216)%N -> (n' < 16777216)%N ->
  Base64.digit (n / 262144) = Base64.digit (n' / 262144) ->
  Base64.digit ((n / 4096) mod 64) = Base64.digit ((n' / 4096) mod 64) ->
  ((n / 64) mod 64 = (n' / 64) mod 64)%N -> (n mod 64 = n' mod 64)%N ->
  n = n'.
Proof.
  intros H H' E1 E2 E3 E4.
  apply digit_inj in E1; [|now apply group_high..].
  apply digit_inj in E2; [|apply mod64_lt..].
  rewrite (group_digits n), (group_digits n'). now rewrite E1, E2, E3, E4.
Qed.

Lemma bytes_inj (a b c a' b' c' : ascii) :
  (Base64.byte a * 65536 + Base64.byte b * 256 + Base64.byte c
   = Base64.byte a' * 65536 + Base64.byte b' * 256 + Base64.byte c')%N ->
  a = a' /\ b = b' /\ c = c'.
Proof.
  intros E. pose proof (byte_lt a). pose proof (byte_lt b). pose proof (byte_lt c).
  pose proof (byte_lt a'). pose proof (byte_lt b'). pose proof (byte_lt c').
  repeat split; apply byte_inj; lia.
Qed.

(** The low digits of a group that holds one byte or two. *)
Lemma low_digits_1 (x : N) :
  (((x * 65536) / 64) mod 64 = 0 /\ (x * 65536) mod 64 = 0)%N.
Proof.
  replace (x * 65536)%N with ((x * 1024) * 64)%N by lia.
  rewrite N.div_mul by lia. rewrite N.Div0.mod_mul.
  replace (x * 1024)%N with ((x * 16) * 64)%N by lia. now rewrite N.Div0.mod_mul.
Qed.

Lemma low_digits_2 (x y : N) : ((x * 65536 + y * 256) mod 64 = 0)%N.
Proof.
  replace (x * 65536 + y * 256)%N with ((x * 1024 + y * 4) * 64)%N by lia.
  apply N.Div0.mod_mul.
Qed.

Lemma b64encode_inj_le (k : nat) : forall a b : string,
  (String.length a <= k)%nat -> Base64.b64encode a = Base64.b64encode b -> a = b.
Proof.
  induction k as [|k IH]; intros a b L E.
  - destruct a; [|cbn in L; lia].
    destruct b as [|x [|y [|z r]]]; [reflexivity|discriminate..].
  - destruct a as [|x [|y [|z r]]]; destruct b as [|x' [|y' [|z' r']]];
      try reflexivity; try discriminate; cbn [Base64.b64encode] in E; cbv zeta in E.
    + (* one byte, one byte *)
      injection E as E1 E2.
      destruct (low_digits_1 (Base64.byte x)) as [Z3 Z4].
      destruct (low_digits_1 (Base64.byte x')) as [Z3' Z4'].
      assert (N : (Base64.byte x * 65536 = Base64.byte x' * 65536)%N).
      { apply group_inj; try congruence;
          [pose proof (byte_lt x) | pose proof (byte_lt x')]; lia. }
      f_equal. apply byte_inj. lia.
    + (* one byte, two bytes *)
      injection E as _ _ E3. exfalso.
      symmetry in E3. revert E3. apply place_digit, mod64_lt.
    + injection E as _ _ E3 _. exfalso.
      symmetry in E3. revert E3. apply place_digit, mod64_lt.
    + injection E as _ _ E3. exfalso. revert E3. apply place_digit, mod64_lt.
    + (* two bytes, two bytes *)
      injection E as E1 E2 E3. apply digit_inj in E3; [|apply mod64_lt..].
      pose proof (low_digits_2 (Base64.byte x) (Base64.byte y)) as Z4.
      pose proof (low_digits_2 (Base64.byte x') (Base64.byte y')) as Z4'.
      assert (N : (Base64.byte x * 65536 + Base64.byte y * 256
                   = Base64.byte x' * 65536 + Base64.byte y' * 256)%N).
      { apply group_inj; try congruence;
          [pose proof (byte_lt x); pose proof (byte_lt y)
          | pose proof (byte_lt x'); pose proof (byte_lt y')]; lia. }
      pose proof (byte_lt x). pose proof (byte_lt y).
      pose proof (byte_lt x'). pose proof (byte_lt y').
      f_equal; [apply byte_inj; lia|]. f_equal. apply byte_inj. lia.
    + injection E as _ _ _ E4 _. exfalso.
      symmetry in E4. revert E4. apply place_digit, mod64_lt.
    + injection E as _ _ E3 _. exfalso. revert E3. apply place_digit, mod64_lt.
    + injection E as _ _ _ E4 _. exfalso. revert E4. apply place_digit, mod64_lt.
    + (* three bytes and more *)
      injection E as E1 E2 E3 E4 E5.
      apply digit_inj in E3; [|apply mod64_lt..].
      apply digit_inj in E4; [|apply mod64_lt..].
      assert (N : (Base64.byte x * 65536 + Base64.byte y * 256 + Base64.byte z
                   = Base64.byte x' * 65536 + Base64.byte y' * 256 + Base64.byte z')%N).
      { apply group_inj; try assumption; apply group_lt. }
      apply bytes_inj in N as (-> & -> & ->).
      f_equal. f_equal. f_equal. apply IH; [cbn in L; lia | exact E5].
Qed.

Lemma b64encode_inj (a b : string) : Base64.b64encode a = Base64.b64encode b -> a = b.
Proof. apply (b64encode_inj_le (String.length a)). lia. Qed.

Lemma byte_ascii_of_N (n : N) : (n < 256)%N -> Base64.byte (ascii_of_N n) = n.
Proof.
  intros H. unfold Base64.byte, nat_of_ascii. rewrite N2Nat.id.
  now apply N_ascii_embedding.
Qed.

Lemma encode_inj (a : string) : forall b, Base64.encode a = Base64.encode b -> a = b.
Proof.
  induction a as [|c s IH]; intros [|d t]; cbn [Base64.encode]; cbv zeta.
  - reflexivity.
  - destruct (_ <? _)%N; discriminate.
  - destruct (_ <? _)%N; discriminate.
  - pose proof (byte_lt c) as Lc. pose proof (byte_lt d) as Ld.
    assert (Qc : (Base64.byte c / 64 < 4)%N) by (apply N.Div0.div_lt_upper_bound; lia).
    assert (Qd : (Base64.byte d / 64 < 4)%N) by (apply N.Div0.div_lt_upper_bound; lia).
    pose proof (mod64_lt (Base64.byte c)) as Mc. pose proof (mod64_lt (Base64.byte d)) as Md.
    pose proof (N.div_mod (Base64.byte c) 64 ltac:(lia)) as Dc.
    pose proof (N.div_mod (Base64.byte d) 64 ltac:(lia)) as Dd.
    set (qc := (Base64.byte c / 64)%N) in *. set (mc := (Base64.byte c mod 64)%N) in *.
    set (qd := (Base64.byte d / 64)%N) in *. set (md := (Base64.byte d mod 64)%N) in *.
    clearbody qc mc qd md.
    destruct (N.ltb_spec (Base64.byte c) 128) as [Hc|Hc];
      destruct (N.ltb_spec (Base64.byte d) 128) as [Hd|Hd]; intros E.
    + injection E as -> E. f_equal. now apply IH.
    + injection E as E _. exfalso. apply (f_equal Base64.byte) in E.
      rewrite byte_ascii_of_N in E by lia. lia.
    + injection E as E _. exfalso. apply (f_equal Base64.byte) in E.
      rewrite byte_ascii_of_N in E by lia. lia.
    + injection E as E1 E2 E. apply (f_equal Base64.byte) in E1, E2.
      rewrite !byte_ascii_of_N in E1, E2 by lia.
      f_equal; [|now apply IH]. apply byte_inj. lia.
Qed.

Lemma b64encode_length_le (k : nat) : forall data,
  (String.length data <= k)%nat ->
  String.length (Base64.b64encode data) = (4 * ((String.length data + 2) / 3))%nat.
Proof.
  induction k as [|k IH]; intros data L.
  - destruct data; [reflexivity | cbn in L; lia].
  - destruct data as [|x [|y [|z r]]]; try reflexivity.
    cbn [Base64.b64encode]. cbv zeta. cbn [String.length] in *. rewrite IH by lia.
    replace (S (S (S (String.length r))) + 2)%nat with (1 * 3 + (String.length r + 2))%nat by lia.
    rewrite Nat.div_add_l by lia. lia.
Qed.

(** X24. The Base64 payload of [get-log] and [get-last-log] loses
    nothing: two contents with the same encoding are the same bytes, and
    two texts with the same UTF-8 encoding under it are the same text. The
    payload has four characters for every three bytes, the last group
    padded. *)
Theorem payload_determines_content :
  (forall data data', Base64.b64encode data = Base64.b64encode data' -> data = data')
  /\ (forall text text',
        Base64.b64encode (Base64.encode text) = Base64.b64encode (Base64.encode text') ->
        text = text')
  /\ (forall data,
        String.length (Base64.b64encode data) = (4 * ((String.length data + 2) / 3))%nat).
Proof.
  split; [exact b64encode_inj|]. split.
  - intros text text' E. now apply encode_inj, b64encode_inj.
  - intros data. now apply (b64encode_length_le (String.length data)).
Qed.

(** ** Logs and archives *)

Section Transfers.
Variable check_label : string -> bool.

(** X25. [get-log] is answered with the bytes of the daemon's log file
    as they are on disk, encoded, and changes nothing; without a log file
    it is answered [Error: exception], which is the case from the start
    of a connection, where the file is removed, until the daemon
    writes. *)
Theorem get_log_returns_file (cmd : string) (srv : Server.t) (w : World) :
  is_command "get-log" cmd ->
  Server.turn check_label cmd (srv, w)
  = (match logfile w with
     | Some data =>
         (Ret (Server.Replied ("base64 " +:+ Base64.b64encode data)),
          (srv, set_events (events w ++ [ToClient ("base64 " +:+ Base64.b64encode data)]) w))
     | None =>
         (Ret (Server.Replied "Error: exception"),
          (srv, set_events (events w ++ [ToClient "Error: exception"]) w))
     end)
  /\ fst (Server.turn check_label cmd (snd (Server.reset_session (srv, w))))
     = Ret (Server.Replied "Error: exception").
Proof.
  unfold is_command. intros Hc.
  assert (H : forall srv w,
            Server._handle_cmd check_label cmd (srv, w)
            = (match logfile w with
               | Some data => Ret ("base64 " +:+ Base64.b64encode data)
               | None => Raise FileNotFoundError
               end, (srv, w))).
  { intros srv0 w0. unfold Server._handle_cmd. rewrite split_length, Hc.
    cbn [String.eqb Ascii.eqb Bool.eqb andb]. unfold bind.
    cbn [read_world Server.world fst snd]. destruct (logfile w0); reflexivity. }
  split.
  - rewrite turn_eq, H. destruct (logfile w); reflexivity.
  - rewrite reset_session_eq. cbn [snd]. rewrite turn_eq.
    destruct (logfile w) eqn:L; rewrite H; cbn [logfile set_logfile]; rewrite ?L; reflexivity.
Qed.

(** X26. [push-log,X] with a label that [check_label] refuses is answered
    [Error: invalid label] before anything is received. With a label it
    accepts, the archive is received into the output directory under the
    time stamp, an underscore and the label, extracted when it was
    received, and removed in every case; the handler returns [OK] when
    both steps succeeded and raises what failed otherwise. *)
Theorem push_log_cleans_up (X : string) (srv : Server.t) (w : World) :
  all_chars Re.not_comma X = true ->
  let dir := out_dir (Server._config srv) in
  let name := hd "1970-01-01_00-00-00" (stamps w) +:+ "_" +:+ X in
  let w1 := set_uploads (tl (uploads w)) (set_stamps (tl (stamps w)) w) in
  Server._handle_cmd check_label ("push-log," +:+ X) (srv, w)
  = if check_label X then
      match hd UploadOk (uploads w) with
      | UploadOk =>
          (Ret "OK",
           (srv, set_events (events w ++ [RecvFile dir name; Extract dir name;
                                           RemoveArchive dir name]) w1))
      | ExtractFails e =>
          (Raise e,
           (srv, set_events (events w ++ [RecvFile dir name; Extract dir name;
                                           RemoveArchive dir name]) w1))
      | RecvFails e =>
          (Raise e,
           (srv, set_events (events w ++ [RecvFile dir name; RemoveArchive dir name]) w1))
      end
    else (Ret "Error: invalid label", (srv, w)).
Proof.
  intros HX dir name w1. unfold Server._handle_cmd.
  change ("push-log," +:+ X) with ("push-log" +:+ "," +:+ X).
  rewrite (fields_of_two "push-log" X eq_refl HX).
  cbn [hd nth length Nat.eqb String.eqb Ascii.eqb Bool.eqb andb].
  destruct (check_label X); cbn [negb]; [|reflexivity].
  subst dir name w1. destruct w as [cs ds ws cl st up win lf evs].
  unfold bind, Server.timestamp_now, Server.receive_archive, bind. cbn.
  destruct (hd UploadOk up); cbn; rewrite <- ?app_assoc; reflexivity.
Qed.

End Transfers.

(** An upload that fails while it is extracted. *)
Lemma push_log_cleans_up_witness :
  let w := set_uploads [ExtractFails OSError] (set_stamps ["2024-01-01_00-00-00"] world_session) in
  Server._handle_cmd (fun _ => true) ("push-log," +:+ "run1") (Server.__init__ example_config, w)
  = (Raise OSError,
     (Server.__init__ example_config,
      set_events (events w ++ [RecvFile "out" "2024-01-01_00-00-00_run1";
                               Extract "out" "2024-01-01_00-00-00_run1";
                               RemoveArchive "out" "2024-01-01_00-00-00_run1"])
        (set_uploads [] (set_stamps [] w)))).
Proof.
  intros w.
  exact (push_log_cleans_up (fun _ => true) "run1" (Server.__init__ example_config) w eq_refl).
Defined.

(** The log file of [log_crlf] is sent with its carriage return. *)
Lemma get_log_returns_file_witness :
  let w := set_logfile (Some log_crlf) world_session in
  Server.turn (fun _ => true) "get-log" (Server.__init__ example_config, w)
  = (Ret (Server.Replied ("base64 " +:+ Base64.b64encode log_crlf)),
     (Server.__init__ example_config,
      set_events (events w ++ [ToClient ("base64 " +:+ Base64.b64encode log_crlf)]) w)).
Proof.
  intros w.
  exact (proj1 (get_log_returns_file (fun _ => true) "get-log"
                  (Server.__init__ example_config) w eq_refl)).
Defined.

(** ** Invariants of the session *)

Lemma split_fields (sep : ascii -> bool) (s : string) :
  Forall (fun f => all_chars (fun c => negb (sep c)) f = true) (split sep s).
Proof.
  induction s as [|c s IH]; [repeat constructor|]. cbn [split].
  destruct (sep c) eqn:Hc; [constructor; [reflexivity | exact IH]|].
  destruct (split sep s) as [|f fs]; [repeat constructor; cbn; now rewrite Hc|].
  inversion IH; subst. constructor; [|assumption]. cbn. now rewrite Hc.
Qed.

Lemma second_field (cmd : string) :
  all_chars Re.not_comma (nth 1 (split is_comma cmd) EmptyString) = true.
Proof.
  pose proof (split_fields is_comma cmd) as F.
  destruct (split is_comma cmd) as [|f [|g fs]]; try reflexivity.
  inversion F as [|? ? _ F']; subst. inversion F'; subst. assumption.
Qed.

Lemma max_volts_amps_positive (file : option string) (mark v a : string) :
  max_volts_amps file mark = Ret (v, a) ->
  exists dv da, v = PyDecimal.str dv /\ a = PyDecimal.str da /\ Dpos dv /\ Dpos da.
Proof.
  destruct file as [content|]; [|discriminate].
  destruct (max_volts_amps_cases content mark)
    as [(e & E & _)|(mv & ma & _ & [[_ E]|(Pv & Pa & E)])]; rewrite E; try discriminate.
  intros [= <- <-]. exists mv, ma. auto.
Qed.

Section Invariants.
Variable check_label : string -> bool.

Lemma turn_invariants (cmd reply : string) (st st' : Server.State) :
  Server.turn check_label cmd st = (Ret (Server.Replied reply), st') ->
  measuring (fst st) -> positive_ranges (fst st) ->
  measuring (fst st') /\ positive_ranges (fst st').
Proof.
  intros T M P. destruct st as [srv w], st' as [srv' w']. cbn [fst] in *.
  destruct (turn_effect _ _ _ _ _ T) as (r & w1 & H & Hr). cbn [fst] in H.
  pose proof H as H0.
  apply handle_cmd_effect in H
    as [[(Md & Mk & Tb & _) _]|[(_ & _ & _ & ->)|[(_ & _ & _ & _ & ->)|
        (Hc & -> & m & text & table' & Mk & -> & Ht)]]].
  - split.
    + unfold measuring. now rewrite Md, Mk.
    + unfold positive_ranges. now rewrite Tb.
  - split; [|exact P]. right. eexists. split; [reflexivity|].
    split; [apply second_field | now left].
  - split; [|exact P]. right. eexists. split; [reflexivity|].
    split; [apply second_field | now right].
  - split; [now left|]. destruct Ht as [[_ ->]|(Md & item & ->)]; [exact P|].
    rewrite (handle_stop_eq check_label _ _ _ _ Hc Mk), Md in H0. cbv zeta in H0.
    destruct (max_volts_amps _ _) as [[sv sa]|e] eqn:Mx; [|discriminate].
    destruct (read_log _ _) as [text'|e]; [|discriminate].
    assert (I : item = (sv, sa)).
    { apply (f_equal (fun x => Server._ranging_table (fst (snd x)) !! m)) in H0.
      cbn in H0. rewrite !lookup_insert_eq in H0. congruence. }
    subst item. intros X v a L. cbn in L.
    destruct (decide (m = X)) as [<-|NE].
    + rewrite lookup_insert_eq in L. injection L as <- <-.
      eapply max_volts_amps_positive, Mx.
    + rewrite lookup_insert_ne in L by exact NE. eapply P, L.
Qed.

Lemma lifetime_invariants (config : ServerConfig) (w0 : World)
    (hist : list (string * string)) (st : Server.State) :
  lifetime check_label config w0 hist st ->
  measuring (fst st) /\ positive_ranges (fst st).
Proof.
  induction 1 as [|hist [srv w] _ IH|hist st cmd reply st' _ IH T|hist [srv w] _ IH].
  - split; [now left|]. intros X v a L. cbn in L. rewrite lookup_empty in L. discriminate.
  - rewrite reset_session_eq. cbn [fst snd]. split; [now left|].
    intros X v a L. cbn in L. rewrite lookup_empty in L. discriminate.
  - destruct IH as [M P]. eapply turn_invariants; eassumption.
  - destruct (on_ptd_stop_eq srv w) as (p' & w' & ->). exact IH.
Qed.

(** X27. All along the life of a server, mode and marker go together:
    either there is neither, or there is a marker, which holds no comma,
    and the mode is [ranging] or [testing]. *)
Theorem mode_and_marker_go_together (config : ServerConfig) (w0 : World)
    (hist : list (string * string)) (st : Server.State) :
  lifetime check_label config w0 hist st ->
  (Server._mode (fst st) = None /\ Server._mark (fst st) = None)
  \/ exists X, Server._mark (fst st) = Some X /\ all_chars Re.not_comma X = true
               /\ (Server._mode (fst st) = Some "ranging"
                   \/ Server._mode (fst st) = Some "testing").
Proof. intros L. exact (proj1 (lifetime_invariants _ _ _ _ L)). Qed.

(** X28. All along the life of a server, every entry of the ranging
    table is a pair of texts of decimals above zero, as [max_volts_amps]
    returned them: each is the text of a finite decimal with the plus
    sign and a coefficient that is not zero, or of the positive infinity,
    never that of zero, of a negative number or of a NaN. *)
Theorem table_holds_positive_ranges (config : ServerConfig) (w0 : World)
    (hist : list (string * string)) (st : Server.State) (X v a : string) :
  lifetime check_label config w0 hist st ->
  Server._ranging_table (fst st) !! X = Some (v, a) ->
  exists dv da, v = PyDecimal.str dv /\ a = PyDecimal.str da
                /\ above_zero dv /\ above_zero da.
Proof.
  intros L H. destruct (proj2 (lifetime_invariants _ _ _ _ L) X v a H)
    as (dv & da & -> & -> & Pv & Pa).
  exists dv, da. repeat split; try reflexivity; now apply Dpos_above_zero.
Qed.

End Invariants.

(** The session of [world_session] while [run1] is ranged, and after the
    [stop] that ends it. *)
Lemma mode_and_marker_go_together_witness :
  let st := ranging_run1 world_session in
  (Server._mode (fst st) = None /\ Server._mark (fst st) = None)
  \/ exists X, Server._mark (fst st) = Some X /\ all_chars Re.not_comma X = true
               /\ (Server._mode (fst st) = Some "ranging"
                   \/ Server._mode (fst st) = Some "testing").
Proof.
  intros st.
  apply (mode_and_marker_go_together (fun _ => true) example_config world_session
           (([] ++ [("init", "OK")]) ++ [("start-ranging,run1", "OK")]) st).
  apply (life_turn _ _ _ _
           (snd (Server.turn (fun _ => true) "init"
                   (Server.__init__ example_config, world_session)))).
  - apply (life_turn _ _ _ _ (Server.__init__ example_config, world_session));
      [apply life_init | vm_compute; reflexivity].
  - vm_compute. reflexivity.
Defined.

Lemma table_holds_positive_ranges_witness :
  exists dv da, "3.5" = PyDecimal.str dv /\ "1.2" = PyDecimal.str da
                /\ above_zero dv /\ above_zero da.
Proof.
  apply (table_holds_positive_ranges (fun _ => true) example_config world_session
           ((([] ++ [("init", "OK")]) ++ [("start-ranging,run1", "OK")]) ++ [("stop", "OK")])
           (snd (Server.turn (fun _ => true) "stop" (ranging_run1 world_session)))
           "run1" "3.5" "1.2").
  - apply (life_turn _ _ _ _ (ranging_run1 world_session)).
    + apply (life_turn _ _ _ _
               (snd (Server.turn (fun _ => true) "init"
                       (Server.__init__ example_config, world_session)))).
      * apply (life_turn _ _ _ _ (Server.__init__ example_config, world_session));
          [apply life_init | vm_compute; reflexivity].
      * vm_compute. reflexivity.
    + vm_compute. reflexivity.
  - vm_compute. reflexivity.
Defined.

(** The infinity is not excluded: when the daemon has logged a record
    whose current reads [Inf], the entry of the table holds the text
    [Infinity], and [start-testing] sends it as the range of the
    current. *)
Example table_can_hold_infinity :
  let st := snd (Server.command_loop (fun _ => true)
                   ["init"; "start-ranging,run1"; "stop"; "start-testing,run1"]
                   (Server.__init__ example_config, world_infinite_amps)) in
  Server._ranging_table (fst st) !! "run1" = Some ("3.3", "Infinity")
  /\ In "SR,A,Infinity" (sent_to_daemon (events (snd st))).
Proof. vm_compute. split; [reflexivity|]. auto 20. Qed.
